(** * The render-and-preview pipeline of [handwrite_app.py]

    A shallow embedding of the classes [WorkerThread], [PreviewManager],
    [PreviewWidget] (the preview pipeline) and of [MainWindow.create_template],
    with the properties of the specification proved over it. *)

From Stdlib Require Import ZArith NArith QArith Qround Qpower Lia Lqa Bool List.
From Stdlib Require Import Ascii String DecimalPos DecimalZ DecimalString SpecFloat Sorted.
From stdpp Require Import base option list gmap strings.
Import ListNotations.

Local Open Scope Z_scope.

(** * Part I. Definitions *)

(** ** Python values *)

(** A Python [str] is a sequence of code points; [len] counts them. *)
Definition pystr : Type := list N.

Definition len {A : Type} (l : list A) : Z := Z.of_nat (length l).

(** The code points of a literal of this file, which is UTF-8 encoded. *)
Fixpoint utf8_decode (pending : N) (bytes : list N) : pystr :=
  match bytes with
  | [] => []
  | b :: rest =>
      if (b <? 128)%N then b :: utf8_decode 0 rest
      else if (b <? 192)%N then
        let acc := (pending * 64 + (b - 128))%N in
        match rest with
        | b' :: _ =>
            if ((128 <=? b') && (b' <? 192))%N then utf8_decode acc rest
            else acc :: utf8_decode 0 rest
        | [] => [acc]
        end
      else if (b <? 224)%N then utf8_decode (b - 192) rest
      else if (b <? 240)%N then utf8_decode (b - 224) rest
      else utf8_decode (b - 240) rest
  end.

Definition str (s : string) : pystr :=
  utf8_decode 0 (map N_of_ascii (list_ascii_of_string s)).

(** [needle in haystack] on strings. *)
Fixpoint startswith (s p : pystr) : bool :=
  match p, s with
  | [], _ => true
  | _ :: _, [] => false
  | x :: p', y :: s' => (x =? y)%N && startswith s' p'
  end.

Fixpoint contains (needle haystack : pystr) : bool :=
  startswith haystack needle ||
  match haystack with
  | [] => false
  | _ :: rest => contains needle rest
  end.

(** What a Python expression that may raise evaluates to. *)
Inductive outcome (E A : Type) : Type :=
| Returns (a : A)
| Raises (e : E).
Arguments Returns {E A} _.
Arguments Raises {E A} _.

#[export] Instance outcome_ret {E} : MRet (outcome E) := fun _ a => Returns a.
#[export] Instance outcome_bind {E} : MBind (outcome E) := fun _ _ f x =>
  match x with
  | Returns a => f a
  | Raises e => Raises e
  end.

(** Exceptions.  Every class below derives from [Exception], so that
    [except Exception] catches it; [exc_str e] is [str(e)]. *)
Inductive exception_class : Type :=
| ZeroDivisionError
| OverflowError
| ValueError
| KeyError
| OtherException.   (* [Exception] itself or any other subclass of it *)

Record exception : Type := mkException {
  exc_class : exception_class;
  exc_str : pystr
}.

(** [l[i]] on a Python list: a negative index counts from the end, and an index
    out of range raises [IndexError] (here [None]). *)
Definition py_getitem {A : Type} (l : list A) (i : Z) : option A :=
  if i <? 0 then (if i + len l <? 0 then None else l !! Z.to_nat (i + len l))
  else l !! Z.to_nat i.

(** [a // b] for ints. *)
Definition int_floordiv (a b : Z) : outcome exception Z :=
  if b =? 0
  then Raises (mkException ZeroDivisionError (str "integer division or modulo by zero"))
  else Returns (a / b).

(** ** Python floats: IEEE-754 binary64, rounding to nearest, ties to even *)

Module Float.

Definition prec : Z := 53.
Definition emax : Z := 1024.
Definition emin : Z := 3 - emax - prec.

(** The exponent of the last place of a number in [2^(k-1), 2^k). *)
Definition fexp (k : Z) : Z := Z.max (k - prec) emin.

(** The fraction [n/d] divided by [2^e], as a fraction. *)
Definition shift (n d e : Z) : Z * Z :=
  if 0 <=? e then (n, d * 2 ^ e) else (n * 2 ^ (- e), d).

(** The [k] with [2^(k-1) <= n/d < 2^k], for positive [n] and [d]. *)
Definition mag (n d : Z) : Z :=
  let k := Z.log2 n - Z.log2 d in
  let '(a, b) := shift n d k in
  if a <? b then k else k + 1.

(** The integer nearest to [a/b], the even one when there are two. *)
Definition rne (a b : Z) : Z :=
  let q := a / b in
  match 2 * (a mod b) ?= b with
  | Lt => q
  | Eq => if Z.even q then q else q + 1
  | Gt => q + 1
  end.

(** Mantissa and exponent of the rounding of the positive fraction [n/d],
    the exponent range being unbounded above. *)
Definition round_fraction (n d : Z) : Z * Z :=
  let e := fexp (mag n d) in
  let '(a, b) := shift n d e in
  (rne a b, e).

(** The float of sign [s] with mantissa [m] and exponent [e]: a mantissa
    that rounding carried to [2^prec] is renormalised, and an exponent
    beyond the largest one gives an infinity. *)
Definition to_float (s : bool) (me : Z * Z) : spec_float :=
  let '(m, e) := me in
  match m with
  | Zpos p =>
      let '(p', e') :=
        if m =? 2 ^ prec then (Z.to_pos (2 ^ (prec - 1)), e + 1) else (p, e) in
      if e' <=? emax - prec then S754_finite s p' e' else S754_infinity s
  | _ => S754_zero s
  end.

(** The float nearest to [(-1)^s * n/d], for [0 <= n] and [0 < d]. *)
Definition round (s : bool) (n d : Z) : spec_float :=
  match n with
  | Zpos _ => to_float s (round_fraction n d)
  | _ => S754_zero s
  end.

Definition is_infinite (x : spec_float) : bool :=
  match x with
  | S754_infinity _ => true
  | _ => false
  end.

(** [float(n)] for an int [n], as done for the int operand of a mixed
    operation. *)
Definition of_int (n : Z) : outcome exception spec_float :=
  let x := round (n <? 0) (Z.abs n) 1 in
  if is_infinite x
  then Raises (mkException OverflowError (str "int too large to convert to float"))
  else Returns x.

(** [a / b] for ints: the exact quotient, rounded once. *)
Definition int_truediv (a b : Z) : outcome exception spec_float :=
  if b =? 0 then Raises (mkException ZeroDivisionError (str "division by zero"))
  else
    let x := round (xorb (a <? 0) (b <? 0)) (Z.abs a) (Z.abs b) in
    if is_infinite x
    then Raises (mkException OverflowError
                   (str "integer division result too large for a float"))
    else Returns x.

(** [x * y] for floats; it never raises. *)
Definition mul (x y : spec_float) : spec_float :=
  match x, y with
  | S754_finite sx mx ex, S754_finite sy my ey =>
      let '(n, d) := shift (Zpos mx * Zpos my) 1 (- (ex + ey)) in
      round (xorb sx sy) n d
  | _, _ => SFmul prec emax x y
  end.

(** [int(x)] for a float: truncation towards zero. *)
Definition to_int (x : spec_float) : outcome exception Z :=
  match x with
  | S754_zero _ => Returns 0
  | S754_finite s m e =>
      let t := if 0 <=? e then Zpos m * 2 ^ e else Zpos m / 2 ^ (- e) in
      Returns (if s then - t else t)
  | S754_infinity _ =>
      Raises (mkException OverflowError (str "cannot convert float infinity to integer"))
  | S754_nan =>
      Raises (mkException ValueError (str "cannot convert float NaN to integer"))
  end.

(** [x * n] and [n * x] for a float [x] and an int [n]. *)
Definition mul_int (x : spec_float) (n : Z) : outcome exception spec_float :=
  y ← of_int n; Returns (mul x y).

Definition int_mul (n : Z) (x : spec_float) : outcome exception spec_float :=
  y ← of_int n; Returns (mul y x).

(** [float(100)] *)
Definition f100 : spec_float := S754_finite false 7036874417766400 (-46).

(** The literal [1.5]. *)
Definition one_and_a_half : spec_float := S754_finite false 6755399441055744 (-52).

(** The operations of the standard library's IEEE-754 specification, which
    the definitions above are proved to agree with. *)
Definition ref_of_int (n : Z) : spec_float := binary_normalize prec emax n 0 false.
Definition ref_truediv (a b : Z) : spec_float :=
  SFdiv prec emax (ref_of_int a) (ref_of_int b).
Definition ref_mul (x y : spec_float) : spec_float := SFmul prec emax x y.

End Float.

(** ** WorkerThread *)

(** The three Qt signals of the class and the values they carry. *)
Inductive signal (page : Type) : Type :=
| progressChanged (value : Z)
| resultReady (images : list page)
| errorOccurred (error_msg : pystr).
Arguments progressChanged {page} _.
Arguments resultReady {page} _.
Arguments errorOccurred {page} _.

(** What [handright.handwrite] returns: a lazy sequence that yields its pages
    one by one and then either is exhausted ([finish = None]) or raises. *)
Record page_iterator (page : Type) : Type := mkIterator {
  yielded : list page;
  finish : option exception
}.
Arguments mkIterator {page} _ _.
Arguments yielded {page} _.
Arguments finish {page} _.

Module WorkerThread.

(** The attributes of the object. *)
Record t (Template : Type) : Type := mk {
  text : pystr;
  template : Template;
  is_cancelled : bool
}.
Arguments mk {Template} _ _ _.
Arguments text {Template} _.
Arguments template {Template} _.
Arguments is_cancelled {Template} _.

(** "预览文本示例" *)
Definition placeholder : pystr := [39044; 35272; 25991; 26412; 31034; 20363]%N.

(** "字体大小与行间距设置不合理。请确保行间距大于字体大小。" *)
Definition clarified_message : pystr :=
  [23383; 20307; 22823; 23567; 19982; 34892; 38388; 36317; 35774; 32622;
   19981; 21512; 29702; 12290; 35831; 30830; 20445; 34892; 38388; 36317;
   22823; 20110; 23383; 20307; 22823; 23567; 12290]%N.

(** [int(chars_processed / text_length * 100)] *)
Definition percent (chars_processed text_length : Z) : outcome exception Z :=
  x ← Float.int_truediv chars_processed text_length;
  y ← Float.mul_int x 100;
  Float.to_int y.

(** The body of the [except Exception as e] clause: the message emitted. *)
Definition describe (e : exception) : pystr :=
  let error_msg := exc_str e in
  if contains (str "font.size") error_msg && contains (str "line_spacing") error_msg
  then clarified_message
  else error_msg.

(** How the [for] statement is left. *)
Inductive loop_exit : Type :=
| Exhausted                 (* the iterator has no more page *)
| Break                     (* [break]: the flag was found set *)
| Raised (e : exception).   (* an exception left the loop *)

(** The local variables and the object when the loop is left, and the
    number of times [self.is_cancelled] was read. *)
Record frame (page Template : Type) : Type := mkFrame {
  self : t Template;
  result : list page;
  chars_processed : Z;
  reads : nat
}.
Arguments mkFrame {page Template} _ _ _ _.
Arguments self {page Template} _.
Arguments result {page Template} _.
Arguments chars_processed {page Template} _.
Arguments reads {page Template} _.

Section Run.
Context {page Template : Type}.

(** The external renderer.  Its call may raise before any page is asked for. *)
Variable handwrite : pystr -> Template -> outcome exception (page_iterator page).

(** The interactive thread: [cancel_calls i] tells whether it calls
    [cancel] after the worker has read [self.is_cancelled] [i] times and
    before it reads it again. *)
Variable cancel_calls : nat -> bool.

(** [__init__] *)
Definition init (text : pystr) (template : Template) : t Template :=
  {| text := text; template := template; is_cancelled := false |}.

(** [cancel] *)
Definition cancel (self : t Template) : t Template :=
  {| text := text self; template := template self; is_cancelled := true |}.

(** The object as the worker finds it at its read number [i]. *)
Definition at_read (i : nat) (self : t Template) : t Template :=
  if cancel_calls i then cancel self else self.

(** The [for] loop of [run] over the pages still to come.  The signals are
    returned in the order of their emission. *)
Fixpoint for_pages (text_length progress_step : Z)
    (pages : list page) (finish : option exception) (fr : frame page Template)
  : list (signal page) * frame page Template * loop_exit :=
  match pages with
  | [] =>
      ([], fr, match finish with None => Exhausted | Some e => Raised e end)
  | page :: pages' =>
      let self := at_read (reads fr) (self fr) in
      if is_cancelled self
      then ([], mkFrame self (result fr) (chars_processed fr) (S (reads fr)), Break)
      else
        let result := result fr ++ [page] in
        let chars_processed := chars_processed fr + progress_step in
        match percent chars_processed text_length with
        | Raises e =>
            ([], mkFrame self result chars_processed (S (reads fr)), Raised e)
        | Returns p =>
            let progress := Z.min 95 p in
            let '(signals, fr', exit) :=
              for_pages text_length progress_step pages' finish
                (mkFrame self result chars_processed (S (reads fr))) in
            (progressChanged progress :: signals, fr', exit)
        end
  end.

(** What is done after the loop when no exception left it. *)
Definition after_loop (fr : frame page Template)
  : list (signal page) * t Template :=
  let self := at_read (reads fr) (self fr) in
  if negb (is_cancelled self)
  then ([progressChanged 100; resultReady (result fr)], self)
  else ([], self).

(** The text the renderer is called with. *)
Definition effective_text (self : t Template) : pystr :=
  match text self with
  | [] => placeholder
  | _ :: _ => text self
  end.

(** [if not self.text: self.text = "预览文本示例"] *)
Definition substitute_placeholder (self : t Template) : t Template :=
  {| text := effective_text self; template := template self;
     is_cancelled := is_cancelled self |}.

(** [run]: the signals emitted, in order, and the object at the end. *)
Definition run (self : t Template) : list (signal page) * t Template :=
  let self := substitute_placeholder self in
  match handwrite (text self) (template self) with
  | Raises e => ([errorOccurred (describe e)], self)
  | Returns pages =>
      let text_length := len (text self) in
      match int_floordiv text_length 100 with
      | Raises e => ([errorOccurred (describe e)], self)
      | Returns q =>
          let progress_step := Z.max 1 q in
          let chars_processed := 0 in
          let '(signals, fr, exit) :=
            for_pages text_length progress_step (yielded pages) (finish pages)
              (mkFrame self [] chars_processed 0%nat) in
          match exit with
          | Raised e =>
              (signals ++ [errorOccurred (describe e)], WorkerThread.self fr)
          | Exhausted | Break =>
              let '(last, self) := after_loop fr in (signals ++ last, self)
          end
      end
  end.

(** The progress values among emitted signals, and the signals of the two
    other channels. *)
Definition progress_values (signals : list (signal page)) : list Z :=
  omap (fun s => match s with progressChanged v => Some v | _ => None end) signals.

(** *** The terms of the statements *)

Definition text_length (self : t Template) : Z := len (effective_text self).

Definition progress_step (self : t Template) : Z :=
  Z.max 1 (text_length self / 100).

(** The flag is unset when [run] starts and nobody calls [cancel] before
    any of the first [n] reads of the flag. *)
Definition uncancelled_through (n : nat) (self : t Template) : Prop :=
  is_cancelled self = false /\ forall i, (i < n)%nat -> cancel_calls i = false.

(** The progress value of each of the first [n] iterations is computed
    without an [OverflowError]. *)
Definition no_overflow_through (n : nat) (self : t Template) : Prop :=
  forall k, (1 <= k <= n)%nat ->
    exists p, percent (Z.of_nat k * progress_step self) (text_length self)
              = Returns p.

(** The loop takes every page of the iterator [it]. *)
Definition consumes_all (it : page_iterator page) (self : t Template) : Prop :=
  uncancelled_through (length (yielded it)) self /\
  no_overflow_through (length (yielded it)) self.

(** The page-consumption loop finishes without cancellation and without an
    exception: the renderer returns an iterator that ends by exhaustion,
    every page is taken, and the flag is still unset at the read that
    follows the loop. *)
Definition completes (self : t Template) : Prop :=
  exists it,
    handwrite (effective_text self) (template self) = Returns it /\
    finish it = None /\
    uncancelled_through (S (length (yielded it))) self /\
    no_overflow_through (length (yielded it)) self.

(** The renderer raises [e] during page production: at its call, or at
    the end of the pages it yields, all of which the loop takes. *)
Definition renderer_raises (self : t Template) (e : exception) : Prop :=
  handwrite (effective_text self) (template self) = Raises e \/
  exists it,
    handwrite (effective_text self) (template self) = Returns it /\
    finish it = Some e /\ consumes_all it self.

(** The progress computation of the loop raises [e]: none of the first
    [k] reads finds the flag set, the first [k-1] progress values are
    computed, and the one of iteration [k] overflows. *)
Definition arithmetic_raises (self : t Template) (e : exception) : Prop :=
  exists it k,
    handwrite (effective_text self) (template self) = Returns it /\
    (1 <= k <= length (yielded it))%nat /\
    uncancelled_through k self /\ no_overflow_through (k - 1) self /\
    percent (Z.of_nat k * progress_step self) (text_length self) = Raises e.

(** An exception is raised during page production. *)
Definition raises_in_run (self : t Template) (e : exception) : Prop :=
  renderer_raises self e \/ arithmetic_raises self e.

(** The signals that end a task. *)
Definition is_terminal (s : signal page) : bool :=
  match s with
  | progressChanged _ => false
  | _ => true
  end.

End Run.

End WorkerThread.

(** ** PreviewManager *)

Module PreviewManager.

(** The two attributes the paging methods read and write.  The remaining
    attributes of the class ([last_update], [throttle_delay], [cached_images],
    [last_settings], [last_text]) are touched by none of them. *)
Record t (image : Type) : Type := mk {
  pages : list image;
  current_page : Z
}.
Arguments mk {image} _ _.
Arguments pages {image} _.
Arguments current_page {image} _.

Section Methods.
Context {image : Type}.

(** [__init__] *)
Definition init : t image := {| pages := []; current_page := 0 |}.

(** [set_pages]: [self.pages = list(pages); self.current_page = 0] *)
Definition set_pages (new_pages : list image) (self : t image) : t image :=
  {| pages := new_pages; current_page := 0 |}.

(** [get_current_page]: [Returns None] is Python's [None], [Raises tt] an
    [IndexError] of [self.pages[self.current_page]]. *)
Definition get_current_page (self : t image) : outcome unit (option image) :=
  match pages self with
  | [] => Returns None
  | _ :: _ =>
      match py_getitem (pages self) (current_page self) with
      | Some p => Returns (Some p)
      | None => Raises tt
      end
  end.

Definition next_page (self : t image) : t image * bool :=
  if current_page self <? len (pages self) - 1
  then ({| pages := pages self; current_page := current_page self + 1 |}, true)
  else (self, false).

Definition prev_page (self : t image) : t image * bool :=
  if 0 <? current_page self
  then ({| pages := pages self; current_page := current_page self - 1 |}, true)
  else (self, false).

Definition go_to_page (page_num : Z) (self : t image) : t image * bool :=
  if (0 <=? page_num) && (page_num <? len (pages self))
  then ({| pages := pages self; current_page := page_num |}, true)
  else (self, false).

(** The calls that write the two attributes, and the object after a
    sequence of them. *)
Inductive call : Type :=
| SetPages (new_pages : list image)
| NextPage
| PrevPage
| GoToPage (page_num : Z).

Definition perform (self : t image) (c : call) : t image :=
  match c with
  | SetPages l => set_pages l self
  | NextPage => fst (next_page self)
  | PrevPage => fst (prev_page self)
  | GoToPage n => fst (go_to_page n self)
  end.

Definition after (calls : list call) : t image := fold_left perform calls init.

(** The index is in range, and is 0 when there is no page. *)
Definition in_range (self : t image) : Prop :=
  0 <= current_page self /\
  (current_page self < len (pages self) \/
   (pages self = [] /\ current_page self = 0)).

End Methods.

End PreviewManager.

(** ** The worker threads of the preview pipeline *)

Module Pipeline.

(** A [WorkerThread] object as the interactive thread sees it: its flag and
    what [isRunning()] returns. *)
Record thread : Type := mkThread {
  is_cancelled : bool;
  running : bool
}.

(** The worker objects created so far, in creation order (an object is named
    by its position), and the attribute [PreviewWidget.worker]. *)
Record t : Type := mk {
  threads : list thread;
  worker : option nat
}.

Definition init : t := {| threads := []; worker := None |}.

(** [WorkerThread.cancel] on object [i]. *)
Definition cancel (i : nat) (st : t) : t :=
  {| threads := alter (fun th => mkThread true (running th)) i (threads st);
     worker := worker st |}.

(** The [run] of object [i] returns. *)
Definition finished (i : nat) (st : t) : t :=
  {| threads := alter (fun th => mkThread (is_cancelled th) false) i (threads st);
     worker := worker st |}.

Definition isRunning (i : nat) (st : t) : bool :=
  match threads st !! i with
  | Some th => running th
  | None => false
  end.

(** The first statement of [update_preview]:
    [if self.worker and self.worker.isRunning(): self.worker.cancel();
     self.worker.wait(100)].
    [stopped_in_time] tells whether the thread ends within the 100 ms. *)
Definition cancel_previous (stopped_in_time : bool) (st : t) : t :=
  match worker st with
  | Some w =>
      if isRunning w st
      then
        let st := cancel w st in
        if stopped_in_time then finished w st else st
      else st
  | None => st
  end.

(** [self.worker = WorkerThread(text, template)] ... [self.worker.start()] *)
Definition start_new (st : t) : t :=
  {| threads := threads st ++ [mkThread false true];
     worker := Some (length (threads st)) |}.

Definition update_preview (stopped_in_time : bool) (st : t) : t :=
  start_new (cancel_previous stopped_in_time st).

(** What can happen to the pipeline. *)
Inductive event : Type :=
| UpdatePreview (stopped_in_time : bool)
| Finished (i : nat)           (* the [run] of worker [i] returns *)
| DialogCanceled (i : nat).    (* the progress dialog of worker [i] is cancelled *)

Definition step (st : t) (ev : event) : t :=
  match ev with
  | UpdatePreview b => update_preview b st
  | Finished i => finished i st
  | DialogCanceled i => cancel i st
  end.

Definition after (events : list event) : t := fold_left step events init.

(** The workers that are running. *)
Definition running_workers (st : t) : list nat :=
  filter (fun i => isRunning i st = true) (seq 0 (length (threads st))).

(** Every running worker but the current one has been told to stop. *)
Definition superseded_are_cancelled (st : t) : Prop :=
  forall i th, threads st !! i = Some th -> running th = true ->
               worker st <> Some i -> is_cancelled th = true.

End Pipeline.

(** ** MainWindow: the template handed to the renderer *)

Module MainWindow.

(** A [QSpinBox]; [setValue] bounds the value by the range. *)
Record spinbox : Type := mkSpinbox {
  minimum : Z;
  maximum : Z;
  value : Z
}.

Definition setValue (v : Z) (sb : spinbox) : spinbox :=
  {| minimum := minimum sb; maximum := maximum sb;
     value := Z.max (minimum sb) (Z.min (maximum sb) v) |}.

(** The dict [get_current_settings] builds. *)
Record settings : Type := mkSettings {
  font : pystr;
  font_size : Z;
  margins : gmap string Z;
  distortions : gmap string spec_float
}.

(** The font object of [ImageFont.truetype(path, size)]. *)
Record FreeTypeFont : Type := mkFont {
  path : pystr;
  size : Z
}.

(** [handright.Template] with the keyword arguments of its constructor. *)
Record Template (image : Type) : Type := mkTemplate {
  background : image;
  template_font : FreeTypeFont;
  line_spacing : Z;
  word_spacing : Z;
  left_margin : Z;
  top_margin : Z;
  right_margin : Z;
  bottom_margin : Z;
  word_spacing_sigma : spec_float;
  line_spacing_sigma : spec_float;
  font_size_sigma : spec_float;
  perturb_x_sigma : spec_float;
  perturb_y_sigma : spec_float;
  perturb_theta_sigma : spec_float
}.
Arguments mkTemplate {image} _ _ _ _ _ _ _ _ _ _ _ _ _ _.
Arguments background {image} _.
Arguments template_font {image} _.
Arguments line_spacing {image} _.

(** The widgets [create_template] writes: the margin spin boxes and the
    messages of the status bar. *)
Record widgets : Type := mkWidgets {
  margin_inputs : gmap string spinbox;
  status_messages : list pystr
}.

(** [d[key]] on a dict with string keys; [str] of a [KeyError] is the
    [repr] of the key. *)
Definition getitem {A : Type} (d : gmap string A) (key : string)
  : outcome exception A :=
  match d !! key with
  | Some v => Returns v
  | None => Raises (mkException KeyError (str "'" ++ str key ++ str "'"))
  end.

(** [str(n)] for an int. *)
Definition str_of_int (n : Z) : pystr :=
  str (DecimalString.NilZero.string_of_int (Z.to_int n)).

(** [int(font_size * 1.5)] *)
Definition one_and_a_half_times (font_size : Z) : outcome exception Z :=
  x ← Float.int_mul font_size Float.one_and_a_half;
  Float.to_int x.

Section Background.
Context {image : Type}.

(** [bg_combo.currentData()] ([None] for the white background of the list),
    [Path(p).exists()], which raises the errors of [stat] it does not take
    for an absent file, [Image.open(p).convert('RGB')], and
    [Image.new('RGB', (1000, 1000), color='white')]. *)
Variable bg_path : option pystr.
Variable exists_ : pystr -> outcome exception bool.
Variable open_rgb : pystr -> outcome exception image.
Variable new_white : image.

Definition get_current_background : outcome exception image :=
  match bg_path with
  | None => Returns new_white
  | Some [] => Returns new_white
  | Some p =>
      found ← exists_ p;
      if found : bool then open_rgb p else Returns new_white
  end.

End Background.

Section CreateTemplate.
Context {image : Type}.

(** What [get_current_background()] evaluates to; the font file that the
    statements before the [try] choose for a font name ([exists] and [glob]
    read the directory of the fonts, and may raise); and whether
    [ImageFont.truetype] raises on a file and a size. *)
Variable current_background : outcome exception image.
Variable font_file : pystr -> outcome exception pystr.
Variable truetype_error : pystr -> Z -> option exception.

(** The statements of the [try] block up to the [return]: the line
    spacing the template gets, and the widgets as they are left. *)
Definition adjust_line_spacing (s : settings) (ui : widgets)
  : outcome exception Z * widgets :=
  let font_size := font_size s in
  match getitem (margins s) "行间距" with
  | Raises e => (Raises e, ui)
  | Returns line_spacing =>
      if line_spacing <=? font_size then
        match one_and_a_half_times font_size with
        | Raises e => (Raises e, ui)
        | Returns line_spacing =>
            match margin_inputs ui !! "行间距" with
            | Some sb =>
                (Returns line_spacing,
                 {| margin_inputs :=
                      <["行间距" := setValue line_spacing sb]> (margin_inputs ui);
                    status_messages :=
                      status_messages ui ++
                      [str "已自动调整行间距为 " ++ str_of_int line_spacing ++
                       str " (必须大于字体大小)"] |})
            | None => (Returns line_spacing, ui)
            end
        end
      else (Returns line_spacing, ui)
  end.

Definition truetype (file : pystr) (size : Z) : outcome exception FreeTypeFont :=
  match truetype_error file size with
  | Some e => Raises e
  | None => Returns (mkFont file size)
  end.

(** The [return Template(...)] statement, for the background and the font
    file found before the [try]. *)
Definition build (background : image) (font_path : pystr) (s : settings)
    (line_spacing : Z)
  : outcome exception (Template image) :=
  f ← truetype font_path (font_size s);
  word_spacing ← getitem (margins s) "字间距";
  left_margin ← getitem (margins s) "左边距";
  top_margin ← getitem (margins s) "上边距";
  right_margin ← getitem (margins s) "右边距";
  bottom_margin ← getitem (margins s) "下边距";
  word_spacing_sigma ← getitem (distortions s) "字间距扰动";
  line_spacing_sigma ← getitem (distortions s) "行间距扰动";
  font_size_sigma ← getitem (distortions s) "字体大小扰动";
  perturb_x_sigma ← getitem (distortions s) "横向偏移扰动";
  perturb_y_sigma ← getitem (distortions s) "纵向偏移扰动";
  perturb_theta_sigma ← getitem (distortions s) "旋转角度扰动";
  Returns (mkTemplate background f line_spacing word_spacing
             left_margin top_margin right_margin bottom_margin
             word_spacing_sigma line_spacing_sigma font_size_sigma
             perturb_x_sigma perturb_y_sigma perturb_theta_sigma).

(** [except Exception as e: raise Exception(f"创建模板失败: {str(e)}")] *)
Definition wrap {A : Type} (r : outcome exception A) : outcome exception A :=
  match r with
  | Returns a => Returns a
  | Raises e =>
      Raises (mkException OtherException (str "创建模板失败: " ++ exc_str e))
  end.

(** [create_template(settings)] with [settings] given.  The background and
    the font file are found before the [try]: an exception there leaves the
    method as it is, without the words of [wrap]. *)
Definition create_template (s : settings) (ui : widgets)
  : outcome exception (Template image) * widgets :=
  match current_background with
  | Raises e => (Raises e, ui)
  | Returns background =>
      match font_file (font s) with
      | Raises e => (Raises e, ui)
      | Returns font_path =>
          let '(r, ui) := adjust_line_spacing s ui in
          (wrap (line_spacing ← r; build background font_path s line_spacing), ui)
      end
  end.

End CreateTemplate.

(** The worker of the export: [export_image] replaces the attribute
    [worker_thread] by a new started worker, whatever the previous one does. *)
Record export_state : Type := mkExport {
  export_threads : list Pipeline.thread;
  worker_thread : option nat
}.

Definition export_image_start (st : export_state) : export_state :=
  {| export_threads := export_threads st ++ [Pipeline.mkThread false true];
     worker_thread := Some (length (export_threads st)) |}.

End MainWindow.

(** ** Rational values, for the statements about floats *)

Module FloatSpec.

(** [2^e] for any integer [e]. *)
Definition bpow (e : Z) : Q := (2 ^ e)%Q.

(** The fraction [n/d]. *)
Definition frac (n d : Z) : Q := (inject_Z n / inject_Z d)%Q.

(** The value of mantissa [m] at exponent [e]. *)
Definition value (me : Z * Z) : Q := (inject_Z (fst me) * bpow (snd me))%Q.

(** The value of a finite float; 0 for the others. *)
Definition B2Q (x : spec_float) : Q :=
  match x with
  | S754_finite s m e =>
      let v := value (Zpos m, e) in if s then (- v)%Q else v
  | _ => 0%Q
  end.

(** [m] is the integer nearest to [y], the even one of the two when [y] is
    half way between them. *)
Definition nearest_even (y : Q) (m : Z) : Prop :=
  (inject_Z m - (1#2) <= y <= inject_Z m + (1#2))%Q /\
  ((y == inject_Z m - (1#2) \/ y == inject_Z m + (1#2))%Q -> Z.even m = true).

(** [me] is the rounding of the positive [x]: the exponent is the one of the
    last place of [x], the mantissa is nearest to [x] scaled by it. *)
Definition rounds_to (x : Q) (me : Z * Z) : Prop :=
  exists k, (bpow (k - 1) <= x < bpow k)%Q /\ snd me = Float.fexp k /\
            nearest_even (x * bpow (- snd me)) (fst me).

(** A float that is zero or positive, and finite. *)
Definition nonneg_finite (x : spec_float) : Prop :=
  match x with
  | S754_zero false | S754_finite false _ _ => True
  | _ => False
  end.

(** [t] is [y] truncated. *)
Definition floor_of (y : Q) (t : Z) : Prop :=
  (inject_Z t <= y < inject_Z t + 1)%Q.

(** Where [a/b] lies between its integer part and the next integer: the
    location the standard library's rounding works with. *)
Definition loc_of (a b : Z) : location :=
  if a mod b =? 0 then loc_Exact else loc_Inexact (2 * (a mod b) ?= b).

(** The record [r] of a right shift holds the fraction [a/b]. *)
Definition represents (r : shr_record) (a b : Z) : Prop :=
  shr_m r = a / b /\ loc_of_shr_record r = loc_of a b.

End FloatSpec.

(** ** More of Python's strings *)

Definition str_eqb (a b : pystr) : bool := bool_decide (a = b).

(** [s in items] for a string and a list of strings. *)
Definition str_in (s : pystr) (items : list pystr) : bool :=
  existsb (str_eqb s) items.

(** [sep.join(items)] *)
Fixpoint join (sep : pystr) (items : list pystr) : pystr :=
  match items with
  | [] => []
  | s :: rest =>
      match rest with
      | [] => s
      | _ :: _ => s ++ sep ++ join sep rest
      end
  end.

(** The characters [str.strip()] removes: the white space of Unicode. *)
Definition isspace (c : N) : bool :=
  ((9 <=? c) && (c <=? 13) || (28 <=? c) && (c <=? 32) || (c =? 133) || (c =? 160)
   || (c =? 5760) || (8192 <=? c) && (c <=? 8202) || (c =? 8232) || (c =? 8233)
   || (c =? 8239) || (c =? 8287) || (c =? 12288))%N.

Fixpoint lstrip (s : pystr) : pystr :=
  match s with
  | [] => []
  | c :: s' => if isspace c then lstrip s' else s
  end.

Definition strip (s : pystr) : pystr := rev (lstrip (rev (lstrip s))).

(** A literal that holds ASCII characters only. *)
Fixpoint ascii_only (s : string) : bool :=
  match s with
  | EmptyString => true
  | String a s' => (N_of_ascii a <? 128)%N && ascii_only s'
  end.

(** [str.lower] on a string of ASCII characters. *)
Definition ascii_lower (s : pystr) : pystr :=
  map (fun c => if ((65 <=? c) && (c <=? 90))%N then (c + 32)%N else c) s.

(** [s[i:j]] for [0 <= i] and [0 <= j]: the end is cut at the length. *)
Definition slice {A : Type} (l : list A) (i j : Z) : list A :=
  take (Z.to_nat (j - i)) (drop (Z.to_nat i) l).

(** ** PreviewWidget: paging *)

Module PreviewNavigation.

Section Slots.
Context {image : Type}.

(** [PreviewWidget.prev_page], [next_page] and [go_to_page] on the page
    cache; the flag tells whether [show_current_page] and
    [update_navigation] are called.  [show_current_page] sets the page spin
    box to [current_page + 1], and the [go_to_page] this triggers finds
    [page_num] equal to it. *)
Definition prev_page (m : PreviewManager.t image) : PreviewManager.t image * bool :=
  PreviewManager.prev_page m.

Definition next_page (m : PreviewManager.t image) : PreviewManager.t image * bool :=
  PreviewManager.next_page m.

Definition go_to_page (page_num : Z) (m : PreviewManager.t image)
  : PreviewManager.t image * bool :=
  if negb (page_num =? PreviewManager.current_page m + 1)
  then PreviewManager.go_to_page (page_num - 1) m
  else (m, false).

(** [update_navigation]: whether the buttons of the previous and of the
    next page are enabled. *)
Definition update_navigation (m : PreviewManager.t image) : bool * bool :=
  let has_pages :=
    match PreviewManager.pages m with
    | [] => false
    | _ :: _ => true
    end in
  (has_pages && (0 <? PreviewManager.current_page m),
   has_pages &&
   (PreviewManager.current_page m <? len (PreviewManager.pages m) - 1)).

End Slots.

End PreviewNavigation.

(** ** PreviewWidget: the subscriber of the preview pipeline *)

Module PreviewWidget.

(** "未能生成预览图像，可能是参数设置不合理" *)
Definition no_output_message : pystr :=
  [26410; 33021; 29983; 25104; 39044; 35272; 22270; 20687; 65292; 21487;
   33021; 26159; 21442; 25968; 35774; 32622; 19981; 21512; 29702]%N.

(** The page cache, the texts of the warning boxes in the order the boxes
    were opened, and the page spin box.  What [apply_zoom] and
    [update_navigation] do is display only. *)
Record t (image : Type) : Type := mk {
  preview_manager : PreviewManager.t image;
  warnings : list pystr;
  page_spin : MainWindow.spinbox
}.
Arguments mk {image} _ _ _.
Arguments preview_manager {image} _.
Arguments warnings {image} _.
Arguments page_spin {image} _.

(** Why a slot does not return. *)
Inductive failure : Type :=
| IndexError     (* of [self.pages[self.current_page]] *)
| TooDeep.       (* the slots nest deeper than [depth] allows *)

(** [QSpinBox.setMaximum]: a maximum below the minimum lowers the minimum
    too, and the value is kept within the range. *)
Definition setMaximum (m : Z) (sb : MainWindow.spinbox) : MainWindow.spinbox :=
  let lo := Z.min (MainWindow.minimum sb) m in
  {| MainWindow.minimum := lo; MainWindow.maximum := m;
     MainWindow.value := Z.max lo (Z.min m (MainWindow.value sb)) |}.

Section Handlers.
Context {image : Type}.

(** The image [handle_preview_error] draws the message on. *)
Variable error_image : pystr -> image.

(** A slot of [page_spin.valueChanged]. *)
Definition slot : Type := Z -> t image -> outcome failure (t image).

(** The page spin box is written: when its value has changed, Qt emits
    [valueChanged] with the new value, and [setup_ui] has connected the
    signal to [go_to_page]. *)
Definition write_page_spin (valueChanged : slot) (sb : MainWindow.spinbox)
    (self : t image) : outcome failure (t image) :=
  let self' := {| preview_manager := preview_manager self;
                  warnings := warnings self; page_spin := sb |} in
  if MainWindow.value sb =? MainWindow.value (page_spin self)
  then Returns self'
  else valueChanged (MainWindow.value sb) self'.

(** [show_current_page]: [page_spin.setValue(current_page + 1)] when there
    is a current page.  The conversion of the page to a pixmap and
    [apply_zoom] are display only. *)
Definition show_current_page (valueChanged : slot) (self : t image)
  : outcome failure (t image) :=
  match PreviewManager.get_current_page (preview_manager self) with
  | Raises _ => Raises IndexError
  | Returns None => Returns self
  | Returns (Some _) =>
      write_page_spin valueChanged
        (MainWindow.setValue
           (PreviewManager.current_page (preview_manager self) + 1) (page_spin self))
        self
  end.

(** [go_to_page], the slot of [valueChanged]; [show_current_page] writes the
    spin box in its turn, and [depth] bounds the nesting this gives. *)
Fixpoint go_to_page (depth : nat) (page_num : Z) (self : t image)
  : outcome failure (t image) :=
  match depth with
  | O => Raises TooDeep
  | S depth =>
      let '(m, refresh) :=
        PreviewNavigation.go_to_page page_num (preview_manager self) in
      if refresh : bool
      then show_current_page (go_to_page depth)
             {| preview_manager := m; warnings := warnings self;
                page_spin := page_spin self |}
      else Returns self
  end.

(** [QMessageBox.warning(self, "预览错误", error_msg)]: the box is opened. *)
Definition warning (error_msg : pystr) (self : t image) : t image :=
  {| preview_manager := preview_manager self;
     warnings := warnings self ++ [error_msg];
     page_spin := page_spin self |}.

(** [handle_preview_error].  The warning box is modal: it runs an event loop
    until it is closed, and the slots this loop runs meanwhile take the
    widget from the state it is given to the state [box] returns; the
    cache is tested after that. *)
Definition handle_preview_error (depth : nat)
    (box : t image -> outcome failure (t image))
    (error_msg : pystr) (self : t image) : outcome failure (t image) :=
  self ← box (warning error_msg self);
  match PreviewManager.pages (preview_manager self) with
  | [] =>
      show_current_page (go_to_page depth)
        {| preview_manager :=
             PreviewManager.set_pages [error_image error_msg] (preview_manager self);
           warnings := warnings self;
           page_spin := page_spin self |}
  | _ :: _ => Returns self
  end.

(** [handle_preview_result] *)
Definition handle_preview_result (depth : nat)
    (box : t image -> outcome failure (t image))
    (images : list image) (self : t image) : outcome failure (t image) :=
  match images with
  | [] => handle_preview_error depth box no_output_message self
  | _ :: _ =>
      let self :=
        {| preview_manager := PreviewManager.set_pages images (preview_manager self);
           warnings := warnings self;
           page_spin := page_spin self |} in
      self ← write_page_spin (go_to_page depth)
               (setMaximum (Z.max 1 (len images)) (page_spin self)) self;
      show_current_page (go_to_page depth) self
  end.

(** A notification of a worker as the widget handles it, with the
    notifications that are handled meanwhile, by the event loop its slot
    runs: the loop of the warning box for an error and for an empty
    result, [processEvents] of the modal progress dialog for a progress
    value.  The slot of a result that is not empty runs no loop. *)
#[warnings="-register-all"] Inductive notification : Type :=
| Notify (s : signal image) (during : list notification).

(** The slots [update_preview] connects the signals of a worker to;
    [progressChanged] goes to the progress dialog only. *)
Fixpoint deliver (depth : nat) (n : notification) (self : t image) {struct n}
  : outcome failure (t image) :=
  match n with
  | Notify s during =>
      let box :=
        fix box (l : list notification) (self : t image)
          : outcome failure (t image) :=
          match l with
          | [] => Returns self
          | n' :: l' => self ← deliver depth n' self; box l' self
          end in
      match s with
      | progressChanged _ => box during self
      | resultReady images => handle_preview_result depth (box during) images self
      | errorOccurred error_msg =>
          handle_preview_error depth (box during) error_msg self
      end
  end.

(** Notifications handled one after the other. *)
Fixpoint deliver_all (depth : nat) (l : list notification) (self : t image)
  : outcome failure (t image) :=
  match l with
  | [] => Returns self
  | n :: l' => self ← deliver depth n self; deliver_all depth l' self
  end.

(** [__init__] and [setup_ui]: an empty cache, no warning shown, and a new
    spin box, of range 0..99, whose minimum and value are set to 1. *)
Definition init : t image :=
  {| preview_manager := PreviewManager.init;
     warnings := [];
     page_spin := MainWindow.mkSpinbox 1 99 1 |}.

End Handlers.

End PreviewWidget.

(** ** PreviewWidget: the steps of a run of notifications, and the zoom *)

Module PreviewCache.

Section Notifications.
Context {image : Type}.

(** What the handling of notifications does to the widget, in the order it
    is done: a warning box is opened, a warning box is closed and the cache
    tested, a result that is not empty is stored. *)
Inductive step : Type :=
| Opened (error_msg : pystr)
| Closed (error_msg : pystr)
| Stored (images : list image).

Fixpoint steps (n : PreviewWidget.notification (image:=image)) : list step :=
  match n with
  | PreviewWidget.Notify s during =>
      let inner :=
        (fix inner (l : list PreviewWidget.notification) : list step :=
           match l with
           | [] => []
           | n' :: l' => steps n' ++ inner l'
           end) during in
      match s with
      | progressChanged _ => inner
      | resultReady [] =>
          Opened PreviewWidget.no_output_message :: inner ++
          [Closed PreviewWidget.no_output_message]
      | resultReady (p :: images) => [Stored (p :: images)]
      | errorOccurred error_msg => Opened error_msg :: inner ++ [Closed error_msg]
      end
  end.

Fixpoint steps_all (l : list (PreviewWidget.notification (image:=image))) : list step :=
  match l with
  | [] => []
  | n :: l' => steps n ++ steps_all l'
  end.

Definition opened_of (s : step) : option pystr :=
  match s with Opened error_msg => Some error_msg | _ => None end.

Definition closed_of (s : step) : option pystr :=
  match s with Closed error_msg => Some error_msg | _ => None end.

Definition stored_of (s : step) : option (list image) :=
  match s with Stored images => Some images | _ => None end.

(** The last element of a list that [f] selects. *)
Definition last_of {A B : Type} (f : A -> option B) (l : list A) : option B :=
  head (omap f (rev l)).

Definition first_of {A B : Type} (f : A -> option B) (l : list A) : option B :=
  head (omap f l).

End Notifications.

End PreviewCache.

Module PreviewZoom.

(** [set_zoom]: the zoom level it stores. *)
Definition set_zoom (level : Z) : Z := Z.max 10 (Z.min 300 level).

(** The zoom level of a new widget. *)
Definition init : Z := 100.

(** The two zoom buttons and a call of [set_zoom]. *)
Inductive action : Type :=
| ZoomOut
| ZoomIn
| SetZoom (level : Z).

Definition perform (zoom_level : Z) (a : action) : Z :=
  match a with
  | ZoomOut => set_zoom (zoom_level - 10)
  | ZoomIn => set_zoom (zoom_level + 10)
  | SetZoom level => set_zoom level
  end.

Definition after (actions : list action) : Z := fold_left perform actions init.

(** [apply_zoom]: [int(size * self.zoom_level / 100)] for the width or the
    height of the pixmap. *)
Definition scaled (size zoom_level : Z) : outcome exception Z :=
  x ← Float.int_truediv (size * zoom_level) 100;
  Float.to_int x.

(** [min(x, y)] on floats: [y] when [y < x], else [x]. *)
Definition float_min (x y : spec_float) : spec_float :=
  if SFltb y x then y else x.

(** [fit_to_window] when there is a current page: the argument [int(ratio)]
    of [set_zoom]. *)
Definition fit_level (viewport_width viewport_height image_width image_height : Z)
  : outcome exception Z :=
  let view_width := viewport_width - 20 in
  let view_height := viewport_height - 20 in
  width_ratio ← Float.int_truediv view_width image_width;
  height_ratio ← Float.int_truediv view_height image_height;
  ratio ← Float.mul_int (float_min width_ratio height_ratio) 100;
  Float.to_int ratio.

Definition fit_to_window (viewport_width viewport_height image_width image_height : Z)
  : outcome exception Z :=
  level ← fit_level viewport_width viewport_height image_width image_height;
  Returns (set_zoom level).

End PreviewZoom.

(** ** MainWindow: the slot of the font size, the preview text, the export
    format *)

Module Window.

Import MainWindow.

(** The slot [adjust_line_spacing(font_size)] of the font size spin box.
    (The definition [MainWindow.adjust_line_spacing] above is the adjustment
    that [create_template] makes.) *)
Definition adjust_line_spacing (font_size : Z) (ui : widgets)
  : outcome exception widgets :=
  match margin_inputs ui !! "行间距" with
  | Some sb =>
      let current_line_spacing := value sb in
      min_line_spacing ← one_and_a_half_times font_size;
      if current_line_spacing <? min_line_spacing
      then
        Returns
          {| margin_inputs :=
               <["行间距" := setValue min_line_spacing sb]> (margin_inputs ui);
             status_messages :=
               status_messages ui ++
               [str "已自动调整行间距为 " ++ str_of_int min_line_spacing ++
                str " (必须大于字体大小)"] |}
      else Returns ui
  | None => Returns ui
  end.

(** The text [update_preview] hands to the preview:
    [text[:min(500, len(text))]], after the placeholder has taken the place
    of an empty text. *)
Definition preview_text (text : pystr) : pystr :=
  let text :=
    match text with
    | [] => WorkerThread.placeholder
    | _ :: _ => text
    end in
  slice text 0 (Z.min 500 (len text)).

(** [FileManager.get_supported_export_formats()] *)
Definition get_supported_export_formats : pystr :=
  str "PDF文件 (*.pdf);;PNG图片 (*.png);;JPEG图片 (*.jpg);;Word文档 (*.docx)".

(** The filters a file dialog offers for a filter string: its parts between
    the separators [;;]. *)
Fixpoint name_filters (current filter : pystr) : list pystr :=
  match filter with
  | [] => [current]
  | c :: rest =>
      match rest with
      | c' :: rest' =>
          if ((c =? 59) && (c' =? 59))%N
          then current :: name_filters [] rest'
          else name_filters (current ++ [c]) rest
      | [] => [current ++ [c]]
      end
  end.

(** The format [export_image] takes for the filter selected in the dialog. *)
Definition export_format (selected_filter : pystr) : pystr :=
  if contains (str "PDF") selected_filter then str "pdf"
  else if contains (str "PNG") selected_filter then str "png"
  else if contains (str "JPEG") selected_filter then str "jpeg"
  else if contains (str "DOCX") selected_filter then str "docx"
  else str "pdf".

(** The message [handle_error] of [export_image] shows for an error signal. *)
Definition export_error_message (error_msg : pystr) : pystr :=
  if contains (str "font.size") error_msg && contains (str "line_spacing") error_msg
  then str "字体大小与行间距设置不合理。请确保行间距大于字体大小，建议行间距至少为字体大小的1.5倍。"
  else error_msg.

End Window.

(** ** FileManager *)

Module FileManager.

(** A [pathlib.Path]: [str(p)], [p.name] and [p.suffix]. *)
Record Path : Type := mkPath {
  path_str : pystr;
  name : pystr;
  suffix : pystr
}.

(** What [open(file_path, 'r', encoding=encoding)] followed by [f.read()]
    does: it returns the text, or raises [UnicodeDecodeError], or raises
    something else. *)
Inductive read_result : Type :=
| Decoded (text : pystr)
| UnicodeDecodeError
| ReadError (e : exception).

Definition encodings : list string := ["utf-8"; "gbk"; "gb2312"; "utf-16"; "ascii"].

Section ImportFile.

(** [str.lower], the files, the texts of the paragraphs of a Word document
    and the texts of the pages of a PDF document. *)
Variable lower : pystr -> pystr.
Variable read : Path -> string -> read_result.
Variable paragraph_texts : Path -> outcome exception (list pystr).
Variable page_texts : Path -> outcome exception (list pystr).

(** The loop over the encodings; [text] is the empty string when it starts. *)
Fixpoint try_encodings (file_path : Path) (encodings : list string) (text : pystr)
  : outcome exception pystr :=
  match encodings with
  | [] => Returns text
  | encoding :: rest =>
      match read file_path encoding with
      | Decoded text => Returns text                          (* [break] *)
      | UnicodeDecodeError => try_encodings file_path rest text   (* [continue] *)
      | ReadError e => Raises e
      end
  end.

(** [if s.strip()] *)
Definition nonblank (s : pystr) : bool :=
  match strip s with
  | [] => false
  | _ :: _ => true
  end.

(** The body of the [try] statement. *)
Definition import_body (file_path : Path) : outcome exception pystr :=
  let ext := lower (suffix file_path) in
  if str_eqb ext (str ".txt") then
    text ← try_encodings file_path encodings [];
    match text with
    | [] =>
        Raises (mkException ValueError
                  (str "无法解码文件 " ++ path_str file_path ++ str "，请检查文件编码"))
    | _ :: _ => Returns text
    end
  else if str_eqb ext (str ".docx") then
    paragraphs ← paragraph_texts file_path;
    Returns (join [10%N] (filter (fun t => nonblank t = true) paragraphs))
  else if str_eqb ext (str ".pdf") then
    pages ← page_texts file_path;
    Returns (join [10%N] (filter (fun t => nonblank t = true) pages))
  else if str_in ext [str ".doc"; str ".xls"; str ".ppt"] then
    Raises (mkException ValueError
              (str "不支持旧版Office格式 (" ++ ext ++ str ")，请转换为新格式后再试"))
  else
    Raises (mkException ValueError (str "不支持的文件格式: " ++ ext)).

(** [import_file]: every exception is raised again as an [Exception]. *)
Definition import_file (file_path : Path) : outcome exception pystr :=
  match import_body file_path with
  | Returns text => Returns text
  | Raises e =>
      Raises (mkException OtherException (str "导入文件失败: " ++ exc_str e))
  end.

End ImportFile.

(** What a Word document holds. *)
Inductive document_item (image : Type) : Type :=
| Picture (temp_path : pystr) (img : image)
| PageBreak.
Arguments Picture {image} _ _.
Arguments PageBreak {image}.

(** What [export_images] does to the files. *)
Inductive effect (image : Type) : Type :=
| SavePdf (path : pystr) (resolution : spec_float) (first : image)
          (append_images : list image)
| SaveImage (path : pystr) (img : image) (img_format : pystr)
| SaveDocument (path : pystr) (doc : list (document_item image))
| Remove (path : pystr).
Arguments SavePdf {image} _ _ _ _.
Arguments SaveImage {image} _ _ _.
Arguments SaveDocument {image} _ _.
Arguments Remove {image} _.

Section ExportImages.
Context {image : Type}.

(** [str.lower]; the exception a save or a removal raises, if it raises; the
    exception [doc.add_picture] raises on a file, if it raises. *)
Variable lower : pystr -> pystr.
Variable fails : effect image -> option exception.
Variable add_picture_error : pystr -> option exception.

(** [f"{base_path}_第{i+1}页.{ext}"] *)
Definition page_path (base_path ext : pystr) (i : Z) : pystr :=
  base_path ++ str "_第" ++ MainWindow.str_of_int (i + 1) ++ str "页." ++ ext.

(** [f"{base_path}_temp_{i}.png"] *)
Definition temp_path (base_path : pystr) (i : Z) : pystr :=
  base_path ++ str "_temp_" ++ MainWindow.str_of_int i ++ str ".png".

(** The loop of the image formats, from index [i] on: the result and the
    effects that took place, in order. *)
Fixpoint save_pages (base_path ext img_format : pystr) (i : Z) (images : list image)
    (results : list pystr) (done : list (effect image))
  : outcome exception (list pystr) * list (effect image) :=
  match images with
  | [] => (Returns results, done)
  | img :: rest =>
      let save := SaveImage (page_path base_path ext i) img img_format in
      match fails save with
      | Some e => (Raises e, done)
      | None =>
          save_pages base_path ext img_format (i + 1) rest
            (results ++ [page_path base_path ext i]) (done ++ [save])
      end
  end.

(** The loop of the Word format, from index [i] on; [n] is [len(images)]. *)
Fixpoint add_pictures (base_path : pystr) (n i : Z) (images : list image)
    (doc : list (document_item image)) (done : list (effect image))
  : outcome exception (list (document_item image)) * list (effect image) :=
  match images with
  | [] => (Returns doc, done)
  | img :: rest =>
      let save := SaveImage (temp_path base_path i) img (str "PNG") in
      match fails save with
      | Some e => (Raises e, done)
      | None =>
          let done := done ++ [save] in
          match add_picture_error (temp_path base_path i) with
          | Some e => (Raises e, done)
          | None =>
              let doc := doc ++ [Picture (temp_path base_path i) img] in
              let doc := if i <? n - 1 then doc ++ [PageBreak] else doc in
              let done :=
                match fails (Remove (temp_path base_path i)) with
                | Some _ => done                      (* [except: pass] *)
                | None => done ++ [Remove (temp_path base_path i)]
                end in
              add_pictures base_path n (i + 1) rest doc done
          end
      end
  end.

(** The pictures of the images from index [i] on, with a page break between
    two of them. *)
Fixpoint document_of (base_path : pystr) (i : Z) (images : list image)
  : list (document_item image) :=
  match images with
  | [] => []
  | img :: rest =>
      Picture (temp_path base_path i) img ::
      match rest with
      | [] => []
      | _ :: _ => PageBreak :: document_of base_path (i + 1) rest
      end
  end.

(** The saves of the pages from index [i] on, and what is done to the
    temporary files of the Word format: each is saved, and removed unless
    the removal fails. *)
Fixpoint page_saves (base_path ext img_format : pystr) (i : Z) (images : list image)
  : list (effect image) :=
  match images with
  | [] => []
  | img :: rest =>
      SaveImage (page_path base_path ext i) img img_format ::
      page_saves base_path ext img_format (i + 1) rest
  end.

Fixpoint temp_effects (base_path : pystr) (i : Z) (images : list image)
  : list (effect image) :=
  match images with
  | [] => []
  | img :: rest =>
      SaveImage (temp_path base_path i) img (str "PNG") ::
      match fails (Remove (temp_path base_path i)) with
      | Some _ => []
      | None => [Remove (temp_path base_path i)]
      end ++ temp_effects base_path (i + 1) rest
  end.

(** The body of the [try] statement. *)
Definition export_body (images : list image) (base_path format : pystr) (dpi : Z)
  : outcome exception (list pystr) * list (effect image) :=
  if str_eqb format (str "pdf") then
    let pdf_path := base_path ++ str ".pdf" in
    match images with
    | first :: append_images =>
        match Float.of_int dpi with
        | Raises e => (Raises e, [])
        | Returns resolution =>
            let save := SavePdf pdf_path resolution first append_images in
            match fails save with
            | Some e => (Raises e, [])
            | None => (Returns [pdf_path], [save])
            end
        end
    | [] => (Returns [], [])
    end
  else if str_in (lower format) [str "png"; str "jpg"; str "jpeg"] then
    let ext :=
      if str_in (lower format) [str "jpg"; str "jpeg"] then str "jpg" else str "png" in
    let img_format := if str_eqb ext (str "jpg") then str "JPEG" else str "PNG" in
    save_pages base_path ext img_format 0 images [] []
  else if str_eqb (lower format) (str "docx") then
    let docx_path := base_path ++ str ".docx" in
    match add_pictures base_path (len images) 0 images [] [] with
    | (Raises e, done) => (Raises e, done)
    | (Returns doc, done) =>
        let save := SaveDocument docx_path doc in
        match fails save with
        | Some e => (Raises e, done)
        | None => (Returns [docx_path], done ++ [save])
        end
    end
  else
    (Raises (mkException ValueError (str "不支持的导出格式: " ++ format)), []).

(** [export_images]: every exception is raised again as an [Exception]. *)
Definition export_images (images : list image) (base_path format : pystr) (dpi : Z)
  : outcome exception (list pystr) * list (effect image) :=
  match export_body images base_path format dpi with
  | (Returns results, done) => (Returns results, done)
  | (Raises e, done) =>
      (Raises (mkException OtherException (str "导出图片失败: " ++ exc_str e)), done)
  end.

End ExportImages.

End FileManager.

(** ** MainWindow: batch import and the sections of a batch export *)

Module Batch.

(** ["\n\n" + "=" * 30 + "\n\n"] *)
Definition separator : pystr :=
  [10; 10]%N ++ repeat 61%N 30 ++ [10; 10]%N.

(** [if combined_text: combined_text += separator] and then
    [combined_text += text] *)
Definition add_text (combined_text text : pystr) : pystr :=
  match combined_text with
  | [] => combined_text
  | _ :: _ => combined_text ++ separator
  end ++ text.

(** A list of texts without the empty texts it starts with. *)
Fixpoint drop_empty (texts : list pystr) : list pystr :=
  match texts with
  | [] :: rest => drop_empty rest
  | _ => texts
  end.

Section BatchImport.

(** [FileManager.import_file] on the files chosen, and what
    [progress.wasCanceled()] returns after file [i]. *)
Variable import_file : FileManager.Path -> outcome exception pystr.
Variable wasCanceled : nat -> bool.

(** The local variables of [batch_import] and the warnings shown. *)
Record locals : Type := mkLocals {
  combined_text : pystr;
  imported_count : Z;
  warnings : list pystr
}.

(** The loop over the files, from file [i] on. *)
Fixpoint import_loop (i : nat) (file_names : list FileManager.Path) (st : locals)
  : locals :=
  match file_names with
  | [] => st
  | file_name :: rest =>
      match import_file file_name with
      | Returns text =>
          let st :=
            {| combined_text := add_text (combined_text st) text;
               imported_count := imported_count st + 1;
               warnings := warnings st |} in
          if wasCanceled i then st else import_loop (S i) rest st
      | Raises e =>
          import_loop (S i) rest
            {| combined_text := combined_text st;
               imported_count := imported_count st;
               warnings :=
                 warnings st ++
                 [str "导入文件 '" ++ FileManager.name file_name ++ str "' 时出错: " ++
                  exc_str e] |}
      end
  end.

Definition batch_import (file_names : list FileManager.Path) : locals :=
  import_loop 0 file_names
    {| combined_text := []; imported_count := 0; warnings := [] |}.

(** The texts of the files that are imported: those read before the dialog
    is found cancelled. *)
Fixpoint imported_texts (i : nat) (file_names : list FileManager.Path) : list pystr :=
  match file_names with
  | [] => []
  | file_name :: rest =>
      match import_file file_name with
      | Returns text =>
          if wasCanceled i then [text] else text :: imported_texts (S i) rest
      | Raises _ => imported_texts (S i) rest
      end
  end.

End BatchImport.

(** [for i in range(start, stop, step)] for a positive [step]: the values of
    [i]; [fuel] bounds the number of iterations. *)
Fixpoint range (fuel : nat) (start stop step : Z) : list Z :=
  match fuel with
  | O => []
  | S fuel => if start <? stop then start :: range fuel (start + step) stop step else []
  end.

(** [batch_export] with "split the text" checked: the number of sections it
    announces, [(len(text) + chars_per_section - 1) // chars_per_section],
    and the sections it makes. *)
Definition sections (text : pystr) (chars_per_section : Z) : Z :=
  (len text + chars_per_section - 1) / chars_per_section.

Definition text_sections (text : pystr) (chars_per_section : Z) : list pystr :=
  map (fun i => slice text i (i + chars_per_section))
    (range (length text) 0 (len text) chars_per_section).

End Batch.

(** ** Signs of floats, for the statements about [fit_to_window] *)

Module FloatSign.

(** A float that is a zero or a finite number. *)
Definition finite (x : spec_float) : Prop :=
  match x with
  | S754_zero _ | S754_finite _ _ _ => True
  | _ => False
  end.

(** A float that is a zero, a negative number or the negative infinity. *)
Definition nonpositive (x : spec_float) : Prop :=
  match x with
  | S754_zero _ | S754_finite true _ _ | S754_infinity true => True
  | _ => False
  end.

End FloatSign.

(** ** MainWindow.export_image: the settings it adjusts and its result handler *)

Module ExportImage.

Import MainWindow.

(** The check of the font size and the line spacing that [export_image]
    and [batch_export] make on the settings read: the settings and the
    widgets after it, and the warning shown. *)
Definition adjust_settings (s : settings) (ui : widgets)
  : outcome exception (settings * widgets * list pystr) :=
  let font_size := font_size s in
  line_spacing ← getitem (margins s) "行间距";
  if line_spacing <=? font_size then
    let old_line_spacing := line_spacing in
    line_spacing ← one_and_a_half_times font_size;
    let s' :=
      {| font := font s; font_size := font_size;
         margins := <["行间距" := line_spacing]> (margins s);
         distortions := distortions s |} in
    let ui' :=
      match margin_inputs ui !! "行间距" with
      | Some sb =>
          {| margin_inputs :=
               <["行间距" := setValue line_spacing sb]> (margin_inputs ui);
             status_messages := status_messages ui |}
      | None => ui
      end in
    Returns (s', ui',
             [str "行间距值(" ++ str_of_int old_line_spacing ++ str ")小于字体大小(" ++
              str_of_int font_size ++ str ")，已自动调整为" ++
              str_of_int line_spacing ++ str "。"])
  else Returns (s, ui, []).

(** A message box. *)
Inductive message_box : Type :=
| Critical (text : pystr)
| Information (text : pystr).

Section HandleResult.
Context {image : Type}.
Variable lower : pystr -> pystr.
Variable fails : FileManager.effect image -> option exception.
Variable add_picture_error : pystr -> option exception.

(** [handle_result(images)]: the box shown and what is done to the files;
    [base_path] is [os.path.splitext(file_name)[0]]. *)
Definition handle_result (images : list image) (base_path format : pystr)
  : message_box * list (FileManager.effect image) :=
  match images with
  | [] => (Critical (str "未能生成任何图像，请检查参数设置"), [])
  | _ :: _ =>
      match FileManager.export_images lower fails add_picture_error
              images base_path format 300 with
      | (Returns exported_files, done) =>
          (Information
             (str "已导出 " ++ str_of_int (len exported_files) ++ str " 个文件:" ++
              [10%N] ++ join [10%N] exported_files), done)
      | (Raises e, done) => (Critical (exc_str e), done)
      end
  end.

End HandleResult.

End ExportImage.

(** ** SettingsManager: the presets file *)

Module SettingsManager.

Section Presets.

(** The values of JSON, and the value that a settings dict is written and
    read back as. *)
Variable json : Type.
Variable of_settings : MainWindow.settings -> json.

(** The file [presets.json]. *)
Inductive file : Type :=
| Missing                                (* there is no such file *)
| Unreadable                             (* opening it or parsing it raises *)
| Object (presets : gmap pystr json)     (* it holds a JSON object *)
| OtherValue.                            (* it holds another JSON value *)

(** What [load_presets] returns: a dict, or a value that is no dict. *)
Inductive loaded : Type :=
| Dict (presets : gmap pystr json)
| NotDict.

Definition load_presets (f : file) : loaded :=
  match f with
  | Missing => Dict ∅
  | Unreadable => Dict ∅                 (* [except Exception] and [return {}] *)
  | Object presets => Dict presets
  | OtherValue => NotDict
  end.

(** [save_preset(name, settings)]: what it returns and the file after it.
    [item_assignment] is the [TypeError] of [presets[name] = settings] on a
    value that is no dict; [write] tells whether writing succeeds, and what
    is left of the file when it fails. *)
Definition save_preset (item_assignment : exception) (write : option file)
    (name : pystr) (s : MainWindow.settings) (f : file)
  : outcome exception bool * file :=
  match load_presets f with
  | NotDict => (Raises item_assignment, f)
  | Dict presets =>
      let presets := <[name := of_settings s]> presets in
      match write with
      | None => (Returns true, Object presets)
      | Some remains => (Returns false, remains)
      end
  end.

End Presets.

Arguments Missing {json}.
Arguments Unreadable {json}.
Arguments Object {json} _.
Arguments OtherValue {json}.
Arguments Dict {json} _.
Arguments NotDict {json}.

End SettingsManager.

(** ** MainWindow.batch_export: the loop over the sections and the formats *)

Module BatchExport.

Section Loop.
Context {image Template : Type}.

(** [list(handwrite(section_text, template))]; [FileManager.export_images],
    its result; [progress.wasCanceled()] at its call number [j]; the base
    path made for task number [j] of section [section_idx] (it holds the
    time of the clock). *)
Variable handwrite : pystr -> Template -> outcome exception (list image).
Variable export_images : list image -> pystr -> pystr -> Z -> outcome exception (list pystr).
Variable wasCanceled : nat -> bool.
Variable base_path : nat -> nat -> pystr.
Variable upper : pystr -> pystr.

(** The local variables, the number of calls of [wasCanceled] and the
    calls of the renderer made, with the index of the section and the
    format. *)
Record locals : Type := mkLocals {
  all_files : list pystr;
  errors : list pystr;
  current_task : nat;
  checks : nat;
  renders : list (nat * pystr)
}.

(** [f"段落 {section_idx + 1} 的 {fmt.upper()} 格式导出失败: {reason}"] *)
Definition error_line (section_idx : nat) (fmt reason : pystr) : pystr :=
  str "段落 " ++ MainWindow.str_of_int (Z.of_nat section_idx + 1) ++ str " 的 " ++
  upper fmt ++ str " 格式导出失败: " ++ reason.

(** The body of the [try] statement with its [finally] clause, for one
    format of one section. *)
Definition export_one (template : Template) (dpi : Z) (section_idx : nat)
    (section_text fmt : pystr) (st : locals) : locals :=
  let rendered := renders st ++ [(section_idx, fmt)] in
  match handwrite section_text template with
  | Raises e =>
      mkLocals (all_files st) (errors st ++ [error_line section_idx fmt (exc_str e)])
        (S (current_task st)) (checks st) rendered
  | Returns [] =>
      mkLocals (all_files st)
        (errors st ++ [error_line section_idx fmt (str "未能生成图像")])
        (S (current_task st)) (checks st) rendered
  | Returns (img :: images) =>
      match export_images (img :: images)
              (base_path section_idx (current_task st)) fmt dpi with
      | Raises e =>
          mkLocals (all_files st)
            (errors st ++ [error_line section_idx fmt (exc_str e)])
            (S (current_task st)) (checks st) rendered
      | Returns exported =>
          mkLocals (all_files st ++ exported) (errors st)
            (S (current_task st)) (checks st) rendered
      end
  end.

(** The loop over the formats for one section: it is left when the dialog
    is found cancelled. *)
Fixpoint for_formats (template : Template) (dpi : Z) (section_idx : nat)
    (section_text : pystr) (formats : list pystr) (st : locals) : locals :=
  match formats with
  | [] => st
  | fmt :: rest =>
      let canceled := wasCanceled (checks st) in
      let st := mkLocals (all_files st) (errors st) (current_task st)
                  (S (checks st)) (renders st) in
      if canceled then st                                      (* [break] *)
      else for_formats template dpi section_idx section_text rest
             (export_one template dpi section_idx section_text fmt st)
  end.

(** The loop over the sections, from the section of index [section_idx] on. *)
Fixpoint for_sections (template : Template) (dpi : Z) (section_idx : nat)
    (text_sections : list pystr) (formats : list pystr) (st : locals) : locals :=
  match text_sections with
  | [] => st
  | section_text :: rest =>
      for_sections template dpi (S section_idx) rest formats
        (for_formats template dpi section_idx section_text formats st)
  end.

Definition init : locals := mkLocals [] [] 0 0 [].

(** The pairs of a section index and a format, section by section. *)
Fixpoint tasks (section_idx : nat) (text_sections : list pystr) (formats : list pystr)
  : list (nat * pystr) :=
  match text_sections with
  | [] => []
  | _ :: rest =>
      map (fun fmt => (section_idx, fmt)) formats ++ tasks (S section_idx) rest formats
  end.

End Loop.

End BatchExport.

(** ** MainWindow.get_current_settings and MainWindow.update_preview *)

Module CurrentSettings.

Import MainWindow.

(** The widgets [get_current_settings] reads: the font combo box, the spin
    box of the font size (the entry ["字体大小"] of [distortion_inputs], the
    only [QSpinBox] of that dict), the spin boxes of the margins, and the
    values of the other entries of [distortion_inputs], which are
    [QDoubleSpinBox]es. *)
Record inputs : Type := mkInputs {
  font_combo_text : pystr;
  font_size_input : spinbox;
  margin_inputs : gmap string spinbox;
  distortion_inputs : gmap string spec_float
}.

(** [self.margin_inputs[name].value()] *)
Definition margin (i : inputs) (name : string) : outcome exception Z :=
  sb ← getitem (margin_inputs i) name; Returns (value sb).

Definition get_current_settings (i : inputs) : outcome exception settings :=
  let font_size := value (font_size_input i) in
  top ← margin i "上边距";
  bottom ← margin i "下边距";
  left_margin ← margin i "左边距";
  right_margin ← margin i "右边距";
  word_spacing ← margin i "字间距";
  line_spacing ← margin i "行间距";
  word_sigma ← getitem (distortion_inputs i) "字间距扰动";
  line_sigma ← getitem (distortion_inputs i) "行间距扰动";
  size_sigma ← getitem (distortion_inputs i) "字体大小随机扰动";
  x_sigma ← getitem (distortion_inputs i) "笔画横向偏移随机扰动";
  y_sigma ← getitem (distortion_inputs i) "笔画纵向偏移随机扰动";
  theta_sigma ← getitem (distortion_inputs i) "笔画旋转偏移随机扰动";
  Returns
    {| font := font_combo_text i;
       font_size := font_size;
       margins :=
         <["上边距" := top]> (<["下边距" := bottom]> (<["左边距" := left_margin]>
         (<["右边距" := right_margin]> (<["字间距" := word_spacing]>
         (<["行间距" := line_spacing]> ∅)))));
       distortions :=
         <["字间距扰动" := word_sigma]> (<["行间距扰动" := line_sigma]>
         (<["字体大小扰动" := size_sigma]> (<["横向偏移扰动" := x_sigma]>
         (<["纵向偏移扰动" := y_sigma]> (<["旋转角度扰动" := theta_sigma]> ∅))))) |}.

End CurrentSettings.

Module UpdatePreview.

Import MainWindow.

(** What [MainWindow.update_preview] reads and writes: the radio button of
    the preview, the index of the stacked widget, the text of the editor,
    the font combo box and the boxes of [distortion_inputs], the margin boxes
    and the status bar, the warning boxes shown, the workers of the preview
    widget, and the text and the template each worker was made with. *)
Record state (image : Type) : Type := mkState {
  radio_preview : bool;
  stack_index : Z;
  text_edit : pystr;
  font_combo_text : pystr;
  font_size_input : spinbox;
  distortion_inputs : gmap string spec_float;
  ui : widgets;
  warning_boxes : list pystr;
  preview : Pipeline.t;
  worker_args : list (pystr * Template image)
}.
Arguments mkState {image} _ _ _ _ _ _ _ _ _ _.
Arguments radio_preview {image} _.
Arguments stack_index {image} _.
Arguments text_edit {image} _.
Arguments font_combo_text {image} _.
Arguments font_size_input {image} _.
Arguments distortion_inputs {image} _.
Arguments ui {image} _.
Arguments warning_boxes {image} _.
Arguments preview {image} _.
Arguments worker_args {image} _.

Section UpdatePreview.
Context {image : Type}.
Variable current_background : outcome exception image.
Variable font_file : pystr -> outcome exception pystr.
Variable truetype_error : pystr -> Z -> option exception.

(** The widgets [get_current_settings] reads. *)
Definition inputs_of (st : state image) : CurrentSettings.inputs :=
  CurrentSettings.mkInputs (font_combo_text st) (font_size_input st)
    (margin_inputs (ui st)) (distortion_inputs st).

(** The window when the [except Exception as e] clause opens its warning
    box, the stack being at the preview. *)
Definition show_error (e : exception) (ui' : widgets) (st : state image)
  : state image :=
  mkState (radio_preview st) 1 (text_edit st) (font_combo_text st)
    (font_size_input st) (distortion_inputs st)
    {| margin_inputs := margin_inputs ui';
       status_messages := status_messages ui' ++ [str "预览错误: " ++ exc_str e] |}
    (warning_boxes st ++ [exc_str e])
    (preview st) (worker_args st).

(** [update_preview]; [stopped_in_time] tells whether a worker that is
    cancelled ends within the wait.  The warning box of the [except] clause
    is modal: it runs an event loop until it is closed, and the slots this
    loop runs meanwhile take the window from the state it is given to the
    state [box] returns; nothing follows the box. *)
Definition update_preview (box : state image -> state image)
    (stopped_in_time : bool) (st : state image) : state image :=
  if negb (radio_preview st)
  then mkState (radio_preview st) 0 (text_edit st) (font_combo_text st)
         (font_size_input st) (distortion_inputs st) (ui st) (warning_boxes st)
         (preview st) (worker_args st)
  else
    let text := Window.preview_text (text_edit st) in
    match CurrentSettings.get_current_settings (inputs_of st) with
    | Raises e => box (show_error e (ui st) st)
    | Returns settings =>
        match create_template current_background font_file truetype_error
                settings (ui st) with
        | (Returns template, ui') =>
            mkState (radio_preview st) 1 (text_edit st) (font_combo_text st)
              (font_size_input st) (distortion_inputs st)
              {| margin_inputs := margin_inputs ui';
                 status_messages := status_messages ui' ++ [str "预览已更新"] |}
              (warning_boxes st)
              (Pipeline.update_preview stopped_in_time (preview st))
              (worker_args st ++ [(text, template)])
        | (Raises e, ui') => box (show_error e ui' st)
        end
    end.

End UpdatePreview.

End UpdatePreview.

(** * Part II. Properties *)

(** ** Rounding *)

Section Rounding.
Import Float FloatSpec.

Lemma bpow_pos e : (0 < bpow e)%Q.
Proof. apply Qpower_0_lt. reflexivity. Qed.

Lemma bpow_add a b : (bpow (a + b) == bpow a * bpow b)%Q.
Proof. apply Qpower_plus. discriminate. Qed.

Lemma bpow_le a b : a <= b -> (bpow a <= bpow b)%Q.
Proof. intros H. apply Qpower_le_compat_l; [exact H | discriminate]. Qed.

Lemma bpow_inject e : 0 <= e -> (inject_Z (2 ^ e) == bpow e)%Q.
Proof. intros H. apply (Zpower_Qpower 2 e H). Qed.

Lemma bpow_opp e : (bpow e * bpow (- e) == 1)%Q.
Proof. rewrite <- bpow_add. replace (e + - e) with 0 by lia. reflexivity. Qed.

Lemma bpow_split a b c : a = b + c -> (bpow a == bpow b * bpow c)%Q.
Proof. intros ->. apply bpow_add. Qed.

Lemma bpow_m1 : (bpow (-1) == 1 # 2)%Q.
Proof. reflexivity. Qed.

Lemma bpow_52 : (bpow 52 == 4503599627370496)%Q.
Proof. reflexivity. Qed.

Lemma bpow_1 : (bpow 1 == 2)%Q.
Proof. reflexivity. Qed.

Lemma bpow_0 : (bpow 0 == 1)%Q.
Proof. reflexivity. Qed.

Lemma B2Q_one_and_a_half : (B2Q one_and_a_half == 3 # 2)%Q.
Proof. reflexivity. Qed.

#[local] Opaque bpow.

Lemma inject_Z_pos d : 0 < d -> (0 < inject_Z d)%Q.
Proof. intros H. rewrite Zlt_Qlt in H. exact H. Qed.

Lemma inject_Z_nonneg d : 0 <= d -> (0 <= inject_Z d)%Q.
Proof. intros H. rewrite Zle_Qle in H. exact H. Qed.

Lemma inject_Z_succ m : (inject_Z (m + 1) == inject_Z m + 1)%Q.
Proof. rewrite inject_Z_plus. reflexivity. Qed.

Lemma frac_mul n d : 0 < d -> (frac n d * inject_Z d == inject_Z n)%Q.
Proof.
  intros H. unfold frac. field. intros E.
  apply inject_Z_pos in H. rewrite E in H. discriminate H.
Qed.

Lemma frac_pos n d : 0 < n -> 0 < d -> (0 < frac n d)%Q.
Proof.
  intros Hn Hd. pose proof (frac_mul n d Hd) as E.
  apply inject_Z_pos in Hn, Hd. nra.
Qed.

Lemma frac_1 n : (frac n 1 == inject_Z n)%Q.
Proof. unfold frac. change (inject_Z 1) with 1%Q. field. Qed.

(** [shift] divides the fraction by [2^e]. *)
Lemma frac_shift n d e a b :
  0 < d -> shift n d e = (a, b) ->
  0 < b /\ (frac a b == frac n d * bpow (- e))%Q.
Proof.
  unfold shift. intros Hd H. pose proof (frac_mul n d Hd) as En.
  pose proof (inject_Z_pos _ Hd) as Hd'. pose proof (bpow_opp e) as Eo.
  pose proof (bpow_pos e) as Pe.
  destruct (Z.leb_spec 0 e) as [He|He]; injection H as <- <-.
  - assert (Hb : 0 < d * 2 ^ e)
      by (apply Z.mul_pos_pos; [lia | apply Z.pow_pos_nonneg; lia]).
    split; [exact Hb|]. pose proof (frac_mul n (d * 2 ^ e) Hb) as Ea.
    rewrite inject_Z_mult, (bpow_inject e He) in Ea.
    apply (Qmult_inj_r _ _ (inject_Z d * bpow e)); [intros E0; nra|].
    rewrite Ea.
    transitivity ((frac n d * inject_Z d) * (bpow e * bpow (- e)))%Q; [|ring].
    rewrite En, Eo. ring.
  - split; [exact Hd|]. pose proof (frac_mul (n * 2 ^ (- e)) d Hd) as Ea.
    rewrite inject_Z_mult, (bpow_inject (- e)) in Ea by lia.
    apply (Qmult_inj_r _ _ (inject_Z d)); [intros E0; nra|].
    rewrite Ea.
    transitivity ((frac n d * inject_Z d) * bpow (- e))%Q; [|ring].
    rewrite En. ring.
Qed.

Lemma frac_lt_1 a b : 0 < b -> (a < b <-> (frac a b < 1)%Q).
Proof.
  intros Hb. pose proof (inject_Z_pos _ Hb) as Hb'. pose proof (frac_mul a b Hb) as E.
  rewrite Zlt_Qlt. split; intros H; nra.
Qed.

Lemma log2_bpow n :
  0 < n -> (bpow (Z.log2 n) <= inject_Z n < bpow (Z.log2 n + 1))%Q.
Proof.
  intros Hn. destruct (Z.log2_spec n Hn) as [H1 H2].
  pose proof (Z.log2_nonneg n) as H0.
  rewrite <- !bpow_inject by lia. rewrite <- Zle_Qle, <- Zlt_Qlt. split; assumption.
Qed.

(** [mag] is the binary order of magnitude. *)
Lemma mag_spec n d :
  0 < n -> 0 < d -> (bpow (mag n d - 1) <= frac n d < bpow (mag n d))%Q.
Proof.
  intros Hn Hd. unfold mag. set (k := Z.log2 n - Z.log2 d).
  destruct (shift n d k) as [a b] eqn:Es.
  destruct (frac_shift n d k a b Hd Es) as [Hb E].
  pose proof (frac_mul n d Hd) as Ex. pose proof (inject_Z_pos _ Hd) as Hd'.
  pose proof (frac_pos n d Hn Hd) as Hx.
  destruct (log2_bpow n Hn) as [N1 N2]. destruct (log2_bpow d Hd) as [D1 D2].
  pose proof (bpow_pos (Z.log2 d)) as P1.
  assert (K1 : (bpow (k - 1) < frac n d)%Q).
  { pose proof (bpow_split (Z.log2 n) (k - 1) (Z.log2 d + 1) ltac:(lia)) as Ek.
    pose proof (bpow_pos (k - 1)) as P2. nra. }
  assert (K2 : (frac n d < bpow (k + 1))%Q).
  { pose proof (bpow_split (Z.log2 n + 1) (k + 1) (Z.log2 d) ltac:(lia)) as Ek.
    pose proof (bpow_pos (k + 1)) as P2. nra. }
  pose proof (bpow_opp k) as Eo. pose proof (bpow_pos k) as Pk.
  pose proof (bpow_pos (- k)) as Pk'.
  destruct (Z.ltb_spec a b) as [L|L].
  - apply (frac_lt_1 a b Hb) in L. rewrite E in L.
    split; [apply Qlt_le_weak, K1|]. nra.
  - replace (k + 1 - 1) with k by lia. split; [|exact K2].
    assert (L' : ~ (frac a b < 1)%Q) by (rewrite <- frac_lt_1 by exact Hb; lia).
    rewrite E in L'. apply Qnot_lt_le in L'. nra.
Qed.

Lemma nearest_even_Z m : nearest_even (inject_Z m) m.
Proof. split; [lra|]. intros [E|E]; lra. Qed.

(** Rounding to the nearest integer is monotone. *)
Lemma nearest_even_le y1 y2 m1 m2 :
  nearest_even y1 m1 -> nearest_even y2 m2 -> (y1 <= y2)%Q -> m1 <= m2.
Proof.
  intros [[L1 U1] E1] [[L2 U2] E2] Hy.
  destruct (Z_le_gt_dec m1 m2) as [H|H]; [exact H|exfalso].
  assert (H' : m2 + 1 <= m1) by lia. rewrite Zle_Qle, inject_Z_succ in H'.
  assert (A1 : (y1 == inject_Z m1 - (1#2))%Q) by lra.
  assert (A2 : (y2 == inject_Z m2 + (1#2))%Q) by lra.
  assert (A3 : (inject_Z m1 == inject_Z (m2 + 1))%Q) by (rewrite inject_Z_succ; lra).
  apply -> inject_Z_injective in A3.
  specialize (E1 (or_introl A1)). specialize (E2 (or_intror A2)).
  subst m1. rewrite Z.even_add in E1. rewrite E2 in E1. discriminate E1.
Qed.

Lemma rne_spec a b : 0 < b -> nearest_even (frac a b) (rne a b).
Proof.
  intros Hb. pose proof (frac_mul a b Hb) as E. pose proof (inject_Z_pos _ Hb) as Hb'.
  pose proof (Z.div_mod a b ltac:(lia)) as Ediv.
  pose proof (Z.mod_pos_bound a b Hb) as Hr.
  set (q := a / b) in *. set (r := a mod b) in *.
  assert (Ea : (inject_Z a == inject_Z b * inject_Z q + inject_Z r)%Q).
  { rewrite <- inject_Z_mult, <- inject_Z_plus, Ediv. reflexivity. }
  assert (R0 : (0 <= inject_Z r)%Q) by (apply inject_Z_nonneg; lia).
  assert (R1 : (inject_Z r < inject_Z b)%Q) by (rewrite <- Zlt_Qlt; lia).
  unfold rne, nearest_even. fold q r.
  destruct (Z.compare_spec (2 * r) b) as [C|C|C].
  - assert (C' : (2 * inject_Z r == inject_Z b)%Q).
    { rewrite <- C, inject_Z_mult. reflexivity. }
    assert (Ey : (frac a b == inject_Z q + (1#2))%Q) by nra.
    destruct (Z.even q) eqn:Eq.
    + split; [lra|]. intros _. exact Eq.
    + rewrite inject_Z_succ. split; [lra|]. intros _.
      rewrite Z.even_add, Eq. reflexivity.
  - assert (C' : (2 * inject_Z r < inject_Z b)%Q).
    { rewrite Zlt_Qlt, inject_Z_mult in C. exact C. }
    split; [split; nra|]. intros [F|F]; exfalso; nra.
  - assert (C' : (inject_Z b < 2 * inject_Z r)%Q).
    { rewrite Zlt_Qlt, inject_Z_mult in C. exact C. }
    rewrite inject_Z_succ. split; [split; nra|]. intros [F|F]; exfalso; nra.
Qed.

Lemma round_fraction_spec n d :
  0 < n -> 0 < d -> rounds_to (frac n d) (round_fraction n d).
Proof.
  intros Hn Hd. unfold round_fraction.
  destruct (shift n d (fexp (mag n d))) as [a b] eqn:Es.
  destruct (frac_shift _ _ _ _ _ Hd Es) as [Hb E].
  exists (mag n d). split; [apply mag_spec; assumption|]. split; [reflexivity|].
  cbn [fst snd]. destruct (rne_spec a b Hb) as [[A1 A2] A3].
  split; [split|]; rewrite <- E; assumption.
Qed.

Lemma mag_le x1 x2 k1 k2 :
  (bpow (k1 - 1) <= x1 < bpow k1)%Q -> (bpow (k2 - 1) <= x2 < bpow k2)%Q ->
  (x1 <= x2)%Q -> k1 <= k2.
Proof.
  intros [L1 U1] [L2 U2] H. destruct (Z_le_gt_dec k1 k2) as [K|K]; [exact K|exfalso].
  assert (B : (bpow k2 <= bpow (k1 - 1))%Q) by (apply bpow_le; lia). lra.
Qed.

(** Rounding to the nearest float is monotone. *)
Lemma rounds_to_le x1 x2 r1 r2 :
  rounds_to x1 r1 -> rounds_to x2 r2 -> (x1 <= x2)%Q -> (value r1 <= value r2)%Q.
Proof.
  destruct r1 as [m1 e1], r2 as [m2 e2]. unfold rounds_to, value. cbn [fst snd].
  intros (k1 & K1 & E1 & N1) (k2 & K2 & E2 & N2) H.
  pose proof (mag_le _ _ _ _ K1 K2 H) as Hk.
  pose proof (bpow_pos e1) as P1. pose proof (bpow_pos e2) as P2.
  pose proof (bpow_pos (- e1)) as P1'. pose proof (bpow_pos (- e2)) as P2'.
  destruct (Z.eq_dec e1 e2) as [Ee|Ee].
  - subst e2. rewrite <- Ee in *.
    assert (M : m1 <= m2) by (apply (nearest_even_le _ _ _ _ N1 N2); nra).
    rewrite Zle_Qle in M. nra.
  - assert (He2 : e2 = k2 - prec) by (unfold fexp in *; lia).
    assert (Hk' : k1 <= k2 - 1) by (unfold fexp in *; lia).
    pose proof (bpow_split (k2 - 1) (prec - 1) e2 ltac:(lia)) as Eb2.
    pose proof (bpow_pos (prec - 1)) as P3. pose proof (bpow_opp e2) as O2.
    assert (V2 : (bpow (k2 - 1) <= inject_Z m2 * bpow e2)%Q).
    { assert (M : 2 ^ (prec - 1) <= m2).
      { apply (nearest_even_le _ _ _ _ (nearest_even_Z _) N2).
        rewrite bpow_inject by (unfold prec; lia). nra. }
      rewrite Zle_Qle, bpow_inject in M by (unfold prec; lia). nra. }
    assert (V1 : (inject_Z m1 * bpow e1 <= bpow k1)%Q).
    { pose proof (bpow_opp e1) as O1. destruct (Z_le_gt_dec e1 k1) as [J|J].
      - pose proof (bpow_split k1 (k1 - e1) e1 ltac:(lia)) as Eb1.
        pose proof (bpow_pos (k1 - e1)) as P4.
        assert (M : m1 <= 2 ^ (k1 - e1)).
        { apply (nearest_even_le _ _ _ _ N1 (nearest_even_Z _)).
          rewrite bpow_inject by lia. nra. }
        rewrite Zle_Qle, bpow_inject in M by lia. nra.
      - assert (M : m1 <= 0).
        { apply (nearest_even_le (x1 * bpow (- e1)) (1#2) _ _ N1).
          - split; [change (inject_Z 0) with 0%Q; lra|]. intros _. reflexivity.
          - assert (Eb : (bpow (k1 + - e1) <= bpow (-1))%Q) by (apply bpow_le; lia).
            rewrite bpow_add, bpow_m1 in Eb. nra. }
        rewrite Zle_Qle in M. change (inject_Z 0) with 0%Q in M.
        pose proof (bpow_pos k1). nra. }
    assert (B : (bpow k1 <= bpow (k2 - 1))%Q) by (apply bpow_le; lia). lra.
Qed.

(** A number of the normal range is rounded with a relative error of at
    most [2^-53]; this is the lower half of the bound. *)
Lemma rounds_to_lower x r :
  rounds_to x r -> (bpow (emin + prec - 1) <= x)%Q ->
  (x * (1 - (1 # 9007199254740992)) <= value r)%Q.
Proof.
  destruct r as [m e]. unfold rounds_to, value. cbn [fst snd].
  intros (k & [K1 K2] & E & [[N1 N2] _]) Hx.
  assert (Hk : emin + prec <= k).
  { destruct (Z_le_gt_dec (emin + prec) k) as [J|J]; [exact J|exfalso].
    assert (B : (bpow k <= bpow (emin + prec - 1))%Q) by (apply bpow_le; lia). lra. }
  assert (He : e = k - prec) by (unfold fexp in *; lia).
  pose proof (bpow_split (k - 1) 52 e ltac:(unfold prec in *; lia)) as Eb.
  rewrite bpow_52 in Eb.
  pose proof (bpow_opp e) as Oe. pose proof (bpow_pos e) as Pe.
  assert (X : (x * bpow (- e) * bpow e == x)%Q).
  { transitivity (x * (bpow e * bpow (- e)))%Q; [ring | rewrite Oe; ring]. }
  assert (A : (x * bpow (- e) * bpow e <= (inject_Z m + (1#2)) * bpow e)%Q)
    by (apply Qmult_le_compat_r; lra).
  lra.
Qed.

Lemma shift_pos n d e a b : 0 < n -> shift n d e = (a, b) -> 0 < a.
Proof.
  unfold shift. intros Hn H.
  destruct (Z.leb_spec 0 e); injection H as <- <-; [exact Hn|].
  apply Z.mul_pos_pos; [exact Hn | apply Z.pow_pos_nonneg; lia].
Qed.

Lemma rne_nonneg a b : 0 <= a -> 0 < b -> 0 <= rne a b.
Proof.
  intros Ha Hb. unfold rne. pose proof (Z.div_pos a b Ha Hb).
  destruct (2 * (a mod b) ?= b); [destruct (Z.even (a / b))| |]; lia.
Qed.

Lemma round_fraction_nonneg n d : 0 < n -> 0 < d -> 0 <= fst (round_fraction n d).
Proof.
  intros Hn Hd. unfold round_fraction.
  destruct (shift n d (fexp (mag n d))) as [a b] eqn:Es. cbn [fst].
  destruct (frac_shift _ _ _ _ _ Hd Es) as [Hb _].
  pose proof (shift_pos _ _ _ _ _ Hn Es). apply rne_nonneg; lia.
Qed.

(** [to_float] keeps the value, unless it gives an infinity. *)
Lemma to_float_value m e :
  0 <= m -> is_infinite (to_float false (m, e)) = false ->
  nonneg_finite (to_float false (m, e)) /\
  (B2Q (to_float false (m, e)) == value (m, e))%Q.
Proof.
  intros Hm. unfold to_float, value. cbn [fst snd].
  destruct m as [|p|p]; [intros _; split; [exact I|]; cbn; ring | | lia].
  destruct (Z.eqb_spec (Z.pos p) (2 ^ prec)) as [E|E].
  - destruct (e + 1 <=? emax - prec); [intros _|discriminate].
    split; [exact I|]. rewrite E. unfold B2Q, value. cbn [fst snd].
    rewrite (bpow_add e 1), bpow_1. change (2 ^ prec) with 9007199254740992.
    change (Z.pos (Z.to_pos (2 ^ (prec - 1)))) with 4503599627370496.
    assert (K : (inject_Z 9007199254740992 == 2 * inject_Z 4503599627370496)%Q)
      by reflexivity.
    rewrite K. ring.
  - destruct (e <=? emax - prec); [intros _|discriminate].
    split; [exact I|]. reflexivity.
Qed.

Lemma round_zero d : round false 0 d = S754_zero false.
Proof. reflexivity. Qed.

(** A positive fraction, when its rounding is no infinity, is rounded to a
    float whose value is the one of [round_fraction]. *)
Lemma round_value n d :
  0 < n -> 0 < d -> is_infinite (round false n d) = false ->
  nonneg_finite (round false n d) /\
  (B2Q (round false n d) == value (round_fraction n d))%Q.
Proof.
  intros Hn Hd. unfold round. destruct n as [|p|p]; try lia.
  pose proof (round_fraction_nonneg (Z.pos p) d Hn Hd) as Hm.
  destruct (round_fraction (Z.pos p) d) as [m e]. apply to_float_value. exact Hm.
Qed.

Lemma round_nonneg n d :
  0 <= n -> 0 < d -> is_infinite (round false n d) = false ->
  nonneg_finite (round false n d) /\ (0 <= B2Q (round false n d))%Q.
Proof.
  intros Hn Hd Hi. destruct (Z.eq_dec n 0) as [->|Hn0].
  - split; [exact I|]. cbn. lra.
  - destruct (round_value n d ltac:(lia) Hd Hi) as [Hf Hv]. split; [exact Hf|].
    rewrite Hv. pose proof (round_fraction_nonneg n d ltac:(lia) Hd) as Hm.
    unfold value. apply inject_Z_nonneg in Hm.
    pose proof (bpow_pos (snd (round_fraction n d))). nra.
Qed.

(** Rounding is monotone on the fractions that are not negative. *)
Lemma round_le n1 d1 n2 d2 :
  0 <= n1 -> 0 < d1 -> 0 <= n2 -> 0 < d2 ->
  (frac n1 d1 <= frac n2 d2)%Q ->
  is_infinite (round false n1 d1) = false ->
  is_infinite (round false n2 d2) = false ->
  (B2Q (round false n1 d1) <= B2Q (round false n2 d2))%Q.
Proof.
  intros Hn1 Hd1 Hn2 Hd2 H I1 I2.
  destruct (Z.eq_dec n1 0) as [->|N1].
  - rewrite round_zero. cbn [B2Q]. apply (round_nonneg n2 d2); assumption.
  - assert (N2 : 0 < n2).
    { destruct (Z.eq_dec n2 0) as [->|N2]; [exfalso|lia].
      pose proof (frac_pos n1 d1 ltac:(lia) Hd1). pose proof (frac_mul 0 d2 Hd2) as E.
      change (inject_Z 0) with 0%Q in E. apply inject_Z_pos in Hd2. nra. }
    destruct (round_value n1 d1 ltac:(lia) Hd1 I1) as [_ ->].
    destruct (round_value n2 d2 N2 Hd2 I2) as [_ ->].
    apply (rounds_to_le (frac n1 d1) (frac n2 d2));
      [apply round_fraction_spec; lia | apply round_fraction_spec; lia | exact H].
Qed.

(** The product of two positive floats is the rounding of the product of
    their values. *)
Lemma mul_spec mx ex my ey :
  exists n d, 0 < n /\ 0 < d /\
    mul (S754_finite false mx ex) (S754_finite false my ey) = round false n d /\
    (frac n d == B2Q (S754_finite false mx ex) * B2Q (S754_finite false my ey))%Q.
Proof.
  unfold mul. destruct (shift (Z.pos mx * Z.pos my) 1 (- (ex + ey))) as [n d] eqn:Es.
  destruct (frac_shift _ _ _ _ _ Z.lt_0_1 Es) as [Hd E].
  pose proof (shift_pos _ _ _ _ _ (Pos2Z.is_pos (mx * my)) Es) as Hn.
  exists n, d. split; [exact Hn|]. split; [exact Hd|]. split; [reflexivity|].
  rewrite E, frac_1, Z.opp_involutive, bpow_add, inject_Z_mult.
  unfold B2Q, value. cbn [fst snd]. ring.
Qed.

(** [int(x)] is the floor of a float that is not negative. *)
Lemma to_int_spec x :
  nonneg_finite x -> exists t, to_int x = Returns t /\ floor_of (B2Q x) t.
Proof.
  destruct x as [[|]|[|]| |[|] m e]; cbn [nonneg_finite]; try contradiction; intros _.
  - exists 0. split; [reflexivity|]. unfold floor_of. cbn [B2Q].
    change (inject_Z 0) with 0%Q. lra.
  - unfold to_int, floor_of, B2Q, value. cbn [fst snd].
    destruct (Z.leb_spec 0 e) as [He|He]; eexists; (split; [reflexivity|]).
    + rewrite inject_Z_mult, bpow_inject by exact He. lra.
    + assert (Hp : 0 < 2 ^ (- e)) by (apply Z.pow_pos_nonneg; lia).
      pose proof (Z.div_mod (Z.pos m) (2 ^ (- e)) ltac:(lia)) as Ediv.
      pose proof (Z.mod_pos_bound (Z.pos m) (2 ^ (- e)) Hp) as Hr.
      set (q := Z.pos m / 2 ^ (- e)) in *. set (r := Z.pos m mod 2 ^ (- e)) in *.
      assert (Em : (inject_Z (Z.pos m) == bpow (- e) * inject_Z q + inject_Z r)%Q).
      { rewrite <- bpow_inject, <- inject_Z_mult, <- inject_Z_plus, <- Ediv by lia.
        reflexivity. }
      assert (R0 : (0 <= inject_Z r)%Q) by (apply inject_Z_nonneg; lia).
      assert (R1 : (inject_Z r < bpow (- e))%Q).
      { rewrite <- bpow_inject by lia. rewrite <- Zlt_Qlt. lia. }
      pose proof (bpow_opp e) as Oe. pose proof (bpow_pos e) as Pe.
      pose proof (bpow_pos (- e)) as Pe'.
      assert (X : (inject_Z (Z.pos m) * bpow e ==
                   inject_Z q + inject_Z r * bpow e)%Q).
      { rewrite Em. transitivity (inject_Z q * (bpow e * bpow (- e)) +
                                  inject_Z r * bpow e)%Q; [ring|]. rewrite Oe. ring. }
      assert (Y : (inject_Z r * bpow e < 1)%Q).
      { rewrite <- Oe. rewrite (Qmult_comm (bpow e)).
        apply Qmult_lt_compat_r; assumption. }
      assert (Z0 : (0 <= inject_Z r * bpow e)%Q) by nra.
      lra.
Qed.

Lemma floor_of_le y1 y2 t1 t2 :
  floor_of y1 t1 -> floor_of y2 t2 -> (y1 <= y2)%Q -> t1 <= t2.
Proof.
  intros [L1 U1] [L2 U2] H.
  assert (A : (inject_Z t1 < inject_Z (t2 + 1))%Q) by (rewrite inject_Z_succ; lra).
  rewrite <- Zlt_Qlt in A. lia.
Qed.

End Rounding.

(** ** The float operations and the standard library's IEEE-754 specification

    The operations of [Float] are those of [SpecFloat] at precision 53 and
    maximal exponent 1024: the product on the valid floats, the conversion of
    an int, and the quotient of two ints as the quotient of the floats that
    hold them. *)

Section StandardLibrary.
Import Float FloatSpec.

#[local] Opaque bpow.

Lemma loc_of_shr_record_of_loc m l : loc_of_shr_record (shr_record_of_loc m l) = l.
Proof. destruct l as [|[| |]]; reflexivity. Qed.

Lemma shr_m_of_loc m l : shr_m (shr_record_of_loc m l) = m.
Proof. destruct l as [|[| |]]; reflexivity. Qed.

Lemma shr_1_m r : 0 <= shr_m r -> shr_m (shr_1 r) = shr_m r / 2.
Proof.
  destruct r as [m rb sb]. cbn [shr_m]. intros Hm.
  destruct m as [|[p|p|]|p]; try lia; cbn [shr_1 shr_m].
  - reflexivity.
  - apply Z.div_unique with 1; lia.
  - apply Z.div_unique with 0; lia.
  - reflexivity.
Qed.

Lemma shr_1_loc r :
  0 <= shr_m r ->
  loc_of_shr_record (shr_1 r) =
  match Z.odd (shr_m r), loc_of_shr_record r with
  | false, loc_Exact => loc_Exact
  | false, _ => loc_Inexact Lt
  | true, loc_Exact => loc_Inexact Eq
  | true, _ => loc_Inexact Gt
  end.
Proof.
  destruct r as [m rb sb]. cbn [shr_m]. intros Hm.
  destruct m as [|[p|p|]|p]; try lia; destruct rb, sb; reflexivity.
Qed.

(** One right shift of a record that holds [a/b] holds [a/(2b)]. *)
Lemma shr_1_represents r a b :
  0 <= a -> 0 < b -> represents r a b -> represents (shr_1 r) a (b * 2).
Proof.
  intros Ha Hb [Hm Hl].
  assert (Hm0 : 0 <= shr_m r) by (rewrite Hm; apply Z.div_pos; lia).
  split.
  - rewrite shr_1_m, Hm by exact Hm0. apply Z.div_div; lia.
  - rewrite shr_1_loc, Hl, Hm by exact Hm0. unfold loc_of.
    rewrite (Z.rem_mul_r a b 2) by lia.
    pose proof (Z.mod_pos_bound a b Hb) as Hr.
    rewrite Zodd_mod. pose proof (Z.mod_pos_bound (a / b) 2 ltac:(lia)) as H2.
    destruct (Z.eqb_spec ((a / b) mod 2) 1) as [E|E].
    + rewrite E. destruct (Z.eqb_spec (a mod b) 0) as [E0|E0].
      * rewrite E0. destruct (Z.eqb_spec (0 + b * 1) 0); [lia|].
        f_equal. symmetry. apply Z.compare_eq_iff. lia.
      * destruct (Z.eqb_spec (a mod b + b * 1) 0); [lia|].
        f_equal. symmetry. apply Z.compare_gt_iff. lia.
    + assert (E' : (a / b) mod 2 = 0) by lia. rewrite E'.
      destruct (Z.eqb_spec (a mod b) 0) as [E0|E0].
      * rewrite E0. destruct (Z.eqb_spec (0 + b * 0) 0); [reflexivity|lia].
      * destruct (Z.eqb_spec (a mod b + b * 0) 0); [lia|].
        f_equal. symmetry. apply Z.compare_lt_iff. lia.
Qed.

(** And so do [p] right shifts, for [a/(b * 2^p)]. *)
Lemma iter_pos_shr_1 p :
  forall r a b, 0 <= a -> 0 < b -> represents r a b ->
    represents (SpecFloat.iter_pos shr_1 p r) a (b * 2 ^ Z.pos p).
Proof.
  induction p as [p IH|p IH|]; intros r a b Ha Hb H; cbn [SpecFloat.iter_pos].
  - replace (b * 2 ^ Z.pos p~1) with (b * 2 * 2 ^ Z.pos p * 2 ^ Z.pos p).
    + apply IH; [lia| |apply IH; [lia|lia|apply shr_1_represents; assumption]].
      apply Z.mul_pos_pos; [lia|apply Z.pow_pos_nonneg; lia].
    + replace (Z.pos p~1) with (1 + Z.pos p + Z.pos p) by lia.
      rewrite !Z.pow_add_r, Z.pow_1_r by lia. ring.
  - replace (b * 2 ^ Z.pos p~0) with (b * 2 ^ Z.pos p * 2 ^ Z.pos p).
    + apply IH; [lia| |apply IH; assumption].
      apply Z.mul_pos_pos; [lia|apply Z.pow_pos_nonneg; lia].
    + replace (Z.pos p~0) with (Z.pos p + Z.pos p) by lia.
      rewrite !Z.pow_add_r by lia. ring.
  - rewrite Z.pow_1_r. apply shr_1_represents; assumption.
Qed.

(** The library's choice between [a/b]'s integer part and the next integer
    is [rne]. *)
Lemma round_nearest_even_rne a b :
  0 < b -> round_nearest_even (a / b) (loc_of a b) = rne a b.
Proof.
  intros Hb. unfold loc_of, rne. pose proof (Z.mod_pos_bound a b Hb) as Hr.
  destruct (Z.eqb_spec (a mod b) 0) as [E|E].
  - rewrite E. cbn [round_nearest_even].
    destruct (Z.compare_spec (2 * 0) b); lia || reflexivity.
  - cbn [round_nearest_even]. destruct (2 * (a mod b) ?= b); reflexivity.
Qed.

Lemma digits2_pos_size p : digits2_pos p = Pos.size p.
Proof. induction p as [p IH|p IH|]; cbn; [rewrite IH|rewrite IH|]; reflexivity. Qed.

(** The number of binary digits. *)
Lemma Zdigits2_log2 m : 0 < m -> Zdigits2 m = Z.log2 m + 1.
Proof.
  destruct m as [|p|p]; try lia. intros _. cbn [Zdigits2]. rewrite digits2_pos_size.
  destruct p; cbn; lia.
Qed.

Lemma Zdigits2_bounds m : 0 < m -> 2 ^ (Zdigits2 m - 1) <= m < 2 ^ Zdigits2 m.
Proof.
  intros Hm. rewrite (Zdigits2_log2 m Hm). replace (Z.log2 m + 1 - 1) with (Z.log2 m) by lia.
  apply (Z.log2_spec m Hm).
Qed.

(** The magnitude of a fraction is fixed by the powers of two around it. *)
Lemma mag_unique n d k :
  0 < n -> 0 < d -> (bpow (k - 1) <= frac n d < bpow k)%Q -> mag n d = k.
Proof.
  intros Hn Hd H. pose proof (mag_spec n d Hn Hd) as H'.
  pose proof (mag_le _ _ _ _ H H' (Qle_refl _)). pose proof (mag_le _ _ _ _ H' H (Qle_refl _)).
  lia.
Qed.

(** Rounding to nearest, ties to even, is a function. *)
Lemma nearest_even_unique y1 y2 m1 m2 :
  nearest_even y1 m1 -> nearest_even y2 m2 -> (y1 == y2)%Q -> m1 = m2.
Proof.
  intros H1 H2 E.
  pose proof (nearest_even_le _ _ _ _ H1 H2 ltac:(lra)).
  pose proof (nearest_even_le _ _ _ _ H2 H1 ltac:(lra)). lia.
Qed.

Lemma fexp_eq k : SpecFloat.fexp prec emax k = Float.fexp k.
Proof. reflexivity. Qed.

(** The last step of [binary_round_aux]. *)
Lemma renormalise s M e1 :
  0 <= M <= 2 ^ prec -> emin <= e1 ->
  (let '(mrs'', e'') := shr_fexp prec emax M e1 loc_Exact in
   match shr_m mrs'' with
   | Z0 => S754_zero s
   | Zpos m => if e'' <=? emax - prec then S754_finite s m e'' else S754_infinity s
   | _ => S754_nan
   end) = to_float s (M, e1).
Proof.
  intros HM He. unfold shr_fexp. rewrite fexp_eq.
  destruct (Z.eq_dec M 0) as [->|H0].
  { cbn [Zdigits2]. unfold shr.
    destruct (Float.fexp (0 + e1) - e1) eqn:En;
      [reflexivity|unfold Float.fexp, emin, emax, prec in *; lia|reflexivity]. }
  destruct (Z.eq_dec M (2 ^ prec)) as [->|H1].
  { change (Zdigits2 (2 ^ prec)) with 54.
    replace (Float.fexp (54 + e1) - e1) with 1
      by (unfold Float.fexp, emin, emax, prec in *; lia).
    cbn [shr SpecFloat.iter_pos]. unfold to_float.
    change (2 ^ prec) with (Z.pos 9007199254740992). cbn. reflexivity. }
  pose proof (Zdigits2_bounds M ltac:(lia)) as [B1 B2].
  assert (Hd : Zdigits2 M <= prec).
  { destruct (Z_le_gt_dec (Zdigits2 M) prec) as [L|G]; [exact L|exfalso].
    assert (2 ^ prec <= 2 ^ (Zdigits2 M - 1)) by (apply Z.pow_le_mono_r; lia). lia. }
  unfold shr.
  destruct (Float.fexp (Zdigits2 M + e1) - e1) eqn:En;
    [|unfold Float.fexp, emin, emax, prec in *; lia|].
  - cbn [shr_record_of_loc shr_m]. unfold to_float. destruct M as [|p|p]; try lia.
    destruct (Z.eqb_spec (Z.pos p) (2 ^ prec)); [contradiction|reflexivity].
  - cbn [shr_record_of_loc shr_m]. unfold to_float. destruct M as [|q|q]; try lia.
    destruct (Z.eqb_spec (Z.pos q) (2 ^ prec)); [contradiction|reflexivity].
Qed.

(** The shift to the target exponent keeps the fraction and its location. *)
Lemma shr_fexp_represents a b e :
  0 < b -> 0 <= a -> e <= Float.fexp (Zdigits2 (a / b) + e) ->
  exists r,
    shr_fexp prec emax (a / b) e (loc_of a b) = (r, Float.fexp (Zdigits2 (a / b) + e)) /\
    represents r a (b * 2 ^ (Float.fexp (Zdigits2 (a / b) + e) - e)).
Proof.
  intros Hb Ha He. unfold shr_fexp. rewrite fexp_eq.
  set (k := Zdigits2 (a / b) + e) in *.
  assert (R : represents (shr_record_of_loc (a / b) (loc_of a b)) a b).
  { split; [apply shr_m_of_loc|apply loc_of_shr_record_of_loc]. }
  unfold shr. destruct (Float.fexp k - e) as [|p|p] eqn:En; [| |lia].
  - eexists. split; [f_equal; lia|]. rewrite Z.pow_0_r, Z.mul_1_r. exact R.
  - eexists. split; [f_equal; lia|]. apply iter_pos_shr_1; assumption.
Qed.

(** The library's rounding of a mantissa [a/b] at exponent [e], given with
    its location, is the rounding of the fraction [N/D] of the same value. *)
Lemma binary_round_aux_correct s a b e N D :
  0 < b -> 0 < a -> 0 < N -> 0 < D ->
  (frac N D == frac a b * bpow e)%Q ->
  e <= Float.fexp (Zdigits2 (a / b) + e) ->
  binary_round_aux prec emax s (a / b) e (loc_of a b) = to_float s (round_fraction N D).
Proof.
  intros Hb Ha HN HD Ex He.
  pose proof (Z.div_mod a b ltac:(lia)) as Ed. pose proof (Z.mod_pos_bound a b Hb) as Hr.
  pose proof (frac_mul a b Hb) as Ef. pose proof (inject_Z_pos b Hb) as Pb.
  pose proof (bpow_pos e) as Pe.
  pose proof (mag_spec N D HN HD) as [ML MU].
  (* the exponent *)
  assert (Hk : Float.fexp (Zdigits2 (a / b) + e) = Float.fexp (mag N D)).
  { destruct (Z_lt_le_dec a b) as [Hlt|Hab].
    - rewrite (Z.div_small a b) in * by lia. cbn [Zdigits2] in *.
      assert (X : (frac a b < 1)%Q) by exact (proj1 (frac_lt_1 a b Hb) Hlt).
      assert (Hm : mag N D <= e).
      { destruct (Z_le_gt_dec (mag N D) e) as [L|G]; [exact L|exfalso].
        assert (Bk : (bpow e <= bpow (mag N D - 1))%Q) by (apply bpow_le; lia).
        rewrite Ex in ML. nra. }
      unfold Float.fexp in *. unfold prec, emin, emax in *. lia.
    - assert (Hm : 0 < a / b) by (apply Z.div_str_pos; lia).
      f_equal. symmetry. apply mag_unique; [assumption..|]. rewrite Ex.
      destruct (Zdigits2_bounds (a / b) Hm) as [B1 B2].
      assert (L : (inject_Z (2 ^ (Zdigits2 (a / b) - 1)) <= frac a b)%Q).
      { assert (X : 2 ^ (Zdigits2 (a / b) - 1) * b <= a) by nia.
        rewrite Zle_Qle, inject_Z_mult in X. nra. }
      assert (U : (frac a b < inject_Z (2 ^ Zdigits2 (a / b)))%Q).
      { assert (X : a < 2 ^ Zdigits2 (a / b) * b) by nia.
        rewrite Zlt_Qlt, inject_Z_mult in X. nra. }
      assert (D0 : 1 <= Zdigits2 (a / b)).
      { rewrite Zdigits2_log2 by exact Hm. pose proof (Z.log2_nonneg (a / b)). lia. }
      rewrite bpow_inject in L, U by lia.
      rewrite (bpow_split (Zdigits2 (a / b) + e - 1) (Zdigits2 (a / b) - 1) e) by lia.
      rewrite (bpow_split (Zdigits2 (a / b) + e) (Zdigits2 (a / b)) e) by lia.
      split; [apply Qmult_le_compat_r; [exact L|lra]|apply Qmult_lt_compat_r; assumption]. }
  destruct (shr_fexp_represents a b e Hb ltac:(lia) He) as (r & Es & [Rm Rl]).
  rewrite Hk in Es, Rm, Rl, He. set (E := Float.fexp (mag N D)) in *.
  set (n := E - e) in *.
  assert (Hn : 0 <= n) by (unfold n; lia).
  assert (Hbn : 0 < b * 2 ^ n) by (apply Z.mul_pos_pos; [lia|apply Z.pow_pos_nonneg; lia]).
  unfold binary_round_aux. rewrite Es, Rm, Rl, round_nearest_even_rne by exact Hbn.
  (* the mantissa *)
  unfold round_fraction. fold E.
  destruct (shift N D E) as [A B] eqn:Esh.
  destruct (frac_shift N D E A B HD Esh) as [HB EAB].
  assert (Esn : shift a b n = (a, b * 2 ^ n)).
  { unfold shift. destruct (Z.leb_spec 0 n); [reflexivity|lia]. }
  destruct (frac_shift a b n _ _ Hb Esn) as [_ Ean].
  assert (Eq : (frac a (b * 2 ^ n) == frac A B)%Q).
  { rewrite Ean, EAB, Ex. rewrite <- Qmult_assoc, <- bpow_add.
    replace (e + - E) with (- n) by (unfold n; lia). reflexivity. }
  assert (EM : rne a (b * 2 ^ n) = rne A B).
  { apply (nearest_even_unique _ _ _ _ (rne_spec _ _ Hbn) (rne_spec _ _ HB) Eq). }
  rewrite EM. apply renormalise.
  - split.
    + apply rne_nonneg; [|exact HB]. pose proof (shift_pos _ _ _ _ _ HN Esh). lia.
    + apply (nearest_even_le _ _ _ _ (rne_spec A B HB) (nearest_even_Z _)).
      rewrite bpow_inject by (unfold prec; lia).
      rewrite EAB.
      assert (Bk : (bpow (mag N D + - E) <= bpow prec)%Q)
        by (apply bpow_le; unfold E, Float.fexp; lia).
      rewrite bpow_add in Bk. pose proof (bpow_pos (- E)).
      apply Qlt_le_weak. eapply Qlt_le_trans; [|exact Bk].
      apply Qmult_lt_compat_r; assumption.
  - unfold E, Float.fexp. lia.
Qed.

Lemma loc_of_1 m : loc_of m 1 = loc_Exact.
Proof. unfold loc_of. rewrite Z.mod_1_r. reflexivity. Qed.

Lemma binary_round_aux_exact s m e N D :
  0 < m -> 0 < N -> 0 < D ->
  (frac N D == inject_Z m * bpow e)%Q ->
  e <= Float.fexp (Zdigits2 m + e) ->
  binary_round_aux prec emax s m e loc_Exact = to_float s (round_fraction N D).
Proof.
  intros Hm HN HD Ex He.
  rewrite <- (Z.div_1_r m) at 1. rewrite <- (loc_of_1 m).
  apply binary_round_aux_correct; try assumption; try lia.
  - rewrite Ex, frac_1. reflexivity.
  - rewrite Z.div_1_r. exact He.
Qed.

Lemma digits_mul mx my :
  Zdigits2 (Z.pos mx) + Zdigits2 (Z.pos my) - 1 <= Zdigits2 (Z.pos (mx * my)).
Proof.
  destruct (Zdigits2_bounds (Z.pos mx) ltac:(lia)) as [X1 X2].
  destruct (Zdigits2_bounds (Z.pos my) ltac:(lia)) as [Y1 Y2].
  destruct (Zdigits2_bounds (Z.pos (mx * my)) ltac:(lia)) as [P1 P2].
  assert (Dx : 1 <= Zdigits2 (Z.pos mx))
    by (rewrite Zdigits2_log2 by lia; pose proof (Z.log2_nonneg (Z.pos mx)); lia).
  assert (Dy : 1 <= Zdigits2 (Z.pos my))
    by (rewrite Zdigits2_log2 by lia; pose proof (Z.log2_nonneg (Z.pos my)); lia).
  destruct (Z_le_gt_dec (Zdigits2 (Z.pos mx) + Zdigits2 (Z.pos my) - 1)
              (Zdigits2 (Z.pos (mx * my)))) as [L|G]; [exact L|exfalso].
  assert (H : 2 ^ Zdigits2 (Z.pos (mx * my)) <=
              2 ^ (Zdigits2 (Z.pos mx) - 1 + (Zdigits2 (Z.pos my) - 1)))
    by (apply Z.pow_le_mono_r; lia).
  rewrite Z.pow_add_r in H by lia.
  assert (A : 2 ^ (Zdigits2 (Z.pos mx) - 1) * 2 ^ (Zdigits2 (Z.pos my) - 1)
              <= Z.pos (mx * my)).
  { rewrite Pos2Z.inj_mul. apply Z.mul_le_mono_nonneg; try lia; apply Z.pow_nonneg; lia. }
  lia.
Qed.

(** The product of [Float] is the one of the standard library on the floats
    that are valid. *)
Theorem mul_is_SFmul x y :
  valid_binary prec emax x = true -> valid_binary prec emax y = true ->
  Float.mul x y = SFmul prec emax x y.
Proof.
  destruct x as [sx|sx| |sx mx ex]; try reflexivity.
  destruct y as [sy|sy| |sy my ey]; try reflexivity.
  unfold valid_binary, bounded, canonical_mantissa. rewrite !fexp_eq.
  intros Vx Vy. apply andb_prop in Vx, Vy. destruct Vx as [Cx _], Vy as [Cy _].
  apply Z.eqb_eq in Cx, Cy.
  unfold Float.mul, SFmul.
  destruct (shift (Z.pos mx * Z.pos my) 1 (- (ex + ey))) as [n d] eqn:Es.
  destruct (frac_shift _ _ _ _ _ Z.lt_0_1 Es) as [Hd E].
  pose proof (shift_pos _ _ _ _ _ (Pos2Z.is_pos (mx * my)) Es) as Hn.
  unfold round. destruct n as [|n|n]; try lia.
  symmetry. apply binary_round_aux_exact; try lia.
  - rewrite E, frac_1, Z.opp_involutive. reflexivity.
  - pose proof (digits_mul mx my) as Hm.
    assert (Dx : 1 <= Zdigits2 (Z.pos mx))
      by (rewrite Zdigits2_log2 by lia; pose proof (Z.log2_nonneg (Z.pos mx)); lia).
    assert (Dy : 1 <= Zdigits2 (Z.pos my))
      by (rewrite Zdigits2_log2 by lia; pose proof (Z.log2_nonneg (Z.pos my)); lia).
    change (Z.pos (digits2_pos mx)) with (Zdigits2 (Z.pos mx)) in Cx.
    change (Z.pos (digits2_pos my)) with (Zdigits2 (Z.pos my)) in Cy.
    unfold SpecFloat.fexp, SpecFloat.emin, Float.fexp, emin, emax, prec in *. lia.
Qed.

Lemma new_location_loc_of a b : 0 < b -> new_location b (a mod b) = loc_of a b.
Proof.
  intros Hb. pose proof (Z.mod_pos_bound a b Hb) as Hr.
  unfold new_location, new_location_even, new_location_odd, loc_of.
  destruct (Z.even b) eqn:Eb; [reflexivity|].
  destruct (Z.eqb_spec (a mod b) 0); [reflexivity|]. f_equal.
  assert (Ho : Z.odd b = true) by (rewrite <- Z.negb_even, Eb; reflexivity).
  apply Z.odd_spec in Ho. destruct Ho as [c Hc].
  destruct (Z.compare_spec (2 * (a mod b) + 1) b);
    symmetry; [apply Z.compare_lt_iff|apply Z.compare_lt_iff|apply Z.compare_gt_iff]; lia.
Qed.

(** The quotient of the standard library is the rounding of the exact
    quotient, for all finite operands. *)
Theorem SFdiv_is_round sx mx ex sy my ey N D :
  0 < N -> 0 < D ->
  (frac N D * (inject_Z (Z.pos my) * bpow ey) == inject_Z (Z.pos mx) * bpow ex)%Q ->
  SFdiv prec emax (S754_finite sx mx ex) (S754_finite sy my ey)
  = Float.round (xorb sx sy) N D.
Proof.
  intros HN HD Ex. unfold SFdiv, SFdiv_core_binary. rewrite fexp_eq.
  set (d1 := Zdigits2 (Z.pos mx)). set (d2 := Zdigits2 (Z.pos my)).
  set (e' := Z.min (Float.fexp (d1 + ex - (d2 + ey))) (ex - ey)).
  set (s := ex - ey - e').
  assert (Hs : 0 <= s) by (unfold s, e'; lia).
  set (m' := match s with Z.pos _ => Z.shiftl (Z.pos mx) s | 0 => Z.pos mx | Z.neg _ => 0 end).
  assert (Em : m' = Z.pos mx * 2 ^ s).
  { unfold m'. destruct s as [|p|p]; [lia| |lia]. apply Z.shiftl_mul_pow2. lia. }
  assert (Hm' : 0 < m') by (rewrite Em; apply Z.mul_pos_pos; [lia|apply Z.pow_pos_nonneg; lia]).
  destruct (Z.div_eucl m' (Z.pos my)) as [q r] eqn:Ediv.
  assert (Eq : q = m' / Z.pos my) by (unfold Z.div; rewrite Ediv; reflexivity).
  assert (Er : r = m' mod Z.pos my) by (unfold Z.modulo; rewrite Ediv; reflexivity).
  subst q r. rewrite new_location_loc_of by lia.
  unfold Float.round. destruct N as [|N|N]; try lia.
  pose proof (bpow_pos ex) as Pex. pose proof (bpow_pos ey) as Pey.
  pose proof (bpow_pos e') as Pe'.
  pose proof (inject_Z_pos (Z.pos my) (Pos2Z.is_pos my)) as Pmy.
  pose proof (inject_Z_pos (Z.pos mx) (Pos2Z.is_pos mx)) as Pmx.
  pose proof (frac_mul m' (Z.pos my) (Pos2Z.is_pos my)) as Ef.
  assert (Ex' : (frac (Z.pos N) D == frac m' (Z.pos my) * bpow e')%Q).
  { apply (Qmult_inj_r _ _ (inject_Z (Z.pos my) * bpow ey)); [intros E0; nra|].
    rewrite Ex.
    transitivity ((frac m' (Z.pos my) * inject_Z (Z.pos my)) * (bpow e' * bpow ey))%Q;
      [|ring].
    rewrite Ef, Em, inject_Z_mult, bpow_inject by exact Hs.
    rewrite (bpow_split ex s (e' + ey)) by (unfold s; lia). rewrite bpow_add. ring. }
  apply binary_round_aux_correct; try assumption; try lia.
  (* the exponent of the quotient is low enough *)
  destruct (Zdigits2_bounds (Z.pos mx) ltac:(lia)) as [X1 X2].
  destruct (Zdigits2_bounds (Z.pos my) ltac:(lia)) as [Y1 Y2].
  fold d1 in X1, X2. fold d2 in Y1, Y2.
  assert (D1 : 1 <= d1)
    by (unfold d1; rewrite Zdigits2_log2 by lia; pose proof (Z.log2_nonneg (Z.pos mx)); lia).
  assert (D2 : 1 <= d2)
    by (unfold d2; rewrite Zdigits2_log2 by lia; pose proof (Z.log2_nonneg (Z.pos my)); lia).
  destruct (Z_lt_le_dec m' (Z.pos my)) as [Hlt|Hge].
  - (* the quotient is below the last place *)
    rewrite (Z.div_small m' (Z.pos my)) by lia. cbn [Zdigits2].
    destruct (Z_le_gt_dec (d2 - d1 + 1) s) as [Hbig|Hsmall].
    + exfalso. assert (S0 : 1 <= 2 ^ s) by (apply (Z.pow_le_mono_r 2 0 s); lia).
      destruct (Z_lt_le_dec d2 d1) as [Hd|Hd].
      { assert (2 ^ d2 <= 2 ^ (d1 - 1)) by (apply Z.pow_le_mono_r; lia). nia. }
      assert (P : 2 ^ (d2 - d1 + 1) <= 2 ^ s) by (apply Z.pow_le_mono_r; lia).
      assert (Q : 2 ^ d2 = 2 ^ (d1 - 1) * 2 ^ (d2 - d1 + 1)).
      { rewrite <- Z.pow_add_r by lia. f_equal. lia. }
      assert (R : 2 ^ (d1 - 1) * 2 ^ (d2 - d1 + 1) <= Z.pos mx * 2 ^ s).
      { apply Z.mul_le_mono_nonneg; try lia; apply Z.pow_nonneg; lia. }
      lia.
    + unfold s, e', Float.fexp, emin, emax, prec in *. lia.
  - (* the quotient has enough digits *)
    assert (Hq : 0 < m' / Z.pos my) by (apply Z.div_str_pos; lia).
    destruct (Zdigits2_bounds _ Hq) as [Q1 Q2].
    set (dq := Zdigits2 (m' / Z.pos my)) in *.
    assert (Dq : 1 <= dq)
      by (unfold dq; rewrite Zdigits2_log2 by lia;
          pose proof (Z.log2_nonneg (m' / Z.pos my)); lia).
    assert (Hdq : d1 + s - d2 <= dq).
    { destruct (Z_le_gt_dec (d1 + s - d2) dq) as [L|G]; [exact L|exfalso].
      pose proof (Z.div_mod m' (Z.pos my) ltac:(lia)) as Ed.
      pose proof (Z.mod_pos_bound m' (Z.pos my) ltac:(lia)) as Hr.
      assert (P : 2 ^ dq * 2 ^ d2 <= 2 ^ (d1 - 1) * 2 ^ s).
      { rewrite <- !Z.pow_add_r by lia. apply Z.pow_le_mono_r; lia. }
      assert (R : 2 ^ (d1 - 1) * 2 ^ s <= Z.pos mx * 2 ^ s).
      { apply Z.mul_le_mono_nonneg_r; [apply Z.pow_nonneg; lia|lia]. }
      assert (S : m' < 2 ^ dq * 2 ^ d2).
      { assert (S1 : m' < (m' / Z.pos my + 1) * Z.pos my) by nia.
        assert (S2 : (m' / Z.pos my + 1) * Z.pos my <= 2 ^ dq * 2 ^ d2).
        { apply Z.mul_le_mono_nonneg; lia. }
        lia. }
      lia. }
    unfold s, e', Float.fexp, emin, emax, prec in *. lia.
Qed.

Lemma iter_xO mx d : Z.pos (Pos.iter xO mx d) = Z.pos mx * 2 ^ Z.pos d.
Proof.
  induction d as [|d IH] using Pos.peano_ind.
  - cbn [Pos.iter]. rewrite Z.pow_1_r. lia.
  - rewrite Pos.iter_succ, Pos2Z.inj_xO, IH, Pos2Z.inj_succ, Z.pow_succ_r by lia. ring.
Qed.

Lemma Zdigits2_mul_pow2 m d : 0 < m -> 0 <= d -> Zdigits2 (m * 2 ^ d) = Zdigits2 m + d.
Proof.
  intros Hm Hd. rewrite !Zdigits2_log2;
    [|exact Hm|apply Z.mul_pos_pos; [exact Hm|apply Z.pow_pos_nonneg; lia]].
  rewrite Z.log2_mul_pow2 by lia. lia.
Qed.

(** The library's rounding of an exact mantissa. *)
Lemma binary_round_correct s mx ex N D :
  0 < N -> 0 < D -> (frac N D == inject_Z (Z.pos mx) * bpow ex)%Q ->
  binary_round prec emax s mx ex = to_float s (round_fraction N D).
Proof.
  intros HN HD Ex. unfold binary_round, shl_align. rewrite fexp_eq.
  change (Z.pos (digits2_pos mx)) with (Zdigits2 (Z.pos mx)).
  destruct (Float.fexp (Zdigits2 (Z.pos mx) + ex) - ex) as [|p|p] eqn:En.
  - apply binary_round_aux_exact; try assumption; lia.
  - apply binary_round_aux_exact; try assumption; lia.
  - rewrite iter_xO. apply binary_round_aux_exact; try assumption.
    + apply Z.mul_pos_pos; [lia|apply Z.pow_pos_nonneg; lia].
    + rewrite Ex, inject_Z_mult, bpow_inject by lia.
      rewrite (bpow_split ex (Z.pos p) (Float.fexp (Zdigits2 (Z.pos mx) + ex))) by lia.
      ring.
    + rewrite Zdigits2_mul_pow2 by lia.
      replace (Zdigits2 (Z.pos mx) + Z.pos p + Float.fexp (Zdigits2 (Z.pos mx) + ex))
        with (Zdigits2 (Z.pos mx) + ex) by lia.
      lia.
Qed.

(** [float(n)] is the conversion of the standard library. *)
Theorem of_int_is_binary_normalize n :
  Float.round (n <? 0) (Z.abs n) 1 = binary_normalize prec emax n 0 false.
Proof.
  destruct n as [|p|p]; [reflexivity| |]; cbn [Z.ltb Z.compare Z.abs binary_normalize Float.round];
    symmetry; apply binary_round_correct; try lia; rewrite frac_1, bpow_0;
    cbn [Z.abs]; rewrite Qmult_1_r; reflexivity.
Qed.

(** The mantissa of a rounding. *)
Lemma round_fraction_mantissa N D :
  0 < N -> 0 < D ->
  0 <= fst (round_fraction N D) <= 2 ^ prec /\
  (emin < snd (round_fraction N D) -> 2 ^ (prec - 1) <= fst (round_fraction N D)).
Proof.
  intros HN HD. destruct (round_fraction_spec N D HN HD) as (k & [KL KU] & Ee & Hne).
  pose proof (round_fraction_nonneg N D HN HD) as H0.
  destruct (round_fraction N D) as [M E]. cbn [fst snd] in *.
  pose proof (bpow_pos (- E)) as PE.
  split; [split; [exact H0|]|].
  - apply (nearest_even_le _ _ _ _ Hne (nearest_even_Z _)).
    rewrite bpow_inject by (unfold prec; lia).
    assert (Bk : (bpow (k + - E) <= bpow prec)%Q)
      by (apply bpow_le; subst E; unfold Float.fexp; lia).
    rewrite bpow_add in Bk. apply Qlt_le_weak. eapply Qlt_le_trans; [|exact Bk].
    apply Qmult_lt_compat_r; assumption.
  - intros HE. apply (nearest_even_le _ _ _ _ (nearest_even_Z _) Hne).
    rewrite bpow_inject by (unfold prec; lia).
    assert (Ek : k - 1 + - E = prec - 1) by (subst E; unfold Float.fexp in *; lia).
    rewrite <- Ek, bpow_add. apply Qmult_le_compat_r; [exact KL|lra].
Qed.

(** The floats that rounding gives are valid. *)
Theorem round_valid s n d :
  0 <= n -> 0 < d -> valid_binary prec emax (Float.round s n d) = true.
Proof.
  intros Hn Hd. unfold Float.round. destruct n as [|p|p]; [reflexivity| |lia].
  destruct (round_fraction_mantissa (Z.pos p) d ltac:(lia) Hd) as [[M0 MU] ML].
  destruct (round_fraction_spec (Z.pos p) d ltac:(lia) Hd) as (k & _ & Ee & _).
  destruct (round_fraction (Z.pos p) d) as [M E]. cbn [fst snd] in *.
  unfold to_float. destruct M as [|q|q]; [reflexivity| |lia].
  destruct (Z.eqb_spec (Z.pos q) (2 ^ prec)) as [E2|E2].
  - destruct (Z.leb_spec (E + 1) (emax - prec)) as [L|L]; [|reflexivity].
    unfold valid_binary, bounded, canonical_mantissa. rewrite fexp_eq.
    apply andb_true_intro. split; [apply Z.eqb_eq|apply Z.leb_le; exact L].
    change (Z.pos (digits2_pos (Z.to_pos (2 ^ (prec - 1))))) with 53.
    subst E. unfold Float.fexp, emin, emax, prec in *. lia.
  - destruct (Z.leb_spec E (emax - prec)) as [L|L]; [|reflexivity].
    unfold valid_binary, bounded, canonical_mantissa. rewrite fexp_eq.
    apply andb_true_intro. split; [apply Z.eqb_eq|apply Z.leb_le; exact L].
    change (Z.pos (digits2_pos q)) with (Zdigits2 (Z.pos q)).
    destruct (Zdigits2_bounds (Z.pos q) ltac:(lia)) as [B1 B2].
    assert (Dq : Zdigits2 (Z.pos q) <= prec).
    { destruct (Z_le_gt_dec (Zdigits2 (Z.pos q)) prec) as [X|X]; [exact X|exfalso].
      assert (2 ^ prec <= 2 ^ (Zdigits2 (Z.pos q) - 1)) by (apply Z.pow_le_mono_r; lia).
      lia. }
    destruct (Z_le_gt_dec E emin) as [Hs|Hn'].
    + subst E. unfold Float.fexp, emin, emax, prec in *. lia.
    + specialize (ML ltac:(lia)).
      assert (Dq' : prec <= Zdigits2 (Z.pos q)).
      { destruct (Z_le_gt_dec prec (Zdigits2 (Z.pos q))) as [X|X]; [exact X|exfalso].
        assert (2 ^ Zdigits2 (Z.pos q) <= 2 ^ (prec - 1)) by (apply Z.pow_le_mono_r;
          [lia|]; pose proof (Z.log2_nonneg (Z.pos q));
          rewrite Zdigits2_log2 in * by lia; lia).
        lia. }
      subst E. unfold Float.fexp, emin, emax, prec in *. lia.
Qed.

(** An int below [2^53] is converted exactly. *)
Lemma small_int_float s p :
  Z.pos p < 2 ^ prec ->
  exists m e,
    to_float s (round_fraction (Z.pos p) 1) = S754_finite s m e /\
    (inject_Z (Z.pos m) * bpow e == inject_Z (Z.pos p))%Q.
Proof.
  intros Hp.
  destruct (round_fraction_spec (Z.pos p) 1 ltac:(lia) Z.lt_0_1) as (k & [KL KU] & Ee & Hne).
  destruct (round_fraction (Z.pos p) 1) as [M E]. cbn [fst snd] in *.
  rewrite frac_1 in KL, KU.
  assert (Hk : k <= prec).
  { destruct (Z_le_gt_dec k prec) as [L|G]; [exact L|exfalso].
    assert (B : (bpow prec <= bpow (k - 1))%Q) by (apply bpow_le; lia).
    rewrite <- bpow_inject in B by (unfold prec; lia).
    rewrite Zlt_Qlt in Hp. lra. }
  assert (HE : E <= 0) by (subst E; unfold Float.fexp, emin, emax, prec in *; lia).
  assert (EM : M = Z.pos p * 2 ^ (- E)).
  { apply (nearest_even_unique _ _ _ _ Hne (nearest_even_Z _)).
    rewrite frac_1, inject_Z_mult, bpow_inject by lia. reflexivity. }
  assert (P2 : 0 < 2 ^ (- E)) by (apply Z.pow_pos_nonneg; lia).
  assert (HM : 0 < M < 2 ^ prec).
  { split; [subst M; apply Z.mul_pos_pos; lia|].
    assert (X : (inject_Z M < inject_Z (2 ^ prec))%Q).
    { rewrite EM, inject_Z_mult, !bpow_inject by (unfold prec; lia).
      assert (Bk : (bpow (k + - E) <= bpow prec)%Q)
        by (apply bpow_le; subst E; unfold Float.fexp; lia).
      rewrite bpow_add in Bk. pose proof (bpow_pos (- E)).
      eapply Qlt_le_trans; [|exact Bk]. apply Qmult_lt_compat_r; assumption. }
    rewrite <- Zlt_Qlt in X. exact X. }
  unfold to_float. destruct M as [|q|q]; try lia.
  destruct (Z.eqb_spec (Z.pos q) (2 ^ prec)) as [X|_]; [lia|].
  destruct (Z.leb_spec E (emax - prec)) as [_|X]; [|unfold emax, prec in X; lia].
  exists q, E. split; [reflexivity|].
  rewrite EM, inject_Z_mult, bpow_inject by lia.
  rewrite <- Qmult_assoc, (Qmult_comm (bpow (- E))), bpow_opp. ring.
Qed.

Lemma small_int_normalize n :
  n <> 0 -> Z.abs n < 2 ^ prec ->
  exists m e,
    binary_normalize prec emax n 0 false = S754_finite (n <? 0) m e /\
    (inject_Z (Z.pos m) * bpow e == inject_Z (Z.abs n))%Q.
Proof.
  intros Hn Hs. rewrite <- of_int_is_binary_normalize. unfold Float.round.
  destruct n as [|p|p]; [contradiction| |]; cbn [Z.abs] in *; apply small_int_float; exact Hs.
Qed.

(** [a / b] is the quotient of the standard library on the converted
    operands, when these are below [2^53] and so converted exactly. *)
Theorem int_truediv_is_SFdiv a b :
  Z.abs a < 2 ^ prec -> b <> 0 -> Z.abs b < 2 ^ prec ->
  Float.round (xorb (a <? 0) (b <? 0)) (Z.abs a) (Z.abs b) = Float.ref_truediv a b.
Proof.
  intros Ha Hb0 Hb. unfold Float.ref_truediv, Float.ref_of_int.
  destruct (small_int_normalize b Hb0 Hb) as (my & ey & -> & Ey).
  destruct (Z.eq_dec a 0) as [->|Ha0]; [reflexivity|].
  destruct (small_int_normalize a Ha0 Ha) as (mx & ex & -> & Ex).
  symmetry. apply SFdiv_is_round; try lia.
  rewrite Ex, Ey. apply frac_mul. lia.
Qed.

(** [a / b] is also the quotient of the standard library on the operands
    taken as they are, whatever their size. *)
Theorem int_truediv_unnormalised sa a sb b :
  SFdiv prec emax (S754_finite sa a 0) (S754_finite sb b 0)
  = Float.round (xorb sa sb) (Z.pos a) (Z.pos b).
Proof.
  apply SFdiv_is_round; try lia. rewrite bpow_0, !Qmult_1_r. apply frac_mul. lia.
Qed.

End StandardLibrary.

(** ** The progress value [int(chars_processed / text_length * 100)] *)

Section Percent.
Import Float FloatSpec WorkerThread.

Lemma of_int_100 : of_int 100 = Returns f100.
Proof. reflexivity. Qed.

Lemma B2Q_f100 : (B2Q f100 == 100)%Q.
Proof. reflexivity. Qed.

#[local] Opaque bpow.

Lemma bind_Returns_inv {E A B} (m : outcome E A) (f : A -> outcome E B) b :
  (a ← m; f a) = Returns b -> exists a, m = Returns a /\ f a = Returns b.
Proof. destruct m as [a|e]; [intros H; exists a; split; [reflexivity|exact H]|discriminate]. Qed.

Lemma bind_Raises_inv {E A B} (m : outcome E A) (f : A -> outcome E B) e :
  (a ← m; f a) = Raises e -> m = Raises e \/ exists a, m = Returns a /\ f a = Raises e.
Proof.
  destruct m as [a|e']; [intros H; right; exists a; split; [reflexivity|exact H]|].
  intros H. left. cbn in H. injection H as ->. reflexivity.
Qed.

Lemma nonneg_finite_B2Q x : nonneg_finite x -> (0 <= B2Q x)%Q.
Proof.
  destruct x as [[|]|[|]| |[|] m e]; cbn [nonneg_finite]; try contradiction; intros _.
  - cbn. lra.
  - unfold B2Q, value. cbn [fst snd]. pose proof (bpow_pos e).
    pose proof (inject_Z_pos (Z.pos m) (Pos2Z.is_pos m)). nra.
Qed.

Lemma frac_le n1 n2 d : 0 < d -> n1 <= n2 -> (frac n1 d <= frac n2 d)%Q.
Proof.
  intros Hd H. pose proof (frac_mul n1 d Hd). pose proof (frac_mul n2 d Hd).
  rewrite Zle_Qle in H. apply inject_Z_pos in Hd. nra.
Qed.

(** Multiplying by a positive float is monotone, infinities apart. *)
Lemma mul_le x1 x2 mf ef :
  nonneg_finite x1 -> nonneg_finite x2 -> (B2Q x1 <= B2Q x2)%Q ->
  is_infinite (mul x1 (S754_finite false mf ef)) = false ->
  is_infinite (mul x2 (S754_finite false mf ef)) = false ->
  nonneg_finite (mul x1 (S754_finite false mf ef)) /\
  nonneg_finite (mul x2 (S754_finite false mf ef)) /\
  (B2Q (mul x1 (S754_finite false mf ef)) <= B2Q (mul x2 (S754_finite false mf ef)))%Q.
Proof.
  intros H1 H2 H I1 I2.
  assert (Pf : (0 < B2Q (S754_finite false mf ef))%Q).
  { unfold B2Q, value. cbn [fst snd]. pose proof (bpow_pos ef).
    pose proof (inject_Z_pos (Z.pos mf) (Pos2Z.is_pos mf)). nra. }
  assert (P : forall m e, (0 < B2Q (S754_finite false m e))%Q).
  { intros m e. unfold B2Q, value. cbn [fst snd]. pose proof (bpow_pos e).
    pose proof (inject_Z_pos (Z.pos m) (Pos2Z.is_pos m)). nra. }
  destruct x1 as [[|]|[|]| |[|] m1 e1]; cbn [nonneg_finite] in H1; try contradiction;
  destruct x2 as [[|]|[|]| |[|] m2 e2]; cbn [nonneg_finite] in H2; try contradiction.
  - split; [exact I|]. split; [exact I|]. cbn. lra.
  - destruct (mul_spec m2 e2 mf ef) as (n & d & Hn & Hd & Em & E).
    rewrite Em in I2 |- *. split; [exact I|].
    destruct (round_nonneg n d ltac:(lia) Hd I2) as [F2 N2].
    split; [exact F2|]. cbn [mul SFmul xorb B2Q]. exact N2.
  - exfalso. specialize (P m1 e1).
    change (B2Q (S754_zero false)) with 0%Q in H. lra.
  - destruct (mul_spec m1 e1 mf ef) as (n1 & d1 & Hn1 & Hd1 & E1 & F1).
    destruct (mul_spec m2 e2 mf ef) as (n2 & d2 & Hn2 & Hd2 & E2 & F2).
    rewrite E1 in I1 |- *. rewrite E2 in I2 |- *.
    split; [apply round_nonneg; [lia|assumption..]|].
    split; [apply round_nonneg; [lia|assumption..]|].
    apply round_le; try lia; try assumption.
    rewrite F1, F2. apply Qmult_le_compat_r; [exact H | apply Qlt_le_weak, Pf].
Qed.

(** What a returned progress value is. *)
Lemma percent_spec c t p :
  0 <= c -> 0 < t -> percent c t = Returns p ->
  is_infinite (round false c t) = false /\
  is_infinite (mul (round false c t) f100) = false /\
  nonneg_finite (mul (round false c t) f100) /\
  floor_of (B2Q (mul (round false c t) f100)) p.
Proof.
  intros Hc Ht. unfold percent, int_truediv.
  destruct (Z.eqb_spec t 0) as [|_]; [lia|].
  destruct (Z.ltb_spec c 0) as [|_]; [lia|]. destruct (Z.ltb_spec t 0) as [|_]; [lia|].
  rewrite (Z.abs_eq c), (Z.abs_eq t) by lia. cbn [xorb].
  destruct (is_infinite (round false c t)) eqn:I1; [discriminate|].
  unfold mul_int. rewrite of_int_100. cbn [mbind outcome_bind].
  intros H. destruct (round_nonneg c t Hc Ht I1) as [F1 _].
  assert (I2 : is_infinite (mul (round false c t) f100) = false).
  { destruct (mul (round false c t) f100); try reflexivity. discriminate H. }
  destruct (mul_le _ _ _ _ F1 F1 (Qle_refl _) I2 I2) as (F2 & _ & _).
  destruct (to_int_spec _ F2) as (p' & E & Hf). fold f100 in E. rewrite E in H.
  injection H as <-. auto.
Qed.

(** The progress value does not decrease as the counter grows. *)
Lemma percent_le c1 c2 t p1 p2 :
  0 <= c1 <= c2 -> 0 < t ->
  percent c1 t = Returns p1 -> percent c2 t = Returns p2 -> p1 <= p2.
Proof.
  intros [H0 H] Ht E1 E2.
  destruct (percent_spec _ _ _ H0 Ht E1) as (I1 & J1 & _ & Fl1).
  destruct (percent_spec c2 t p2 ltac:(lia) Ht E2) as (I2 & J2 & _ & Fl2).
  apply (floor_of_le _ _ _ _ Fl1 Fl2).
  apply mul_le; try assumption; try (apply round_nonneg; [lia|assumption..]).
  apply round_le; try lia; try assumption. apply frac_le; assumption.
Qed.

Lemma percent_nonneg c t p :
  0 <= c -> 0 < t -> percent c t = Returns p -> 0 <= p.
Proof.
  intros Hc Ht E. destruct (percent_spec _ _ _ Hc Ht E) as (_ & _ & F & [_ U]).
  apply nonneg_finite_B2Q in F.
  assert (A : (inject_Z 0 < inject_Z (p + 1))%Q).
  { rewrite inject_Z_succ. change (inject_Z 0) with 0%Q. lra. }
  rewrite <- Zlt_Qlt in A. lia.
Qed.

(** The only exceptions of the computation with a divisor that is not 0 are
    overflows. *)
Lemma round_not_nan s n d : round s n d <> S754_nan.
Proof.
  unfold round, to_float. destruct n as [|p|p]; try discriminate.
  destruct (round_fraction (Z.pos p) d) as [m e]. destruct m as [|q|q]; try discriminate.
  destruct (Z.pos q =? 2 ^ prec).
  - destruct (e + 1 <=? emax - prec); discriminate.
  - destruct (e <=? emax - prec); discriminate.
Qed.

Lemma percent_Raises c t e :
  t <> 0 -> percent c t = Raises e -> exc_class e = OverflowError.
Proof.
  intros Ht. unfold percent, int_truediv. destruct (Z.eqb_spec t 0) as [|_]; [contradiction|].
  set (x := round _ _ _). destruct (is_infinite x) eqn:I1.
  - cbn [mbind outcome_bind]. intros H. injection H as <-. reflexivity.
  - unfold mul_int. rewrite of_int_100. cbn [mbind outcome_bind].
    assert (N : mul x f100 <> S754_nan).
    { pose proof (round_not_nan (xorb (c <? 0) (t <? 0)) (Z.abs c) (Z.abs t)) as Nx.
      fold x in Nx. unfold mul, f100.
      destruct x as [sx|sx| |sx mx ex]; try discriminate; [contradiction|].
      destruct (shift _ _ _). apply round_not_nan. }
    fold f100. destruct (mul x f100); cbn [to_int]; try discriminate;
      [|contradiction]. intros H. injection H as <-. reflexivity.
Qed.

(** The progress value, computed with the standard library's operations
    alone, for the ints that a float holds exactly. *)
Theorem percent_is_standard (chars_processed text_length : Z) :
  Z.abs chars_processed < 2 ^ prec -> text_length <> 0 ->
  Z.abs text_length < 2 ^ prec ->
  WorkerThread.percent chars_processed text_length =
  let x := ref_truediv chars_processed text_length in
  if is_infinite x
  then Raises (mkException OverflowError
                 (str "integer division result too large for a float"))
  else to_int (ref_mul x (ref_of_int 100)).
Proof.
  intros Hc Ht0 Ht. unfold WorkerThread.percent, int_truediv.
  destruct (Z.eqb_spec text_length 0) as [E|_]; [contradiction|].
  pose proof (round_valid (xorb (chars_processed <? 0) (text_length <? 0))
                (Z.abs chars_processed) (Z.abs text_length)
                ltac:(lia) ltac:(lia)) as V.
  rewrite (int_truediv_is_SFdiv _ _ Hc Ht0 Ht) in *.
  cbv zeta. destruct (is_infinite (ref_truediv chars_processed text_length));
    [reflexivity|].
  cbn [mbind outcome_bind]. unfold mul_int. rewrite of_int_100.
  cbn [mbind outcome_bind]. unfold ref_mul.
  rewrite (mul_is_SFmul _ f100 V eq_refl). reflexivity.
Qed.

End Percent.

(** ** The loop of [WorkerThread.run] *)

Section Loop.
Import WorkerThread.
Context {page Template : Type}.
Variable cancel_calls : nat -> bool.

#[local] Abbreviation at_read := (WorkerThread.at_read cancel_calls).
#[local] Abbreviation for_pages :=
  (WorkerThread.for_pages (page:=page) (Template:=Template) cancel_calls).

(** Nothing resets the flag. *)
Lemma at_read_set i (w : t Template) :
  is_cancelled w = true -> is_cancelled (at_read i w) = true.
Proof. unfold WorkerThread.at_read. destruct (cancel_calls i); [reflexivity|auto]. Qed.

Lemma at_read_unset i (w : t Template) :
  is_cancelled (at_read i w) = false ->
  at_read i w = w /\ cancel_calls i = false /\ is_cancelled w = false.
Proof.
  unfold WorkerThread.at_read. destruct (cancel_calls i); [discriminate|auto].
Qed.

Lemma at_read_quiet i (w : t Template) : cancel_calls i = false -> at_read i w = w.
Proof. unfold WorkerThread.at_read. intros ->. reflexivity. Qed.

Lemma at_read_text i (w : t Template) : text (at_read i w) = text w.
Proof. unfold WorkerThread.at_read. destruct (cancel_calls i); reflexivity. Qed.

(** The loop leaves the text of the object as it is. *)
Lemma for_pages_text L s pages fin :
  forall (fr : frame page Template) signals fr' exit,
    for_pages L s pages fin fr = (signals, fr', exit) ->
    text (self fr') = text (self fr).
Proof.
  induction pages as [|pg pages IH]; intros fr signals fr' exit H.
  - cbn in H. injection H as _ <- _. reflexivity.
  - cbn [WorkerThread.for_pages] in H.
    destruct (is_cancelled (at_read (reads fr) (self fr))).
    { injection H as _ <- _. apply at_read_text. }
    destruct (percent (chars_processed fr + s) L) as [p|e].
    2:{ injection H as _ <- _. apply at_read_text. }
    destruct (WorkerThread.for_pages _ _ _ _ _ _) as [[signals' fr''] exit'] eqn:Er.
    injection H as _ <- _. rewrite (IH _ _ _ _ Er). apply at_read_text.
Qed.

(** The signals of the loop are progress values between 0 and 95 that do
    not decrease, and none is below the value of a smaller counter. *)
Lemma for_pages_progress L s pages fin :
  0 < L -> 0 <= s ->
  forall (fr : frame page Template) signals fr' exit,
    for_pages L s pages fin fr = (signals, fr', exit) ->
    0 <= chars_processed fr ->
    exists vs, signals = map progressChanged vs /\
      Forall (fun v => 0 <= v <= 95) vs /\
      StronglySorted Z.le vs /\
      forall c0 p0, 0 <= c0 <= chars_processed fr + s ->
        percent c0 L = Returns p0 -> Forall (fun v => Z.min 95 p0 <= v) vs.
Proof.
  intros HL Hs. induction pages as [|pg pages IH]; intros fr signals fr' exit H Hc.
  - cbn in H. injection H as <- <- <-. exists []. repeat split; constructor.
  - cbn [WorkerThread.for_pages] in H.
    destruct (is_cancelled (at_read (reads fr) (self fr))).
    { injection H as <- <- <-. exists []. repeat split; constructor. }
    destruct (percent (chars_processed fr + s) L) as [p|e] eqn:Ep.
    2:{ injection H as <- <- <-. exists []. repeat split; constructor. }
    destruct (WorkerThread.for_pages _ _ _ _ _ _) as [[signals' fr''] exit'] eqn:Er.
    injection H as <- <- <-.
    destruct (IH _ _ _ _ Er ltac:(cbn; lia)) as (vs & -> & Hb & Hsort & Hlow).
    cbn [chars_processed] in Hlow.
    pose proof (percent_nonneg (chars_processed fr + s) L p ltac:(lia) HL Ep) as Hp.
    exists (Z.min 95 p :: vs). split; [reflexivity|]. split; [constructor; [lia|exact Hb]|].
    split.
    + constructor; [exact Hsort|]. apply (Hlow (chars_processed fr + s) p); [lia|exact Ep].
    + intros c0 p0 Hc0 E0. constructor.
      * pose proof (percent_le c0 (chars_processed fr + s) L p0 p ltac:(lia) HL E0 Ep). lia.
      * apply (Hlow c0 p0); [lia|exact E0].
Qed.

(** When the loop is left by [break], the flag is set. *)
Lemma for_pages_Break L s pages fin :
  forall (fr : frame page Template) signals fr',
    for_pages L s pages fin fr = (signals, fr', Break) ->
    is_cancelled (self fr') = true.
Proof.
  induction pages as [|pg pages IH]; intros fr signals fr' H.
  - cbn in H. destruct fin; discriminate.
  - cbn [WorkerThread.for_pages] in H.
    destruct (is_cancelled (at_read (reads fr) (self fr))) eqn:Ec.
    { injection H as <- <-. exact Ec. }
    destruct (percent (chars_processed fr + s) L) as [p|e]; [|discriminate].
    destruct (WorkerThread.for_pages _ _ _ _ _ _) as [[signals' fr''] exit'] eqn:Er.
    injection H as <- <- ->. exact (IH _ _ _ Er).
Qed.

(** The loop that nothing stops takes every page. *)
Lemma for_pages_all L s pages fin :
  forall fr : frame page Template,
    is_cancelled (self fr) = false ->
    (forall j, (j < length pages)%nat -> cancel_calls (reads fr + j) = false) ->
    (forall k, (1 <= k <= length pages)%nat ->
       exists p, percent (chars_processed fr + Z.of_nat k * s) L = Returns p) ->
    exists signals,
      for_pages L s pages fin fr =
        (signals,
         mkFrame (self fr) (result fr ++ pages)
           (chars_processed fr + Z.of_nat (length pages) * s)
           (reads fr + length pages),
         match fin with None => Exhausted | Some e => Raised e end) /\
      length signals = length pages.
Proof.
  induction pages as [|pg pages IH]; intros fr Hf Hq Hp.
  - exists []. cbn. rewrite app_nil_r, Z.add_0_r, Nat.add_0_r.
    destruct fr; split; reflexivity.
  - cbn [WorkerThread.for_pages].
    rewrite (at_read_quiet (reads fr)), Hf
      by (rewrite <- (Nat.add_0_r (reads fr)); apply Hq; cbn; lia).
    destruct (Hp 1%nat ltac:(cbn; lia)) as [p Ep]. rewrite Z.mul_1_l in Ep. rewrite Ep.
    destruct (IH (mkFrame (self fr) (result fr ++ [pg]) (chars_processed fr + s)
                    (S (reads fr)))) as (signals & E & Hl).
    + exact Hf.
    + intros j Hj. cbn [reads]. replace (S (reads fr) + j)%nat with (reads fr + S j)%nat by lia.
      apply Hq. cbn. lia.
    + intros k Hk. cbn [chars_processed]. destruct (Hp (S k) ltac:(cbn; lia)) as [q Eq].
      exists q. rewrite <- Eq. f_equal. lia.
    + rewrite E. cbn [self result chars_processed reads].
      exists (progressChanged (Z.min 95 p) :: signals). split; [|cbn; lia].
      rewrite <- app_assoc. cbn [app length].
      do 2 f_equal. f_equal; lia.
Qed.

(** The loop that is left by exhaustion has taken every page, and nothing
    stopped it. *)
Lemma for_pages_Exhausted L s pages fin :
  forall (fr : frame page Template) signals fr',
    for_pages L s pages fin fr = (signals, fr', Exhausted) ->
    fin = None /\
    (forall j, (j < length pages)%nat -> cancel_calls (reads fr + j) = false) /\
    (forall k, (1 <= k <= length pages)%nat ->
       exists p, percent (chars_processed fr + Z.of_nat k * s) L = Returns p) /\
    (pages <> [] -> is_cancelled (self fr) = false) /\
    self fr' = self fr /\ result fr' = result fr ++ pages /\
    reads fr' = (reads fr + length pages)%nat.
Proof.
  induction pages as [|pg pages IH]; intros fr signals fr' H.
  - cbn in H. destruct fin; [discriminate|]. injection H as <- <-.
    rewrite app_nil_r, Nat.add_0_r. repeat split; try reflexivity; try congruence;
      intros ? ?; cbn in *; lia.
  - cbn [WorkerThread.for_pages] in H.
    destruct (is_cancelled (at_read (reads fr) (self fr))) eqn:Ec; [discriminate|].
    destruct (at_read_unset _ _ Ec) as (Ea & Eq & Ef). rewrite Ea in H.
    destruct (percent (chars_processed fr + s) L) as [p|e] eqn:Ep; [|discriminate].
    destruct (WorkerThread.for_pages _ _ _ _ _ _) as [[signals' fr''] exit'] eqn:Er.
    injection H as <- <- ->.
    destruct (IH _ _ _ Er) as (Hfin & Hq & Hp & _ & Hs & Hr & Hn).
    cbn [self result chars_processed reads] in *.
    split; [exact Hfin|]. split.
    { intros [|j] Hj; [rewrite Nat.add_0_r; exact Eq|].
      replace (reads fr + S j)%nat with (S (reads fr) + j)%nat by lia.
      apply Hq. cbn in Hj. lia. }
    split.
    { intros [|[|k]] Hk; [lia| |].
      - exists p. rewrite <- Ep. f_equal. lia.
      - destruct (Hp (S k) ltac:(cbn in Hk; lia)) as [q Eq'].
        exists q. rewrite <- Eq'. f_equal. lia. }
    split; [intros _; exact Ef|]. split; [exact Hs|].
    split; [rewrite Hr, <- app_assoc; reflexivity|]. rewrite Hn. cbn. lia.
Qed.

(** A call of [cancel] before the read of iteration [k] stops the loop by
    then, unless an exception did before. *)
Lemma for_pages_cancelled L s pages fin :
  forall k (fr : frame page Template) signals fr' exit,
    (k < length pages)%nat -> cancel_calls (reads fr + k) = true ->
    for_pages L s pages fin fr = (signals, fr', exit) ->
    exit <> Exhausted /\ (length signals <= k)%nat.
Proof.
  induction pages as [|pg pages IH]; intros k fr signals fr' exit Hk Hc H.
  - cbn in Hk. lia.
  - cbn [WorkerThread.for_pages] in H.
    destruct (is_cancelled (at_read (reads fr) (self fr))) eqn:Ec.
    { injection H as <- <- <-. split; [discriminate|cbn; lia]. }
    destruct (at_read_unset _ _ Ec) as (_ & Eq & _).
    destruct k as [|k]; [rewrite Nat.add_0_r in Hc; congruence|].
    destruct (percent (chars_processed fr + s) L) as [p|e].
    2:{ injection H as <- <- <-. split; [discriminate|cbn; lia]. }
    destruct (WorkerThread.for_pages _ _ _ _ _ _) as [[signals' fr''] exit'] eqn:Er.
    injection H as <- <- <-.
    pose proof (fun A B => IH k _ _ _ _ A B Er) as IH'. cbn [reads] in IH'.
    destruct IH' as [Hx Hl]; [cbn in Hk; lia | rewrite <- Hc; f_equal; lia |].
    split; [exact Hx|cbn; lia].
Qed.

(** The loop whose progress computation overflows at iteration [k] is left
    by that exception. *)
Lemma for_pages_raise L s pages fin e :
  forall k (fr : frame page Template),
    (1 <= k <= length pages)%nat ->
    is_cancelled (self fr) = false ->
    (forall j, (j < k)%nat -> cancel_calls (reads fr + j) = false) ->
    (forall i, (1 <= i <= k - 1)%nat ->
       exists p, percent (chars_processed fr + Z.of_nat i * s) L = Returns p) ->
    percent (chars_processed fr + Z.of_nat k * s) L = Raises e ->
    exists signals fr', for_pages L s pages fin fr = (signals, fr', Raised e).
Proof.
  induction pages as [|pg pages IH]; intros k fr Hk Hf Hq Hp He; [cbn in Hk; lia|].
  cbn [WorkerThread.for_pages].
  rewrite (at_read_quiet (reads fr)), Hf
    by (rewrite <- (Nat.add_0_r (reads fr)); apply Hq; lia).
  destruct k as [|[|k]]; [lia| |].
  - rewrite Z.mul_1_l in He. rewrite He. eauto.
  - destruct (Hp 1%nat ltac:(lia)) as [p Ep]. rewrite Z.mul_1_l in Ep. rewrite Ep.
    destruct (IH (S k) (mkFrame (self fr) (result fr ++ [pg]) (chars_processed fr + s)
                          (S (reads fr)))) as (signals & fr' & E).
    + cbn in Hk. lia.
    + exact Hf.
    + intros j Hj. cbn [reads].
      replace (S (reads fr) + j)%nat with (reads fr + S j)%nat by lia. apply Hq. lia.
    + intros i Hi. cbn [chars_processed]. destruct (Hp (S i) ltac:(lia)) as [q Eq].
      exists q. rewrite <- Eq. f_equal. lia.
    + cbn [chars_processed]. rewrite <- He. f_equal. lia.
    + rewrite E. eauto.
Qed.

(** An exception that leaves the loop is the one the iterator ends with, or
    one of the progress computation at some iteration. *)
Lemma for_pages_Raised L s pages fin e :
  forall (fr : frame page Template) signals fr',
    for_pages L s pages fin fr = (signals, fr', Raised e) ->
    fin = Some e \/
    exists k, (1 <= k <= length pages)%nat /\
      percent (chars_processed fr + Z.of_nat k * s) L = Raises e.
Proof.
  induction pages as [|pg pages IH]; intros fr signals fr' H.
  - cbn in H. destruct fin as [e'|]; [|discriminate]. injection H as _ _ ->. left. reflexivity.
  - cbn [WorkerThread.for_pages] in H.
    destruct (is_cancelled (at_read (reads fr) (self fr))); [discriminate|].
    destruct (percent (chars_processed fr + s) L) as [p|e'] eqn:Ep.
    2:{ injection H as _ _ ->. right. exists 1%nat. split; [cbn; lia|].
        rewrite Z.mul_1_l. exact Ep. }
    destruct (WorkerThread.for_pages _ _ _ _ _ _) as [[signals' fr''] exit'] eqn:Er.
    injection H as _ _ ->.
    destruct (IH _ _ _ Er) as [Hfin|(k & Hk & Hp)]; [left; exact Hfin|].
    right. exists (S k). split; [cbn; lia|]. cbn [chars_processed] in Hp.
    rewrite <- Hp. f_equal. lia.
Qed.

End Loop.

(** ** [WorkerThread.run] *)

Section Run.
Import WorkerThread.
Context {page Template : Type}.
Variable handwrite : pystr -> Template -> outcome exception (page_iterator page).
Variable cancel_calls : nat -> bool.

#[local] Abbreviation run := (WorkerThread.run handwrite cancel_calls).
#[local] Abbreviation completes := (WorkerThread.completes handwrite cancel_calls).
#[local] Abbreviation for_pages :=
  (WorkerThread.for_pages (page:=page) (Template:=Template) cancel_calls).
#[local] Abbreviation pc := (@progressChanged page).

Lemma effective_text_nonempty (self : t Template) : effective_text self <> [].
Proof. unfold effective_text. destruct (text self); discriminate. Qed.

Lemma text_length_pos (self : t Template) : 1 <= text_length self.
Proof.
  unfold text_length, len. pose proof (effective_text_nonempty self).
  destruct (effective_text self); [contradiction|cbn; lia].
Qed.

Lemma progress_step_pos (self : t Template) : 1 <= progress_step self.
Proof. unfold progress_step. lia. Qed.

(** [run] with the two local constants named. *)
Lemma run_eq (self : t Template) :
  run self =
  match handwrite (effective_text self) (template self) with
  | Raises e => ([errorOccurred (describe e)], substitute_placeholder self)
  | Returns it =>
      let '(signals, fr, exit) :=
        for_pages (text_length self) (progress_step self) (yielded it) (finish it)
          (mkFrame (substitute_placeholder self) [] 0 0%nat) in
      match exit with
      | Raised e => (signals ++ [errorOccurred (describe e)], WorkerThread.self fr)
      | Exhausted | Break =>
          let '(last, self') := after_loop cancel_calls fr in (signals ++ last, self')
      end
  end.
Proof. reflexivity. Qed.

Lemma progress_values_app (l1 l2 : list (signal page)) :
  progress_values (l1 ++ l2) = progress_values l1 ++ progress_values l2.
Proof. apply omap_app. Qed.

Lemma progress_values_map (vs : list Z) : progress_values (map pc vs) = vs.
Proof. induction vs as [|v vs IH]; [reflexivity|]. cbn. f_equal. exact IH. Qed.

(** What the loop does when the task completes. *)
Lemma completes_loop (self : t Template) it :
  handwrite (effective_text self) (template self) = Returns it ->
  completes self ->
  exists signals chars,
    for_pages (text_length self) (progress_step self) (yielded it) (finish it)
      (mkFrame (substitute_placeholder self) [] 0 0%nat) =
    (signals,
     mkFrame (substitute_placeholder self) (yielded it) chars (length (yielded it)),
     Exhausted) /\
    is_cancelled self = false /\ cancel_calls (length (yielded it)) = false.
Proof.
  intros Eh (it' & Eh' & Hfin & [Hf Hq] & Hp). rewrite Eh in Eh'. injection Eh' as <-.
  destruct (for_pages_all cancel_calls (text_length self) (progress_step self)
              (yielded it) (finish it)
              (mkFrame (substitute_placeholder self) [] 0 0%nat))
    as (signals & E & _).
  - exact Hf.
  - intros j Hj. apply Hq. cbn. lia.
  - intros k Hk. exact (Hp k Hk).
  - rewrite Hfin in E |- *.
    cbn [WorkerThread.self result chars_processed reads app Nat.add] in E.
    eexists _, _. split; [exact E|]. split; [exact Hf|]. apply Hq. lia.
Qed.

(** The three ways [run] ends. *)
Lemma run_cases (self : t Template) :
  exists vs, Forall (fun v => 0 <= v <= 95) vs /\ StronglySorted Z.le vs /\
    ((exists e, fst (run self) = map pc vs ++ [errorOccurred (describe e)] /\
                ~ completes self) \/
     (fst (run self) = map pc vs /\ is_cancelled (snd (run self)) = true /\
      ~ completes self) \/
     (exists it, handwrite (effective_text self) (template self) = Returns it /\
                 fst (run self) = map pc vs ++ [pc 100; resultReady (yielded it)] /\
                 completes self)).
Proof.
  rewrite run_eq.
  destruct (handwrite (effective_text self) (template self)) as [it|e] eqn:Eh.
  2:{ exists []. split; [constructor|]. split; [constructor|]. left. exists e.
      split; [reflexivity|]. intros (it & E & _). congruence. }
  destruct (WorkerThread.for_pages _ _ _ _ _ _) as [[signals fr] exit] eqn:Er.
  assert (HL : 0 < text_length self) by (pose proof (text_length_pos self); lia).
  assert (Hstep : 0 <= progress_step self)
    by (pose proof (progress_step_pos self); lia).
  destruct (for_pages_progress cancel_calls _ _ _ _ HL Hstep _ _ _ _ Er (Z.le_refl 0))
    as (vs & -> & Hb & Hs & _).
  exists vs. split; [exact Hb|]. split; [exact Hs|].
  destruct exit as [| |e].
  - (* exhausted *)
    destruct (for_pages_Exhausted _ _ _ _ _ _ _ _ Er)
      as (Hfin & Hq & Hp & Hne & Hself & Hres & Hreads).
    cbn [WorkerThread.self result chars_processed reads app Nat.add] in *.
    unfold after_loop. rewrite Hself, Hreads, Hres.
    destruct (is_cancelled (WorkerThread.at_read cancel_calls (length (yielded it))
                              (substitute_placeholder self))) eqn:Ec.
    + right. left. cbn [negb fst snd]. rewrite app_nil_r.
      split; [reflexivity|]. split; [exact Ec|].
      intros Hc. destruct (completes_loop self it Eh Hc) as (_ & _ & _ & Hf & Hn).
      rewrite (at_read_quiet _ _ _ Hn) in Ec. cbn in Ec. congruence.
    + right. right. exists it. cbn [negb fst snd]. split; [reflexivity|].
      split; [reflexivity|].
      destruct (at_read_unset _ _ _ Ec) as (_ & Hn & Hf). cbn in Hf.
      exists it. split; [exact Eh|]. split; [exact Hfin|]. split.
      * split; [exact Hf|]. intros i Hi.
        destruct (Nat.eq_dec i (length (yielded it))) as [->|Hi']; [exact Hn|].
        apply Hq. lia.
      * intros k Hk. destruct (Hp k Hk) as [p Ep]. exists p. rewrite <- Ep.
        f_equal.
  - (* break *)
    pose proof (for_pages_Break _ _ _ _ _ _ _ _ Er) as Hc.
    unfold after_loop. rewrite (at_read_set _ _ _ Hc). cbn [negb fst snd].
    right. left. rewrite app_nil_r. split; [reflexivity|].
    split; [apply at_read_set; exact Hc|].
    intros Hcomp. destruct (completes_loop self it Eh Hcomp) as (? & ? & E & _).
    rewrite E in Er. discriminate Er.
  - (* an exception *)
    left. exists e. cbn [fst]. split; [reflexivity|].
    intros Hcomp. destruct (completes_loop self it Eh Hcomp) as (? & ? & E & _).
    rewrite E in Er. discriminate Er.
Qed.

Lemma StronglySorted_snoc (vs : list Z) (top : Z) :
  StronglySorted Z.le vs -> Forall (fun v => v <= top) vs ->
  StronglySorted Z.le (vs ++ [top]).
Proof.
  induction 1 as [|v vs Hs IH Hv]; intros Hb; cbn.
  - repeat constructor.
  - inversion Hb; subst. constructor; [apply IH; assumption|].
    apply Forall_app. split; [exact Hv|]. constructor; [assumption|constructor].
Qed.

(** C1. The progress values [run] emits do not decrease and lie in [0,100];
    those emitted in the loop are at most 95; and the value 100 is emitted,
    once and as the last progress value, exactly when the page-consumption
    loop finishes without cancellation and without an exception. *)
Theorem progress_values_of_run (self : t Template) :
  let vs := progress_values (fst (run self)) in
  Sorted Z.le vs /\
  Forall (fun v => 0 <= v <= 100) vs /\
  (completes self ->
     exists in_loop, vs = in_loop ++ [100] /\ Forall (fun v => 0 <= v <= 95) in_loop) /\
  (~ completes self -> Forall (fun v => 0 <= v <= 95) vs).
Proof.
  cbv zeta. destruct (run_cases self) as (vs & Hb & Hs & [H|[H|H]]).
  - destruct H as (e & -> & Hn). rewrite progress_values_app, progress_values_map.
    cbn [progress_values omap app]. rewrite app_nil_r.
    split; [apply StronglySorted_Sorted, Hs|].
    split; [eapply Forall_impl; [exact Hb|]; cbn; intros; lia|].
    split; [intros Hc; contradiction|]. intros _. exact Hb.
  - destruct H as (-> & _ & Hn). rewrite progress_values_map.
    split; [apply StronglySorted_Sorted, Hs|].
    split; [eapply Forall_impl; [exact Hb|]; cbn; intros; lia|].
    split; [intros Hc; contradiction|]. intros _. exact Hb.
  - destruct H as (it & _ & -> & Hc). rewrite progress_values_app, progress_values_map.
    change (progress_values [pc 100; resultReady (yielded it)]) with [100].
    split.
    { apply StronglySorted_Sorted, StronglySorted_snoc; [exact Hs|].
      eapply Forall_impl; [exact Hb|]. cbn. intros. lia. }
    split.
    { apply Forall_app. split; [|repeat constructor; lia].
      eapply Forall_impl; [exact Hb|]. cbn. intros. lia. }
    split; [intros _; exists vs; split; [reflexivity|exact Hb]|].
    intros Hn. contradiction.
Qed.

(** A sequence of signals splits in one way into progress signals followed
    by terminal ones. *)
Lemma split_unique vs vs' (t t' : list (signal page)) :
  map pc vs ++ t = map pc vs' ++ t' ->
  Forall (fun s => is_terminal s = true) t ->
  Forall (fun s => is_terminal s = true) t' ->
  vs = vs' /\ t = t'.
Proof.
  revert vs'. induction vs as [|v vs IH]; intros [|v' vs'] E Ht Ht'; cbn in E.
  - auto.
  - subst t. inversion Ht; subst. discriminate.
  - subst t'. inversion Ht'; subst. discriminate.
  - injection E as -> E. destruct (IH _ E Ht Ht') as [-> ->]. auto.
Qed.

(** An exception raised during page production gives an error signal. *)
Lemma run_raises (self : t Template) e :
  raises_in_run handwrite cancel_calls self e ->
  exists vs, fst (run self) = map pc vs ++ [errorOccurred (describe e)].
Proof.
  assert (HL : 0 < text_length self) by (pose proof (text_length_pos self); lia).
  assert (Hstep : 0 <= progress_step self)
    by (pose proof (progress_step_pos self); lia).
  rewrite run_eq. intros [[Eh|(it & Eh & Hfin & [Hf Hq] & Hp)]|H].
  - rewrite Eh. exists []. reflexivity.
  - rewrite Eh.
    destruct (for_pages_all cancel_calls (text_length self) (progress_step self)
                (yielded it) (finish it)
                (mkFrame (substitute_placeholder self) [] 0 0%nat))
      as (signals & E & _); [exact Hf | exact Hq | exact Hp |].
    rewrite E, Hfin.
    destruct (for_pages_progress cancel_calls _ _ _ _ HL Hstep _ _ _ _ E (Z.le_refl 0))
      as (vs & -> & _). exists vs. reflexivity.
  - destruct H as (it & k & Eh & Hk & [Hf Hq] & Hp & He). rewrite Eh.
    destruct (for_pages_raise cancel_calls (text_length self) (progress_step self)
                (yielded it) (finish it) e k
                (mkFrame (substitute_placeholder self) [] 0 0%nat) Hk Hf Hq Hp He)
      as (signals & fr' & E).
    rewrite E.
    destruct (for_pages_progress cancel_calls _ _ _ _ HL Hstep _ _ _ _ E (Z.le_refl 0))
      as (vs & -> & _). exists vs. reflexivity.
Qed.

(** C2. [run] emits progress signals and then one result, or one error, or
    nothing more; nothing more only when the flag is set; a result exactly
    when the loop finishes without cancellation and without an exception;
    and an exception raised during page production (by the renderer or by
    the progress computation) does not leave [run]: it gives the one error
    signal. *)
Theorem one_terminal_signal (self : t Template) :
  exists vs terminal,
    fst (run self) = map progressChanged vs ++ terminal /\
    (terminal = [] \/
     (exists images, terminal = [resultReady images]) \/
     (exists error_msg, terminal = [errorOccurred error_msg])) /\
    (terminal = [] -> is_cancelled (snd (run self)) = true) /\
    ((exists images, terminal = [resultReady images]) <-> completes self) /\
    (forall e, raises_in_run handwrite cancel_calls self e ->
               terminal = [errorOccurred (describe e)]).
Proof.
  destruct (run_cases self) as (vs & Hb & Hs & [H|[H|H]]).
  - destruct H as (e & E & Hn).
    exists vs, [errorOccurred (describe e)]. split; [exact E|].
    split; [right; right; eauto|]. split; [discriminate|].
    split; [split; [intros [? ?]; discriminate|intros; contradiction]|].
    intros e' He'. destruct (run_raises self e' He') as (vs' & E').
    rewrite E in E'. apply split_unique in E'; [tauto|repeat constructor..].
  - destruct H as (E & Hc & Hn). exists vs, []. rewrite app_nil_r.
    split; [exact E|]. split; [left; reflexivity|]. split; [intros _; exact Hc|].
    split; [split; [intros [? ?]; discriminate|intros; contradiction]|].
    intros e' He'. destruct (run_raises self e' He') as (vs' & E'). exfalso.
    rewrite E, <- (app_nil_r (map pc vs)) in E'.
    apply split_unique in E'; [destruct E'; discriminate|repeat constructor..].
  - destruct H as (it & _ & E & Hc).
    exists (vs ++ [100]), [resultReady (yielded it)].
    rewrite map_app, <- app_assoc. split; [exact E|].
    split; [right; left; eauto|]. split; [discriminate|].
    split; [split; [intros _; exact Hc|intros _; eauto]|].
    intros e' He'. destruct (run_raises self e' He') as (vs' & E'). exfalso.
    rewrite E in E'. change [pc 100; resultReady (yielded it)]
      with (map pc [100] ++ [resultReady (yielded it)]) in E'.
    rewrite app_assoc, <- map_app in E'.
    apply split_unique in E'; [destruct E'; discriminate|repeat constructor..].
Qed.

Lemma no_result_among_progress vs images : ~ In (resultReady images) (map pc vs).
Proof. intros H. apply in_map_iff in H. destruct H as (v & E & _). discriminate E. Qed.

(** C3. When [cancel] is called before the read of the flag at the top of
    iteration [k] of the loop, [run] emits no result, and no progress value
    besides those of the [k] iterations before, however many pages the result
    list holds by then. *)
Theorem cancelled_at_page_boundary (self : t Template) it k :
  handwrite (effective_text self) (template self) = Returns it ->
  (k < length (yielded it))%nat ->
  cancel_calls k = true ->
  (forall images, ~ In (resultReady images) (fst (run self))) /\
  (length (progress_values (fst (run self))) <= k)%nat.
Proof.
  intros Eh Hk Hc.
  assert (HL : 0 < text_length self) by (pose proof (text_length_pos self); lia).
  assert (Hstep : 0 <= progress_step self)
    by (pose proof (progress_step_pos self); lia).
  rewrite run_eq, Eh.
  destruct (WorkerThread.for_pages _ _ _ _ _ _) as [[signals fr] exit] eqn:Er.
  pose proof (fun A => for_pages_cancelled cancel_calls _ _ _ _ k _ _ _ _ Hk A Er) as X.
  cbn [reads Nat.add] in X. destruct (X Hc) as [Hx Hl]. clear X.
  destruct (for_pages_progress cancel_calls _ _ _ _ HL Hstep _ _ _ _ Er (Z.le_refl 0))
    as (vs & -> & _).
  rewrite length_map in Hl.
  destruct exit as [| |e]; [contradiction| |].
  - pose proof (for_pages_Break _ _ _ _ _ _ _ _ Er) as Hf.
    unfold after_loop. rewrite (at_read_set _ _ _ Hf). cbn [negb fst].
    rewrite app_nil_r, progress_values_map.
    split; [intros images; apply no_result_among_progress|exact Hl].
  - cbn [fst]. rewrite progress_values_app, progress_values_map.
    cbn [progress_values omap]. rewrite app_nil_r. split; [|exact Hl].
    intros images H. apply in_app_or in H. destruct H as [H|[H|[]]].
    + exact (no_result_among_progress _ _ H).
    + discriminate H.
Qed.

(** C6. An exception of the renderer gives the error signal with the fixed
    message when its text contains both "font.size" and "line_spacing", and
    with its own text otherwise. *)
Theorem renderer_error_message (self : t Template) e :
  renderer_raises handwrite cancel_calls self e ->
  exists vs,
    fst (run self) =
    map progressChanged vs ++
    [errorOccurred
       (if contains (str "font.size") (exc_str e) &&
           contains (str "line_spacing") (exc_str e)
        then clarified_message
        else exc_str e)].
Proof. intros H. apply (run_raises self e). left. exact H. Qed.

(** Where the message of an error signal of [run] comes from. *)
Lemma run_error_origin (self : t Template) error_msg :
  In (errorOccurred error_msg) (fst (run self)) ->
  exists e, error_msg = describe e /\
    (handwrite (effective_text self) (template self) = Raises e \/
     exists it, handwrite (effective_text self) (template self) = Returns it /\
       (finish it = Some e \/
        exists k, (1 <= k <= length (yielded it))%nat /\
          percent (Z.of_nat k * progress_step self) (text_length self) = Raises e)).
Proof.
  assert (Hpc : forall l, In (errorOccurred error_msg) (map pc l) -> False).
  { intros l Hl. apply in_map_iff in Hl. destruct Hl as (? & ? & _). discriminate. }
  assert (HL : 0 < text_length self) by (pose proof (text_length_pos self); lia).
  assert (Hstep : 0 <= progress_step self)
    by (pose proof (progress_step_pos self); lia).
  rewrite run_eq.
  destruct (handwrite (effective_text self) (template self)) as [it|e] eqn:Eh.
  2:{ cbn [fst]. intros [Hin|[]]. injection Hin as <-. exists e.
      split; [reflexivity|]. left. reflexivity. }
  destruct (WorkerThread.for_pages _ _ _ _ _ _) as [[signals fr] exit] eqn:Er.
  destruct (for_pages_progress cancel_calls _ _ _ _ HL Hstep _ _ _ _ Er (Z.le_refl 0))
    as (vs & -> & _).
  assert (Hlast : forall fr0 : frame page Template,
            In (errorOccurred error_msg)
               (fst (let '(last, self') := after_loop cancel_calls fr0 in
                     (map pc vs ++ last, self'))) -> False).
  { intros fr0. unfold after_loop. destruct (negb _); cbn [fst]; intros Hin;
      apply in_app_or in Hin; destruct Hin as [Hin|Hin]; try exact (Hpc _ Hin).
    - destruct Hin as [Hin|[Hin|[]]]; discriminate.
    - destruct Hin. }
  destruct exit as [| |e]; [intros Hin; destruct (Hlast _ Hin)..|].
  cbn [fst]. intros Hin. apply in_app_or in Hin. destruct Hin as [Hin|[Hin|[]]].
  { destruct (Hpc _ Hin). }
  injection Hin as <-. exists e. split; [reflexivity|]. right. exists it.
  split; [reflexivity|].
  destruct (for_pages_Raised cancel_calls _ _ _ _ _ _ _ _ Er) as [Hfin|(k & Hk & Hp)];
    [left; exact Hfin|].
  right. exists k. split; [exact Hk|]. cbn [chars_processed] in Hp.
  rewrite Z.add_0_l in Hp. exact Hp.
Qed.

(** C7. The renderer is called with the placeholder when the text is empty,
    and never with an empty text.  The text [run] hands to the renderer is
    [effective_text]: the run is the same for every renderer that answers
    alike on that one text, and it shows what the renderer answers there,
    its exception in the error signal and its pages in the result.  That
    text is the placeholder for an empty text and the text itself
    otherwise, it is never empty, and it is the text the object holds
    afterwards. *)
Theorem renderer_not_called_with_empty_text
    (handwrite' : pystr -> Template -> outcome exception (page_iterator page))
    (self : t Template) :
  (handwrite' (effective_text self) (template self)
     = handwrite (effective_text self) (template self) ->
   WorkerThread.run handwrite' cancel_calls self = run self) /\
  (forall e, handwrite (effective_text self) (template self) = Raises e ->
     run self = ([errorOccurred (describe e)], substitute_placeholder self)) /\
  (forall it, handwrite (effective_text self) (template self) = Returns it ->
     completes self ->
     exists vs, fst (run self) =
       map progressChanged vs ++ [progressChanged 100; resultReady (yielded it)]) /\
  effective_text self <> [] /\
  (text self = [] -> effective_text self = placeholder) /\
  (text self <> [] -> effective_text self = text self) /\
  text (snd (run self)) = effective_text self.
Proof.
  split; [|split; [|split]].
  - intros H. rewrite !run_eq. unfold WorkerThread.run.
    cbn [text template substitute_placeholder]. rewrite H. reflexivity.
  - intros e Eh. rewrite run_eq, Eh. reflexivity.
  - intros it Eh Hc. destruct (run_cases self) as (vs & _ & _ & [H|[H|H]]).
    + destruct H as (_ & _ & Hn). contradiction.
    + destruct H as (_ & _ & Hn). contradiction.
    + destruct H as (it' & Eh' & E & _). rewrite Eh in Eh'. injection Eh' as <-.
      exists vs. exact E.
  - split; [apply effective_text_nonempty|].
    split; [unfold effective_text; intros ->; reflexivity|].
    split; [unfold effective_text; destruct (text self); [congruence|reflexivity]|].
    rewrite run_eq.
    destruct (handwrite (effective_text self) (template self)) as [it|e];
      [|reflexivity].
    destruct (WorkerThread.for_pages _ _ _ _ _ _) as [[signals fr] exit] eqn:Er.
    pose proof (for_pages_text cancel_calls _ _ _ _ _ _ _ _ Er) as Ht.
    cbn [WorkerThread.self substitute_placeholder text] in Ht.
    destruct exit; [| |exact Ht]; unfold after_loop;
      destruct (negb _); cbn [snd]; rewrite at_read_text; exact Ht.
Qed.

(** C10. The divisions of the progress computation of [run] never divide by
    zero.  [run] computes the step and the progress values from the length
    of the text after the placeholder substitution, which is at least 1, as
    is the step; [text_length // 100] returns; and [chars_processed /
    text_length] raises nothing but an overflow.  So every error signal of
    [run] carries the message of an exception of the renderer or of an
    [OverflowError] of the progress computation, and a run whose renderer
    raises nothing and whose progress values do not overflow emits no error
    signal, the run on the empty text included. *)
Theorem progress_division_safe (self : t Template) :
  run self =
    match handwrite (effective_text self) (template self) with
    | Raises e => ([errorOccurred (describe e)], substitute_placeholder self)
    | Returns it =>
        let '(signals, fr, exit) :=
          for_pages (text_length self) (progress_step self) (yielded it) (finish it)
            (mkFrame (substitute_placeholder self) [] 0 0%nat) in
        match exit with
        | Raised e => (signals ++ [errorOccurred (describe e)], WorkerThread.self fr)
        | Exhausted | Break =>
            let '(last, self') := after_loop cancel_calls fr in (signals ++ last, self')
        end
    end /\
  1 <= text_length self /\
  1 <= progress_step self /\
  len (text (substitute_placeholder self)) = text_length self /\
  int_floordiv (text_length self) 100 = Returns (text_length self / 100) /\
  (forall chars_processed e,
     Float.int_truediv chars_processed (text_length self) = Raises e ->
     exc_class e = OverflowError) /\
  (forall chars_processed e,
     percent chars_processed (text_length self) = Raises e ->
     exc_class e = OverflowError) /\
  (forall error_msg, In (errorOccurred error_msg) (fst (run self)) ->
     exists e, error_msg = describe e /\
       (handwrite (effective_text self) (template self) = Raises e \/
        exists it, handwrite (effective_text self) (template self) = Returns it /\
          (finish it = Some e \/
           exc_class e = OverflowError /\
           exists k, (1 <= k <= length (yielded it))%nat /\
             percent (Z.of_nat k * progress_step self) (text_length self)
               = Raises e))) /\
  (forall it, handwrite (effective_text self) (template self) = Returns it ->
     finish it = None ->
     no_overflow_through (length (yielded it)) self ->
     forall error_msg, ~ In (errorOccurred error_msg) (fst (run self))).
Proof.
  pose proof (text_length_pos self) as HL.
  split; [apply run_eq|].
  split; [exact HL|]. split; [apply progress_step_pos|]. split; [reflexivity|].
  split; [reflexivity|]. split; [|split; [|split]].
  - intros c e. unfold Float.int_truediv.
    destruct (Z.eqb_spec (text_length self) 0) as [E|_]; [lia|].
    destruct (Float.is_infinite _); [|discriminate]. intros H. injection H as <-.
    reflexivity.
  - intros c e. apply percent_Raises. lia.
  - intros error_msg Hin.
    destruct (run_error_origin self error_msg Hin) as (e & -> & [Eh|(it & Eh & H)]).
    + exists e. split; [reflexivity|]. left. exact Eh.
    + exists e. split; [reflexivity|]. right. exists it. split; [exact Eh|].
      destruct H as [Hfin|(k & Hk & Hp)]; [left; exact Hfin|].
      right. split; [|exists k; split; [exact Hk|exact Hp]].
      eapply percent_Raises; [|exact Hp]. lia.
  - intros it Eh Hfin Hp error_msg Hin.
    destruct (run_error_origin self error_msg Hin) as (e & _ & [Eh'|(it' & Eh' & H)]).
    + congruence.
    + rewrite Eh in Eh'. injection Eh' as <-.
      destruct H as [Hfin'|(k & Hk & Hk')]; [congruence|].
      destruct (Hp k Hk) as [p Ep]. congruence.
Qed.

End Run.

(** ** PreviewManager *)

Section Paging.
Import PreviewManager.
Context {image : Type}.

Lemma perform_in_range (self : t image) c : in_range self -> in_range (perform self c).
Proof.
  unfold in_range. intros [H0 H].
  destruct c as [l| | |n]; cbn [perform].
  - unfold set_pages, len. cbn [current_page pages].
    destruct l; cbn [length]; [split; [lia|right; split; reflexivity]|].
    split; [lia|left; lia].
  - unfold next_page. destruct (Z.ltb_spec (current_page self) (len (pages self) - 1));
      cbn [fst current_page pages]; [split; [lia|left; lia]|auto].
  - unfold prev_page. destruct (Z.ltb_spec 0 (current_page self));
      cbn [fst current_page pages]; [|auto].
    split; [lia|]. destruct H as [H|[_ H]]; [left; lia|lia].
  - unfold go_to_page. destruct (Z.leb_spec 0 n); cbn [andb]; [|cbn [fst]; auto].
    destruct (Z.ltb_spec n (len (pages self))); cbn [fst current_page pages]; [|auto].
    split; [lia|left; lia].
Qed.

Lemma after_in_range (calls : list call) : in_range (after (image:=image) calls).
Proof.
  unfold after. assert (H : in_range (init (image:=image))).
  { unfold in_range. cbn. split; [lia|right; auto]. }
  revert H. generalize (init (image:=image)).
  induction calls as [|c calls IH]; intros self H; cbn; [exact H|].
  apply IH, perform_in_range, H.
Qed.

Lemma py_getitem_in_range (l : list image) i :
  0 <= i < len l -> exists p, l !! Z.to_nat i = Some p /\ py_getitem l i = Some p.
Proof.
  unfold len. intros H. destruct (lookup_lt_is_Some_2 l (Z.to_nat i) ltac:(lia)) as [p E].
  exists p. split; [exact E|]. unfold py_getitem.
  destruct (Z.ltb_spec i 0); [lia|exact E].
Qed.

Lemma next_page_spec (self : t image) :
  (snd (next_page self) = true <->
   current_page (fst (next_page self)) <> current_page self) /\
  (snd (next_page self) = false -> fst (next_page self) = self).
Proof.
  unfold next_page.
  destruct (current_page self <? len (pages self) - 1); cbn [fst snd current_page].
  - split; [split; [intros _; lia|reflexivity]|discriminate].
  - split; [split; [discriminate|intros H; contradiction H; reflexivity]|reflexivity].
Qed.

Lemma prev_page_spec (self : t image) :
  (snd (prev_page self) = true <->
   current_page (fst (prev_page self)) <> current_page self) /\
  (snd (prev_page self) = false -> fst (prev_page self) = self).
Proof.
  unfold prev_page. destruct (0 <? current_page self); cbn [fst snd current_page].
  - split; [split; [intros _; lia|reflexivity]|discriminate].
  - split; [split; [discriminate|intros H; contradiction H; reflexivity]|reflexivity].
Qed.

Lemma go_to_page_spec (self : t image) page_num :
  (snd (go_to_page page_num self) = true <-> 0 <= page_num < len (pages self)) /\
  (snd (go_to_page page_num self) = true ->
   fst (go_to_page page_num self) = mk (pages self) page_num) /\
  (snd (go_to_page page_num self) = false -> fst (go_to_page page_num self) = self).
Proof.
  unfold go_to_page.
  destruct (Z.leb_spec 0 page_num); destruct (Z.ltb_spec page_num (len (pages self)));
    cbn [andb fst snd].
  - split; [split; [intros _; lia|reflexivity]|]. split; [reflexivity|discriminate].
  - split; [split; [discriminate|lia]|]. split; [discriminate|reflexivity].
  - split; [split; [discriminate|lia]|]. split; [discriminate|reflexivity].
  - split; [split; [discriminate|lia]|]. split; [discriminate|reflexivity].
Qed.

(** C8, as the code has it.  After any sequence of calls the index of the
    current page is in range (0 when there is no page); [get_current_page]
    returns [None] exactly when there is no page, and the current page
    otherwise; [next_page] and [prev_page] return [True] exactly when they
    change the index; [go_to_page] returns [True] exactly when its argument
    is in range, and the index is then its argument; the three leave the
    object as it is when they return [False]. *)
Theorem paging_keeps_index_in_range (calls : list call) :
  let self := after (image:=image) calls in
  in_range self /\
  (pages self <> [] -> 0 <= current_page self <= len (pages self) - 1) /\
  (get_current_page self = Returns None <-> pages self = []) /\
  (pages self <> [] ->
   exists p, pages self !! Z.to_nat (current_page self) = Some p /\
             get_current_page self = Returns (Some p)) /\
  (snd (next_page self) = true <->
   current_page (fst (next_page self)) <> current_page self) /\
  (snd (next_page self) = false -> fst (next_page self) = self) /\
  (snd (prev_page self) = true <->
   current_page (fst (prev_page self)) <> current_page self) /\
  (snd (prev_page self) = false -> fst (prev_page self) = self) /\
  (forall page_num,
     (snd (go_to_page page_num self) = true <-> 0 <= page_num < len (pages self)) /\
     (snd (go_to_page page_num self) = true ->
      fst (go_to_page page_num self) = mk (pages self) page_num) /\
     (snd (go_to_page page_num self) = false -> fst (go_to_page page_num self) = self)).
Proof.
  cbv zeta. pose proof (after_in_range calls) as Hr.
  set (self := after calls) in *. split; [exact Hr|].
  destruct Hr as [H0 H].
  assert (Hne : pages self <> [] -> 0 <= current_page self < len (pages self)).
  { intros Hp. destruct H as [H|[H _]]; [lia|contradiction]. }
  split; [intros Hp; specialize (Hne Hp); lia|].
  split.
  { unfold get_current_page. destruct (pages self) as [|p ps] eqn:Ep; [tauto|].
    destruct (py_getitem_in_range (p :: ps) (current_page self)) as (q & _ & ->);
      [apply Hne; discriminate|]. split; discriminate. }
  split.
  { intros Hp. destruct (py_getitem_in_range (pages self) (current_page self) (Hne Hp))
      as (q & E1 & E2). exists q. split; [exact E1|]. unfold get_current_page.
    destruct (pages self); [contradiction|]. rewrite E2. reflexivity. }
  split; [apply next_page_spec|]. split; [apply next_page_spec|].
  split; [apply prev_page_spec|]. split; [apply prev_page_spec|].
  apply go_to_page_spec.
Qed.

End Paging.

(** C8 as stated fails for [go_to_page]: on a single page, [go_to_page(0)]
    returns [True] and the index is what it was. *)
Lemma go_to_current_page_returns_true :
  let self := PreviewManager.after [PreviewManager.SetPages [tt]] in
  snd (PreviewManager.go_to_page 0 self) = true /\
  PreviewManager.current_page (fst (PreviewManager.go_to_page 0 self))
    = PreviewManager.current_page self.
Proof. split; reflexivity. Qed.

(** ** The subscriber and the empty result *)

Section Subscriber.
Import WorkerThread PreviewWidget.
Context {page Template : Type}.
Variable handwrite : pystr -> Template -> outcome exception (page_iterator page).
Variable cancel_calls : nat -> bool.
Variable error_image : pystr -> page.

#[local] Abbreviation go_to_page := (PreviewWidget.go_to_page (image:=page)).
#[local] Abbreviation handle_preview_error :=
  (PreviewWidget.handle_preview_error error_image).
#[local] Abbreviation handle_preview_result :=
  (PreviewWidget.handle_preview_result error_image).

(** The slot does nothing for the number of the page that is shown. *)
Lemma go_to_page_shown depth (self : PreviewWidget.t page) :
  go_to_page (S depth)
    (PreviewManager.current_page (preview_manager self) + 1) self = Returns self.
Proof.
  cbn [PreviewWidget.go_to_page]. unfold PreviewNavigation.go_to_page.
  rewrite Z.eqb_refl. reflexivity.
Qed.

Lemma go_to_page_first depth (pages : list page) ws sb :
  go_to_page (S depth) 1 (PreviewWidget.mk (PreviewManager.mk pages 0) ws sb) =
  Returns (PreviewWidget.mk (PreviewManager.mk pages 0) ws sb).
Proof.
  exact (go_to_page_shown depth (PreviewWidget.mk (PreviewManager.mk pages 0) ws sb)).
Qed.

(** [show_current_page] leaves a spin box that holds the number of the
    current page as it is. *)
Lemma show_current_page_synced (valueChanged : slot) (self : PreviewWidget.t page) :
  let m := preview_manager self in
  0 <= PreviewManager.current_page m < len (PreviewManager.pages m) ->
  MainWindow.minimum (page_spin self) <= PreviewManager.current_page m + 1
    <= MainWindow.maximum (page_spin self) ->
  MainWindow.value (page_spin self) = PreviewManager.current_page m + 1 ->
  show_current_page valueChanged self = Returns self.
Proof.
  cbv zeta. destruct self as [[pages cur] ws [lo hi v]].
  cbn [preview_manager page_spin PreviewManager.pages PreviewManager.current_page
       MainWindow.minimum MainWindow.maximum MainWindow.value].
  intros Hc Hr ->. unfold show_current_page, PreviewManager.get_current_page.
  cbn [preview_manager page_spin warnings PreviewManager.pages
       PreviewManager.current_page].
  destruct (py_getitem_in_range pages cur Hc) as (p & _ & E).
  destruct pages as [|p0 pages]; [unfold len in Hc; cbn [length] in Hc; lia|]. rewrite E.
  unfold write_page_spin, MainWindow.setValue.
  cbn [preview_manager page_spin warnings MainWindow.minimum MainWindow.maximum
       MainWindow.value].
  replace (Z.max lo (Z.min hi (cur + 1))) with (cur + 1) by lia.
  rewrite Z.eqb_refl. reflexivity.
Qed.

(** [show_current_page] on the first page sets the spin box to 1. *)
Lemma show_current_page_first depth p pages ws sb :
  MainWindow.minimum sb <= 1 <= MainWindow.maximum sb ->
  show_current_page (go_to_page (S depth))
    (PreviewWidget.mk (PreviewManager.mk (p :: pages) 0) ws sb) =
  Returns (PreviewWidget.mk (PreviewManager.mk (p :: pages) 0) ws
             (MainWindow.mkSpinbox (MainWindow.minimum sb) (MainWindow.maximum sb) 1)).
Proof.
  intros Hr. unfold show_current_page, PreviewManager.get_current_page.
  cbn [preview_manager page_spin warnings PreviewManager.pages
       PreviewManager.current_page].
  change (py_getitem (p :: pages) 0) with (Some p).
  unfold write_page_spin, MainWindow.setValue.
  cbn [preview_manager page_spin warnings MainWindow.minimum MainWindow.maximum
       MainWindow.value].
  replace (Z.max (MainWindow.minimum sb) (Z.min (MainWindow.maximum sb) (0 + 1)))
    with 1 by lia.
  destruct (1 =? MainWindow.value sb); [reflexivity|].
  apply go_to_page_first.
Qed.

(** What [handle_preview_error] does once the box is closed. *)
Lemma handle_preview_error_closed depth box error_msg (self w1 : PreviewWidget.t page) :
  box (warning error_msg self) = Returns w1 ->
  MainWindow.minimum (page_spin w1) <= 1 <= MainWindow.maximum (page_spin w1) ->
  handle_preview_error (S depth) box error_msg self =
  Returns
    match PreviewManager.pages (preview_manager w1) with
    | [] =>
        PreviewWidget.mk (PreviewManager.mk [error_image error_msg] 0) (warnings w1)
          (MainWindow.mkSpinbox (MainWindow.minimum (page_spin w1))
             (MainWindow.maximum (page_spin w1)) 1)
    | _ :: _ => w1
    end.
Proof.
  intros Hb Hr. unfold PreviewWidget.handle_preview_error. rewrite Hb.
  cbn [mbind outcome_bind].
  destruct (PreviewManager.pages (preview_manager w1)); [|reflexivity].
  unfold PreviewManager.set_pages. apply show_current_page_first. exact Hr.
Qed.

(** The slot called with the number of the last page, which the spin box
    holds, makes it the current page. *)
Lemma go_to_page_last depth p images ws n :
  n = len (p :: images) ->
  go_to_page (S depth) n
    (PreviewWidget.mk (PreviewManager.mk (p :: images) 0) ws
       (MainWindow.mkSpinbox 1 n n)) =
  Returns (PreviewWidget.mk (PreviewManager.mk (p :: images) (n - 1)) ws
             (MainWindow.mkSpinbox 1 n n)).
Proof.
  intros En.
  assert (Hn : 1 <= n) by (subst n; unfold len; cbn [length]; lia).
  cbn [PreviewWidget.go_to_page]. unfold PreviewNavigation.go_to_page.
  cbn [PreviewManager.current_page preview_manager warnings page_spin].
  change (0 + 1) with 1.
  destruct (Z.eqb_spec n 1) as [E|E]; cbn [negb].
  - rewrite E. reflexivity.
  - unfold PreviewManager.go_to_page. cbn [PreviewManager.pages]. rewrite <- En.
    destruct (Z.leb_spec 0 (n - 1)) as [_|]; [|lia].
    destruct (Z.ltb_spec (n - 1) n) as [_|]; [|lia]. cbn [andb].
    apply show_current_page_synced; cbn; rewrite <- ?En; lia.
Qed.

(** What [handle_preview_result] does with a result that is not empty: the
    pages are stored; the page shown is the first one, unless the spin box
    held a number above the number of pages, which [setMaximum] lowers to
    that number: then [go_to_page] makes it the last one. *)
Lemma handle_preview_result_stored depth box p images (self : PreviewWidget.t page) :
  MainWindow.minimum (page_spin self) = 1 ->
  let n := len (p :: images) in
  let above := n <? MainWindow.value (page_spin self) in
  handle_preview_result (S depth) box (p :: images) self =
  Returns
    (PreviewWidget.mk
       (PreviewManager.mk (p :: images) (if above then n - 1 else 0))
       (warnings self)
       (MainWindow.mkSpinbox 1 n (if above then n else 1))).
Proof.
  destruct self as [m ws [lo hi v]].
  cbn [page_spin MainWindow.minimum MainWindow.value warnings]. intros ->. cbv zeta.
  remember (len (p :: images)) as n eqn:En.
  assert (Hn : 1 <= n) by (subst n; unfold len; cbn [length]; lia).
  unfold PreviewWidget.handle_preview_result, PreviewManager.set_pages.
  cbn [preview_manager warnings page_spin]. rewrite <- En.
  unfold setMaximum. cbn [MainWindow.minimum MainWindow.maximum MainWindow.value].
  replace (Z.max 1 n) with n by lia. replace (Z.min 1 n) with 1 by lia.
  unfold write_page_spin.
  cbn [preview_manager warnings page_spin MainWindow.value].
  destruct (Z.ltb_spec n v) as [Hv|Hv].
  - (* the value is lowered to [n] *)
    replace (Z.max 1 (Z.min n v)) with n by lia.
    destruct (Z.eqb_spec n v) as [|_]; [lia|].
    rewrite (go_to_page_last depth p images ws n En). cbn [mbind outcome_bind].
    apply show_current_page_synced; cbn; rewrite <- ?En; lia.
  - destruct (Z.eqb_spec (Z.max 1 (Z.min n v)) v) as [E|E].
    + cbn [mbind outcome_bind]. rewrite show_current_page_first by (cbn; lia).
      reflexivity.
    + assert (Ev : Z.max 1 (Z.min n v) = 1) by lia. rewrite Ev.
      rewrite go_to_page_first.
      cbn [mbind outcome_bind]. rewrite show_current_page_first by (cbn; lia).
      reflexivity.
Qed.

(** The slots leave the pages and the warnings as they are. *)
Lemma navigation_go_to_page_pages page_num (m m' : PreviewManager.t page) refresh :
  PreviewNavigation.go_to_page page_num m = (m', refresh) ->
  PreviewManager.pages m' = PreviewManager.pages m.
Proof.
  unfold PreviewNavigation.go_to_page, PreviewManager.go_to_page.
  destruct (negb _); [|intros [= <- _]; reflexivity].
  destruct (_ && _); intros [= <- _]; reflexivity.
Qed.

Lemma write_page_spin_pages (valueChanged : slot) sb (self w' : PreviewWidget.t page) :
  (forall page_num v v', valueChanged page_num v = Returns v' ->
     PreviewManager.pages (preview_manager v') = PreviewManager.pages (preview_manager v)
     /\ warnings v' = warnings v) ->
  write_page_spin valueChanged sb self = Returns w' ->
  PreviewManager.pages (preview_manager w') = PreviewManager.pages (preview_manager self)
  /\ warnings w' = warnings self.
Proof.
  intros Hs. unfold write_page_spin. destruct (_ =? _).
  - intros [= <-]. split; reflexivity.
  - intros H. apply Hs in H. exact H.
Qed.

Lemma show_current_page_pages (valueChanged : slot) (self w' : PreviewWidget.t page) :
  (forall page_num v v', valueChanged page_num v = Returns v' ->
     PreviewManager.pages (preview_manager v') = PreviewManager.pages (preview_manager v)
     /\ warnings v' = warnings v) ->
  show_current_page valueChanged self = Returns w' ->
  PreviewManager.pages (preview_manager w') = PreviewManager.pages (preview_manager self)
  /\ warnings w' = warnings self.
Proof.
  intros Hs. unfold show_current_page.
  destruct (PreviewManager.get_current_page _) as [[p|]|]; [| |discriminate].
  - apply write_page_spin_pages. exact Hs.
  - intros [= <-]. split; reflexivity.
Qed.

Lemma go_to_page_pages depth :
  forall page_num (v v' : PreviewWidget.t page),
    go_to_page depth page_num v = Returns v' ->
    PreviewManager.pages (preview_manager v') = PreviewManager.pages (preview_manager v)
    /\ warnings v' = warnings v.
Proof.
  induction depth as [|depth IH]; intros page_num v v'; [discriminate|].
  cbn [PreviewWidget.go_to_page].
  destruct (PreviewNavigation.go_to_page page_num (preview_manager v))
    as [m refresh] eqn:E.
  apply navigation_go_to_page_pages in E. destruct refresh.
  - intros H. apply (show_current_page_pages _ _ _ IH) in H.
    cbn [preview_manager warnings] in H. rewrite E in H. exact H.
  - intros [= <-]. split; reflexivity.
Qed.

(** The cache holds a page after any result. *)
Lemma handle_preview_result_nonempty depth box images (self w' : PreviewWidget.t page) :
  handle_preview_result depth box images self = Returns w' ->
  PreviewManager.pages (preview_manager w') <> [].
Proof.
  destruct images as [|p images]; cbn [PreviewWidget.handle_preview_result].
  - unfold PreviewWidget.handle_preview_error.
    destruct (box _) as [w1|]; [|discriminate]. cbn [mbind outcome_bind].
    destruct (PreviewManager.pages (preview_manager w1)) as [|q qs] eqn:Ep.
    + intros H. apply (show_current_page_pages _ _ _ (go_to_page_pages depth)) in H.
      destruct H as [H _]. rewrite H. discriminate.
    + intros [= <-]. rewrite Ep. discriminate.
  - destruct (write_page_spin _ _ _) as [w1|] eqn:E1; [|discriminate].
    cbn [mbind outcome_bind]. intros H.
    apply (write_page_spin_pages _ _ _ _ (go_to_page_pages depth)) in E1.
    apply (show_current_page_pages _ _ _ (go_to_page_pages depth)) in H.
    destruct H as [H _]. destruct E1 as [E1 _]. rewrite H, E1. discriminate.
Qed.

(** C4, as the code has it.  When the renderer yields no page and the task is
    not cancelled, [run] emits 100 and then an empty result, and no error;
    it is the subscriber that turns the empty result into the error "no
    output produced": [handle_preview_result] hands the fixed message to
    [handle_preview_error], which shows it in a warning box and, when the
    cache is empty once the box is closed, stores the error image as the
    only page and shows it; otherwise the widget is left as the box leaves
    it.  The cache holds at least one page after any result.  A result that
    is not empty is stored as it is, and its first page is shown, unless
    the spin box held a number above the number of pages: then the last
    page is shown. *)
Theorem empty_result_handled_by_subscriber
    (self : WorkerThread.t Template) (it : page_iterator page)
    (depth : nat) (w : PreviewWidget.t page) :
  handwrite (effective_text self) (template self) = Returns it ->
  yielded it = [] -> finish it = None ->
  WorkerThread.is_cancelled self = false -> cancel_calls 0 = false ->
  let signals := fst (WorkerThread.run handwrite cancel_calls self) in
  signals = [progressChanged 100; resultReady []] /\
  deliver_all error_image (S depth) (map (fun s => Notify s []) signals) w =
    handle_preview_error (S depth) Returns no_output_message w /\
  (forall box,
     handle_preview_result (S depth) box [] w =
     handle_preview_error (S depth) box no_output_message w) /\
  (forall box w1,
     box (warning no_output_message w) = Returns w1 ->
     MainWindow.minimum (page_spin w1) <= 1 <= MainWindow.maximum (page_spin w1) ->
     handle_preview_error (S depth) box no_output_message w =
     Returns
       match PreviewManager.pages (preview_manager w1) with
       | [] =>
           PreviewWidget.mk (PreviewManager.mk [error_image no_output_message] 0)
             (warnings w1)
             (MainWindow.mkSpinbox (MainWindow.minimum (page_spin w1))
                (MainWindow.maximum (page_spin w1)) 1)
       | _ :: _ => w1
       end) /\
  (forall box images w',
     handle_preview_result depth box images w = Returns w' ->
     PreviewManager.pages (preview_manager w') <> []) /\
  (forall box p images,
     MainWindow.minimum (page_spin w) = 1 ->
     let n := len (p :: images) in
     let above := n <? MainWindow.value (page_spin w) in
     handle_preview_result (S depth) box (p :: images) w =
     Returns
       (PreviewWidget.mk
          (PreviewManager.mk (p :: images) (if above then n - 1 else 0))
          (warnings w)
          (MainWindow.mkSpinbox 1 n (if above then n else 1)))).
Proof.
  intros Eh Hy Hfin Hf Hc. cbv zeta.
  assert (E : fst (WorkerThread.run handwrite cancel_calls self)
              = [progressChanged 100; resultReady []]).
  { rewrite run_eq, Eh, Hy, Hfin. cbn [WorkerThread.for_pages].
    unfold after_loop. cbn [reads WorkerThread.self].
    rewrite (at_read_quiet _ _ _ Hc). cbn [substitute_placeholder WorkerThread.is_cancelled].
    rewrite Hf. reflexivity. }
  rewrite E. split; [reflexivity|]. split.
  { cbn [map deliver_all deliver mbind outcome_bind handle_preview_result].
    unfold PreviewWidget.handle_preview_error.
    destruct (_ ← Returns (warning no_output_message w); _); reflexivity. }
  split; [reflexivity|].
  split; [intros box w1; apply handle_preview_error_closed|].
  split; [intros box images w'; apply handle_preview_result_nonempty|].
  intros box p images. apply handle_preview_result_stored.
Qed.

End Subscriber.

(** ** The worker threads of the preview pipeline *)

Section Threads.
Import Pipeline.

Lemma cancel_superseded i st :
  superseded_are_cancelled st -> superseded_are_cancelled (cancel i st).
Proof.
  intros H j th. unfold cancel. cbn [threads worker].
  destruct (decide (i = j)) as [->|Hij].
  - rewrite list_lookup_alter_eq. destruct (threads st !! j); cbn; [|discriminate].
    intros E. injection E as <-. reflexivity.
  - rewrite list_lookup_alter_ne by exact Hij. apply H.
Qed.

Lemma finished_superseded i st :
  superseded_are_cancelled st -> superseded_are_cancelled (finished i st).
Proof.
  intros H j th. unfold finished. cbn [threads worker].
  destruct (decide (i = j)) as [->|Hij].
  - rewrite list_lookup_alter_eq. destruct (threads st !! j); cbn; [|discriminate].
    intros E. injection E as <-. discriminate.
  - rewrite list_lookup_alter_ne by exact Hij. apply H.
Qed.

(** After the first statement of [update_preview], every running worker
    has been told to stop. *)
Lemma cancel_previous_all b st :
  superseded_are_cancelled st ->
  forall i th, threads (cancel_previous b st) !! i = Some th ->
               running th = true -> is_cancelled th = true.
Proof.
  intros H i th. unfold cancel_previous.
  destruct (worker st) as [w|] eqn:Ew; [|intros E R; apply (H i th E R); congruence].
  unfold isRunning. destruct (threads st !! w) as [tw|] eqn:Etw.
  2:{ intros E R. apply (H i th E R). rewrite Ew. congruence. }
  destruct (running tw) eqn:Rw.
  - assert (A : forall j tj, threads (cancel w st) !! j = Some tj ->
                  running tj = true -> is_cancelled tj = true).
    { intros j tj. unfold cancel. cbn [threads].
      destruct (decide (w = j)) as [->|Hwj].
      - rewrite list_lookup_alter_eq, Etw. cbn. intros E. injection E as <-. reflexivity.
      - rewrite list_lookup_alter_ne by exact Hwj. intros E R.
        apply (H j tj E R). rewrite Ew. congruence. }
    destruct b; [|apply A].
    unfold finished. cbn [threads]. destruct (decide (w = i)) as [->|Hwi].
    + rewrite list_lookup_alter_eq.
      destruct (threads (cancel i st) !! i) as [ti|]; cbn [fmap option_fmap option_map];
        [|discriminate].
      intros E. injection E as <-. discriminate.
    + rewrite list_lookup_alter_ne by exact Hwi. apply A.
  - intros E R. destruct (decide (w = i)) as [->|Hwi]; [congruence|].
    apply (H i th E R). rewrite Ew. congruence.
Qed.

Lemma update_preview_superseded b st :
  superseded_are_cancelled st -> superseded_are_cancelled (update_preview b st).
Proof.
  intros H i th. unfold update_preview, start_new. cbn [threads worker].
  intros E R Hw. apply lookup_app_Some in E. destruct E as [E|[Hl E]].
  - exact (cancel_previous_all b st H i th E R).
  - exfalso. apply Hw. f_equal. apply list_lookup_singleton_Some in E. lia.
Qed.

Lemma after_superseded events : superseded_are_cancelled (after events).
Proof.
  unfold after. assert (H : superseded_are_cancelled init) by (intros i th E; discriminate E).
  revert H. generalize init. induction events as [|ev events IH]; intros st H; [exact H|].
  cbn [fold_left]. apply IH. destruct ev as [b|i|i]; cbn [step].
  - apply update_preview_superseded, H.
  - apply finished_superseded, H.
  - apply cancel_superseded, H.
Qed.

(** C5, as the code has it.  When [update_preview] finds the previous worker
    running, the flag of that worker is set in the state in which the new
    worker is created and started; the wait for it is bounded, so it may
    still be running then; and at any time every running worker but the
    current one has its flag set. *)
Theorem running_worker_is_cancelled_first (events : list event) (stopped_in_time : bool) :
  let st := after events in
  (forall w, worker st = Some w -> isRunning w st = true ->
     exists th, threads (cancel_previous stopped_in_time st) !! w = Some th /\
                is_cancelled th = true /\ running th = negb stopped_in_time) /\
  threads (update_preview stopped_in_time st)
    = threads (cancel_previous stopped_in_time st) ++ [mkThread false true] /\
  worker (update_preview stopped_in_time st) = Some (length (threads st)) /\
  (forall i th, threads (cancel_previous stopped_in_time st) !! i = Some th ->
     running th = true -> is_cancelled th = true) /\
  superseded_are_cancelled st.
Proof.
  cbv zeta. pose proof (after_superseded events) as Hinv. set (st := after events) in *.
  split.
  { intros w Ew Hr. unfold cancel_previous. rewrite Ew, Hr.
    unfold isRunning in Hr. destruct (threads st !! w) as [tw|] eqn:Etw; [|discriminate].
    destruct stopped_in_time; unfold finished, cancel; cbn [threads negb].
    - rewrite !list_lookup_alter_eq, Etw. cbn. eauto.
    - rewrite list_lookup_alter_eq, Etw. cbn. eauto. }
  split; [reflexivity|]. split.
  { unfold update_preview, start_new. cbn [worker]. f_equal.
    unfold cancel_previous. destruct (worker st) as [w|]; [|reflexivity].
    destruct (isRunning w st); [|reflexivity].
    destruct stopped_in_time; unfold finished, cancel; cbn [threads];
      rewrite ?length_alter; reflexivity. }
  split; [apply cancel_previous_all, Hinv|exact Hinv].
Qed.

End Threads.

(** C5 as stated fails: two calls of [update_preview], the first worker not
    ending within the 100 ms of the wait, leave two workers running. *)
Lemma two_workers_running :
  Pipeline.running_workers
    (Pipeline.after [Pipeline.UpdatePreview false; Pipeline.UpdatePreview false])
  = [0; 1]%nat.
Proof. reflexivity. Qed.

(** [export_image] starts its worker without a call of [cancel] on the one
    before. *)
Lemma export_image_does_not_cancel st :
  firstn (length (MainWindow.export_threads st))
    (MainWindow.export_threads (MainWindow.export_image_start st))
  = MainWindow.export_threads st.
Proof.
  unfold MainWindow.export_image_start. cbn [MainWindow.export_threads].
  rewrite firstn_app, Nat.sub_diag, firstn_all. apply app_nil_r.
Qed.

(** ** Floats: quotients that are cut to an integer, and exact products *)

Section FloatFloor.
Import Float FloatSpec.

#[local] Opaque bpow.

Lemma mag_upper x k K : (bpow (k - 1) <= x)%Q -> (x < bpow K)%Q -> k <= K.
Proof.
  intros H1 H2. destruct (Z_le_gt_dec k K) as [L|G]; [exact L|exfalso].
  assert (B : (bpow K <= bpow (k - 1))%Q) by (apply bpow_le; lia). lra.
Qed.

(** A fraction below [2^K], with [K] below the largest exponent, is rounded
    to a finite float. *)
Lemma round_finite n d K :
  0 < n -> 0 < d -> (frac n d < bpow K)%Q -> K < emax ->
  is_infinite (round false n d) = false.
Proof.
  intros Hn Hd Hx HK. unfold round. destruct n as [|p|p]; try lia.
  destruct (round_fraction_spec (Z.pos p) d Hn Hd) as (k & [KL KU] & Ee & _).
  pose proof (mag_upper _ _ _ KL Hx) as Hk.
  destruct (round_fraction (Z.pos p) d) as [M E]. cbn [fst snd] in *.
  assert (HE : E + 1 <= emax - prec)
    by (subst E; unfold Float.fexp, emin, emax, prec in *; lia).
  unfold to_float. destruct M as [|q|q]; try reflexivity.
  destruct (Z.pos q =? 2 ^ prec).
  - destruct (Z.leb_spec (E + 1) (emax - prec)); [reflexivity|lia].
  - destruct (Z.leb_spec E (emax - prec)); [reflexivity|lia].
Qed.

Lemma bpow_6 : (bpow 6 == 64)%Q.
Proof. rewrite <- bpow_inject by lia. reflexivity. Qed.

(** Rounding does not leave the unit interval of a number that is below
    [2^47] and at most 99/100 above an integer. *)
Lemma rounds_to_between x r k :
  rounds_to x r -> 0 <= k ->
  (inject_Z k <= x)%Q -> (x <= inject_Z k + (99 # 100))%Q -> (x < bpow 47)%Q ->
  (inject_Z k <= value r < inject_Z k + 1)%Q.
Proof.
  destruct r as [m e]. unfold rounds_to, value. cbn [fst snd].
  intros (kk & [K1 K2] & E & [[N1 N2] _]) Hk L U B.
  pose proof (mag_upper _ _ _ K1 B) as Hkk.
  assert (He : e <= -6) by (subst e; unfold Float.fexp, emin, emax, prec; lia).
  pose proof (bpow_opp e) as Oe. pose proof (bpow_pos e) as Pe.
  pose proof (bpow_pos (- e)) as Pe'.
  assert (P64 : (64 <= bpow (- e))%Q).
  { rewrite <- bpow_6. apply bpow_le. lia. }
  assert (EK : (inject_Z (k * 2 ^ (- e)) == inject_Z k * bpow (- e))%Q).
  { rewrite inject_Z_mult, bpow_inject by lia. reflexivity. }
  assert (EP : (inject_Z (2 ^ (- e)) == bpow (- e))%Q) by (apply bpow_inject; lia).
  assert (Y1 : (inject_Z k * bpow (- e) <= x * bpow (- e))%Q)
    by (apply Qmult_le_compat_r; lra).
  assert (Y2 : (x * bpow (- e) <= (inject_Z k + (99 # 100)) * bpow (- e))%Q)
    by (apply Qmult_le_compat_r; lra).
  assert (Hm1 : k * 2 ^ (- e) <= m).
  { assert (A : (inject_Z (k * 2 ^ (- e)) < inject_Z (m + 1))%Q)
      by (rewrite inject_Z_succ; lra).
    rewrite <- Zlt_Qlt in A. lia. }
  assert (Hm2 : m + 1 <= k * 2 ^ (- e) + 2 ^ (- e)).
  { assert (A : (inject_Z m < inject_Z (k * 2 ^ (- e) + 2 ^ (- e)))%Q)
      by (rewrite inject_Z_plus, EK, EP; lra).
    rewrite <- Zlt_Qlt in A. lia. }
  rewrite Zle_Qle in Hm1, Hm2. rewrite inject_Z_succ in Hm2.
  rewrite inject_Z_plus, EK, EP in Hm2. rewrite EK in Hm1.
  assert (Z1 : (inject_Z k * bpow (- e) * bpow e <= inject_Z m * bpow e)%Q)
    by (apply Qmult_le_compat_r; lra).
  assert (Z2 : ((inject_Z m + 1) * bpow e <=
                (inject_Z k * bpow (- e) + bpow (- e)) * bpow e)%Q)
    by (apply Qmult_le_compat_r; lra).
  assert (Z3 : (inject_Z k * bpow (- e) * bpow e == inject_Z k)%Q).
  { transitivity (inject_Z k * (bpow e * bpow (- e)))%Q; [ring|rewrite Oe; ring]. }
  assert (Z4 : ((inject_Z k * bpow (- e) + bpow (- e)) * bpow e == inject_Z k + 1)%Q).
  { transitivity ((inject_Z k + 1) * (bpow e * bpow (- e)))%Q; [ring|rewrite Oe; ring]. }
  lra.
Qed.

(** The quotient of the integer division is the fraction cut. *)
Lemma floor_of_frac n d : 0 < d -> floor_of (frac n d) (n / d).
Proof.
  intros Hd. pose proof (inject_Z_pos _ Hd) as Hd'.
  pose proof (Z.div_mod n d ltac:(lia)) as Ediv.
  pose proof (Z.mod_pos_bound n d Hd) as Hr.
  unfold floor_of, frac. split.
  - apply Qle_shift_div_l; [exact Hd'|].
    rewrite <- inject_Z_mult, <- Zle_Qle. nia.
  - apply Qlt_shift_div_r; [exact Hd'|].
    rewrite <- inject_Z_succ, <- inject_Z_mult, <- Zlt_Qlt. nia.
Qed.

Lemma floor_of_unique y t1 t2 : floor_of y t1 -> floor_of y t2 -> t1 = t2.
Proof.
  intros H1 H2.
  pose proof (floor_of_le _ _ _ _ H1 H2 ltac:(lra)).
  pose proof (floor_of_le _ _ _ _ H2 H1 ltac:(lra)). lia.
Qed.

(** [int(n / 100)] for the ints [n] that a float holds. *)
Lemma truediv_100_floor n :
  0 <= n < 2 ^ prec ->
  (x ← int_truediv n 100; to_int x) = Returns (n / 100).
Proof.
  intros [Hn0 Hn]. unfold int_truediv.
  change (100 =? 0) with false. change (100 <? 0) with false.
  change (Z.abs 100) with 100. cbv iota.
  destruct (Z.ltb_spec n 0) as [|_]; [lia|]. cbn [xorb]. rewrite (Z.abs_eq n) by lia.
  destruct (Z.eq_dec n 0) as [->|Hne]; [reflexivity|].
  assert (Hpos : 0 < n) by lia.
  pose proof (floor_of_frac n 100 ltac:(lia)) as [FL FU].
  assert (Hk : 0 <= n / 100) by (apply Z.div_pos; lia).
  assert (FU' : (frac n 100 <= inject_Z (n / 100) + (99 # 100))%Q).
  { unfold frac. apply Qle_shift_div_r; [reflexivity|].
    pose proof (Z.div_mod n 100 ltac:(lia)) as Ediv.
    pose proof (Z.mod_pos_bound n 100 ltac:(lia)) as Hr.
    assert (A : n <= 100 * (n / 100) + 99) by lia.
    rewrite Zle_Qle, inject_Z_plus, inject_Z_mult in A.
    change (inject_Z 100) with 100%Q in *. change (inject_Z 99) with 99%Q in A. lra. }
  assert (FB : (frac n 100 < bpow 47)%Q).
  { unfold frac. apply Qlt_shift_div_r; [reflexivity|].
    rewrite <- bpow_inject, <- inject_Z_mult, <- Zlt_Qlt by lia.
    unfold prec in Hn. lia. }
  pose proof (round_finite n 100 47 Hpos ltac:(lia) FB ltac:(unfold emax; lia)) as Hfin.
  rewrite Hfin. cbn [mbind outcome_bind].
  destruct (round_value n 100 Hpos ltac:(lia) Hfin) as [Hnf Hv].
  pose proof (rounds_to_between _ _ _ (round_fraction_spec n 100 Hpos ltac:(lia))
                Hk FL FU' FB) as Hb.
  rewrite <- Hv in Hb.
  destruct (to_int_spec _ Hnf) as (t & Et & Ft). rewrite Et. f_equal.
  apply (floor_of_unique _ _ _ Ft). exact Hb.
Qed.

(** X17. [apply_zoom] scales a width or a height to the integer part of
    [size * zoom_level / 100], computed as it is with floats, as long as
    the product is below [2^53]; at the zoom level 100 the size is kept. *)
Theorem zoom_scales_by_floor (size zoom_level : Z) :
  0 <= size -> 0 <= zoom_level -> size * zoom_level < 2 ^ 53 ->
  PreviewZoom.scaled size zoom_level = Returns (size * zoom_level / 100) /\
  (zoom_level = 100 -> PreviewZoom.scaled size zoom_level = Returns size).
Proof.
  intros Hs Hz Hb.
  assert (E : PreviewZoom.scaled size zoom_level = Returns (size * zoom_level / 100)).
  { unfold PreviewZoom.scaled. apply truediv_100_floor.
    split; [apply Z.mul_nonneg_nonneg; assumption|exact Hb]. }
  split; [exact E|]. intros ->. rewrite E, Z.div_mul by lia. reflexivity.
Qed.

(** A number that a float holds is rounded to itself. *)
Lemma rounds_to_exact x r M E :
  rounds_to x r -> (x == inject_Z M * bpow E)%Q -> 0 < M < 2 ^ prec -> emin <= E ->
  (value r == x)%Q.
Proof.
  destruct r as [m e]. unfold rounds_to, value. cbn [fst snd].
  intros (k & [K1 K2] & Ee & Hne) Hx [HM0 HM] HE.
  pose proof (bpow_pos E) as PE.
  assert (B : (x < bpow (prec + E))%Q).
  { rewrite Hx, bpow_add, <- (bpow_inject prec) by (unfold prec; lia).
    apply Qmult_lt_compat_r; [exact PE|]. rewrite <- Zlt_Qlt. exact HM. }
  pose proof (mag_upper _ _ _ K1 B) as Hk.
  assert (He : e <= E) by (subst e; unfold Float.fexp; lia).
  assert (Em : m = M * 2 ^ (E - e)).
  { apply (nearest_even_unique _ _ _ _ Hne (nearest_even_Z _)).
    rewrite Hx, inject_Z_mult, bpow_inject by lia.
    rewrite (bpow_split (E - e) E (- e)) by lia. ring. }
  rewrite Em, Hx, inject_Z_mult, bpow_inject by lia.
  rewrite (bpow_split E (E - e) e) by lia. ring.
Qed.

Lemma floor_of_eq y1 y2 t1 t2 :
  floor_of y1 t1 -> floor_of y2 t2 -> (y1 == y2)%Q -> t1 = t2.
Proof.
  intros H1 H2 E.
  pose proof (floor_of_le _ _ _ _ H1 H2 ltac:(lra)).
  pose proof (floor_of_le _ _ _ _ H2 H1 ltac:(lra)). lia.
Qed.

(** [int(font_size * 1.5)] is the integer part of three halves of the font
    size: the product is exact. *)
Lemma one_and_a_half_times_exact font_size :
  0 <= font_size < 2 ^ 51 ->
  MainWindow.one_and_a_half_times font_size = Returns (3 * font_size / 2).
Proof.
  intros [H0 Hb]. unfold MainWindow.one_and_a_half_times, int_mul, of_int.
  destruct (Z.ltb_spec font_size 0) as [|_]; [lia|]. rewrite (Z.abs_eq font_size) by lia.
  destruct font_size as [|p|p]; [reflexivity| |lia].
  unfold round.
  destruct (small_int_float false p ltac:(unfold prec; lia)) as (m & e & -> & Eme).
  cbn [is_infinite mbind outcome_bind]. unfold one_and_a_half.
  destruct (mul_spec m e 6755399441055744 (-52)) as (n & d & Hn & Hd & -> & Ef).
  fold one_and_a_half in Ef. rewrite B2Q_one_and_a_half in Ef.
  assert (Ex : (frac n d == inject_Z (3 * Z.pos p) * bpow (-1))%Q).
  { rewrite Ef, bpow_m1, inject_Z_mult. unfold B2Q, value. cbn [fst snd].
    rewrite Eme. change (inject_Z 3) with 3%Q. ring. }
  assert (FB : (frac n d < bpow 53)%Q).
  { rewrite Ex, bpow_m1, <- (bpow_inject 53) by lia.
    rewrite inject_Z_mult. change (inject_Z 3) with 3%Q.
    assert (A : (inject_Z (Z.pos p) < inject_Z (2 ^ 51))%Q)
      by (rewrite <- Zlt_Qlt; exact Hb).
    assert (A' : (inject_Z (2 ^ 53) == 4 * inject_Z (2 ^ 51))%Q) by reflexivity.
    pose proof (inject_Z_pos (Z.pos p) ltac:(lia)). lra. }
  pose proof (round_finite n d 53 Hn Hd FB ltac:(unfold emax; lia)) as Hfin.
  destruct (round_value n d Hn Hd Hfin) as [Hnf Hv].
  pose proof (rounds_to_exact _ _ (3 * Z.pos p) (-1) (round_fraction_spec n d Hn Hd) Ex
                ltac:(unfold prec; lia) ltac:(unfold emin, emax, prec; lia)) as Hex.
  destruct (to_int_spec _ Hnf) as (t & Et & Ft). rewrite Et. f_equal.
  apply (floor_of_eq _ _ _ _ Ft (floor_of_frac (3 * Z.pos p) 2 ltac:(lia))).
  rewrite Hv, Hex, Ex, bpow_m1. unfold frac, Qdiv.
  change (/ inject_Z 2)%Q with (1 # 2)%Q. reflexivity.
Qed.

End FloatFloor.

(** ** The line spacing of the template *)

Section TemplateFacts.
Import Float FloatSpec MainWindow.

#[local] Opaque bpow.

Lemma bpow_normal_le_1 : (bpow (emin + prec - 1) <= 1)%Q.
Proof. rewrite <- bpow_0. apply bpow_le. unfold emin, prec, emax. lia. Qed.

(** [int(font_size * 1.5)] exceeds a font size of 2 or more. *)
Lemma one_and_a_half_times_gt font_size v :
  2 <= font_size -> one_and_a_half_times font_size = Returns v -> font_size < v.
Proof.
  intros Hfs. destruct (Z.eq_dec font_size 2) as [->|Hne].
  { intros H. vm_compute in H. injection H as <-. lia. }
  unfold one_and_a_half_times, int_mul, of_int.
  destruct (Z.ltb_spec font_size 0) as [|_]; [lia|]. rewrite (Z.abs_eq font_size) by lia.
  destruct (is_infinite (round false font_size 1)) eqn:I1; [discriminate|].
  cbn [mbind outcome_bind].
  destruct (round_value font_size 1 ltac:(lia) Z.lt_0_1 I1) as [F1 V1].
  pose proof (rounds_to_lower _ _ (round_fraction_spec font_size 1 ltac:(lia) Z.lt_0_1))
    as L1.
  rewrite frac_1, <- V1 in L1.
  assert (HF : (3 <= inject_Z font_size)%Q).
  { change 3%Q with (inject_Z 3). rewrite <- Zle_Qle. lia. }
  pose proof bpow_normal_le_1 as Hn.
  specialize (L1 ltac:(lra)).
  destruct (round false font_size 1) as [[|]|[|]| |[|] mx ex]; cbn [nonneg_finite] in F1;
    try contradiction.
  { exfalso. cbn [B2Q] in L1. lra. }
  unfold one_and_a_half.
  destruct (mul_spec mx ex 6755399441055744 (-52)) as (n & d & Hn0 & Hd & -> & E).
  fold one_and_a_half in E. rewrite B2Q_one_and_a_half in E.
  intros H.
  assert (I2 : is_infinite (round false n d) = false).
  { destruct (round false n d); try reflexivity. discriminate H. }
  destruct (round_value n d Hn0 Hd I2) as [F2 V2].
  pose proof (rounds_to_lower _ _ (round_fraction_spec n d Hn0 Hd)) as L2.
  rewrite <- V2, E in L2. specialize (L2 ltac:(lra)).
  destruct (to_int_spec _ F2) as (v' & Ev & [_ U]). rewrite Ev in H. injection H as <-.
  assert (A : (inject_Z font_size < inject_Z v')%Q) by lra.
  rewrite <- Zlt_Qlt in A. exact A.
Qed.

Lemma one_and_a_half_times_1 : one_and_a_half_times 1 = Returns 1.
Proof. reflexivity. Qed.

Context {image : Type}.
Variable current_background : outcome exception image.
Variable font_file : pystr -> outcome exception pystr.
Variable truetype_error : pystr -> Z -> option exception.

#[local] Abbreviation create_template :=
  (MainWindow.create_template current_background font_file truetype_error).
#[local] Abbreviation build := (MainWindow.build (image:=image) truetype_error).

Lemma build_Returns bg font_path s ls (T : Template image) :
  build bg font_path s ls = Returns T ->
  line_spacing T = ls /\ size (template_font T) = font_size s.
Proof.
  unfold MainWindow.build, truetype. intros H.
  destruct (truetype_error _ _); [discriminate|]. cbn [mbind outcome_bind] in H.
  repeat (apply bind_Returns_inv in H; destruct H as (? & _ & H)).
  injection H as <-. split; reflexivity.
Qed.

Lemma adjust_line_spacing_fst s ui ls :
  margins s !! "行间距" = Some ls ->
  fst (adjust_line_spacing s ui) =
    if ls <=? font_size s then one_and_a_half_times (font_size s) else Returns ls.
Proof.
  intros E. unfold adjust_line_spacing, getitem. rewrite E.
  destruct (ls <=? font_size s); [|reflexivity].
  destruct (one_and_a_half_times (font_size s)); [|reflexivity].
  destruct (margin_inputs ui !! _); reflexivity.
Qed.

(** A template that [create_template] returns comes out of the [try] block,
    for the background and the font file found before it. *)
Lemma create_template_Returns s ui (T : Template image) :
  fst (create_template s ui) = Returns T ->
  exists bg font_path ls,
    current_background = Returns bg /\ font_file (font s) = Returns font_path /\
    fst (adjust_line_spacing s ui) = Returns ls /\
    build bg font_path s ls = Returns T.
Proof.
  unfold MainWindow.create_template.
  destruct current_background as [bg|e]; [|discriminate].
  destruct (font_file (font s)) as [font_path|e]; [|discriminate].
  destruct (adjust_line_spacing s ui) as [r ui']. cbn [fst]. unfold wrap.
  destruct r as [ls|e]; [|discriminate]. cbn [mbind outcome_bind].
  destruct (MainWindow.build _ bg font_path s ls) as [T'|e] eqn:Eb; [|discriminate].
  intros H. injection H as <-. exists bg, font_path, ls. auto.
Qed.

(** The [return] statement returns when the font can be loaded and the
    settings hold the keys it reads. *)
Lemma build_returns bg font_path s ls :
  truetype_error font_path (font_size s) = None ->
  Forall (fun key => is_Some (margins s !! key))
    ["字间距"; "左边距"; "上边距"; "右边距"; "下边距"]%string ->
  Forall (fun key => is_Some (distortions s !! key))
    ["字间距扰动"; "行间距扰动"; "字体大小扰动"; "横向偏移扰动"; "纵向偏移扰动";
     "旋转角度扰动"]%string ->
  exists T : Template image,
    build bg font_path s ls = Returns T /\ background T = bg /\
    template_font T = mkFont font_path (font_size s) /\ line_spacing T = ls.
Proof.
  intros Ht Hm Hd. unfold MainWindow.build, truetype, getitem. rewrite Ht.
  cbn [mbind outcome_bind].
  repeat match goal with
         | H : Forall _ (_ :: _) |- _ =>
             let x := fresh "x" in let E := fresh "E" in
             apply Forall_cons in H; destruct H as [[x E] H]; rewrite E;
             cbn [mbind outcome_bind]
         end.
  eexists. split; [reflexivity|]. split; [reflexivity|]. split; reflexivity.
Qed.

(** C9. [create_template] replaces a line spacing that does not exceed the
    font size by [int(font_size * 1.5)] and keeps it otherwise: the template
    it returns has the font size of the settings, and for a font size of 2
    or more a line spacing above it; for the font size 1 the replacement is
    1, which is not above it.  It does return a template, with that line
    spacing, when the background and the font file are found, the font can
    be loaded and the settings hold the keys that are read. *)
Theorem template_line_spacing (s : settings) (ui : widgets) :
  (forall ls, margins s !! "行间距" = Some ls ->
     (ls <= font_size s ->
      fst (adjust_line_spacing s ui) = one_and_a_half_times (font_size s)) /\
     (font_size s < ls -> fst (adjust_line_spacing s ui) = Returns ls)) /\
  (forall T : Template image, fst (create_template s ui) = Returns T ->
     size (template_font T) = font_size s /\
     (exists ls, margins s !! "行间距" = Some ls /\
        ((ls <= font_size s /\
          one_and_a_half_times (font_size s) = Returns (line_spacing T)) \/
         (font_size s < ls /\ line_spacing T = ls))) /\
     (2 <= font_size s -> size (template_font T) < line_spacing T)) /\
  (forall bg font_path ls,
     current_background = Returns bg -> font_file (font s) = Returns font_path ->
     truetype_error font_path (font_size s) = None ->
     margins s !! "行间距" = Some ls ->
     Forall (fun key => is_Some (margins s !! key))
       ["字间距"; "左边距"; "上边距"; "右边距"; "下边距"]%string ->
     Forall (fun key => is_Some (distortions s !! key))
       ["字间距扰动"; "行间距扰动"; "字体大小扰动"; "横向偏移扰动"; "纵向偏移扰动";
        "旋转角度扰动"]%string ->
     (ls <= font_size s -> 0 <= font_size s < 2 ^ 51) ->
     exists T : Template image,
       fst (create_template s ui) = Returns T /\
       background T = bg /\
       template_font T = mkFont font_path (font_size s) /\
       line_spacing T = (if ls <=? font_size s then 3 * font_size s / 2 else ls)) /\
  one_and_a_half_times 1 = Returns 1.
Proof.
  split; [|split; [|split; [|reflexivity]]].
  - intros ls E. rewrite (adjust_line_spacing_fst s ui ls E).
    split; intros H.
    + destruct (Z.leb_spec ls (font_size s)); [reflexivity|lia].
    + destruct (Z.leb_spec ls (font_size s)); [lia|reflexivity].
  - intros T HT.
    destruct (create_template_Returns s ui T HT) as (bg & font_path & L & _ & _ & Ea & Eb).
    destruct (build_Returns _ _ _ _ _ Eb) as [El Es].
    destruct (margins s !! "行间距") as [ls|] eqn:Em.
    2:{ unfold adjust_line_spacing, getitem in Ea. rewrite Em in Ea. discriminate Ea. }
    rewrite (adjust_line_spacing_fst s ui ls Em) in Ea.
    split; [exact Es|].
    destruct (Z.leb_spec ls (font_size s)) as [Hle|Hgt].
    + split; [exists ls; split; [reflexivity|left; split; [exact Hle|]]|].
      * rewrite El. exact Ea.
      * intros H2. rewrite Es, El. apply one_and_a_half_times_gt; assumption.
    + injection Ea as <-.
      split; [exists ls; split; [reflexivity|right; split; [exact Hgt|exact El]]|].
      intros _. rewrite Es, El. exact Hgt.
  - intros bg font_path ls Hbg Hfont Ht Em Hm Hd Hfs.
    unfold MainWindow.create_template. rewrite Hbg, Hfont.
    pose proof (adjust_line_spacing_fst s ui ls Em) as Ea.
    destruct (adjust_line_spacing s ui) as [r ui']. cbn [fst] in Ea |- *. subst r.
    destruct (Z.leb_spec ls (font_size s)) as [Hle|Hgt].
    + rewrite (one_and_a_half_times_exact (font_size s) (Hfs Hle)).
      cbn [mbind outcome_bind].
      destruct (build_returns bg font_path s (3 * font_size s / 2) Ht Hm Hd)
        as (T & -> & HT). exists T. split; [reflexivity|exact HT].
    + cbn [mbind outcome_bind].
      destruct (build_returns bg font_path s ls Ht Hm Hd) as (T & -> & HT).
      exists T. split; [reflexivity|exact HT].
Qed.

(** [int(font_size * 1.5)], computed with the standard library's operations
    alone. *)
Theorem one_and_a_half_times_is_standard (font_size : Z) :
  one_and_a_half_times font_size =
  let x := ref_of_int font_size in
  if is_infinite x
  then Raises (mkException OverflowError (str "int too large to convert to float"))
  else to_int (ref_mul x one_and_a_half).
Proof.
  unfold one_and_a_half_times, int_mul, of_int.
  pose proof (round_valid (font_size <? 0) (Z.abs font_size) 1
                ltac:(lia) Z.lt_0_1) as V.
  rewrite of_int_is_binary_normalize in *. fold (ref_of_int font_size) in *.
  cbv zeta. destruct (is_infinite (ref_of_int font_size)); [reflexivity|].
  cbn [mbind outcome_bind]. unfold ref_mul.
  rewrite (mul_is_SFmul _ one_and_a_half V eq_refl). reflexivity.
Qed.

End TemplateFacts.

(** ** Instances *)

(** C4 as stated fails: a renderer that yields no page makes [run] emit a
    result, which is empty, and no error. *)
Lemma empty_result_is_emitted :
  fst (WorkerThread.run (page:=unit)
         (fun _ (_ : unit) => Returns (mkIterator [] None))
         (fun _ => false) (WorkerThread.init (str "x") tt))
  = [progressChanged 100; resultReady []].
Proof. reflexivity. Qed.

(** An instance of C3: three pages, [cancel] called before the second read. *)
Lemma cancelled_at_page_boundary_witness :
  let handwrite := fun (_ : pystr) (_ : unit) => Returns (mkIterator [1; 2; 3]%nat None) in
  let cancel_calls := fun i => Nat.eqb i 1 in
  let self := WorkerThread.init (str "abc") tt in
  handwrite (WorkerThread.effective_text self) (WorkerThread.template self)
    = Returns (mkIterator [1; 2; 3]%nat None) /\
  (1 < 3)%nat /\ cancel_calls 1%nat = true /\
  (forall images,
     ~ In (resultReady images) (fst (WorkerThread.run handwrite cancel_calls self))) /\
  (length (WorkerThread.progress_values
             (fst (WorkerThread.run handwrite cancel_calls self))) <= 1)%nat.
Proof.
  cbv zeta. split; [reflexivity|]. split; [lia|]. split; [reflexivity|].
  apply (cancelled_at_page_boundary
           (fun (_ : pystr) (_ : unit) => Returns (mkIterator [1; 2; 3]%nat None))
           (fun i => Nat.eqb i 1) (WorkerThread.init (str "abc") tt)
           (mkIterator [1; 2; 3]%nat None) 1%nat);
    [reflexivity | cbn; lia | reflexivity].
Defined.

(** An instance of C6: the renderer raises after two pages. *)
Lemma renderer_error_message_witness :
  let e := mkException OtherException (str "font.size must exceed line_spacing") in
  let handwrite := fun (_ : pystr) (_ : unit) => Returns (mkIterator [1; 2]%nat (Some e)) in
  let cancel_calls := fun _ : nat => false in
  let self := WorkerThread.init (str "abc") tt in
  WorkerThread.renderer_raises handwrite cancel_calls self e /\
  exists vs,
    fst (WorkerThread.run handwrite cancel_calls self) =
    map progressChanged vs ++
    [errorOccurred
       (if contains (str "font.size") (exc_str e) &&
           contains (str "line_spacing") (exc_str e)
        then WorkerThread.clarified_message
        else exc_str e)].
Proof.
  cbv zeta.
  assert (H : WorkerThread.renderer_raises
                (fun (_ : pystr) (_ : unit) =>
                   Returns (mkIterator [1; 2]%nat
                     (Some (mkException OtherException
                              (str "font.size must exceed line_spacing")))))
                (fun _ : nat => false) (WorkerThread.init (str "abc") tt)
                (mkException OtherException (str "font.size must exceed line_spacing"))).
  { right. eexists. split; [reflexivity|]. split; [reflexivity|]. split.
    - split; reflexivity.
    - intros k Hk. cbn in Hk. assert (E : k = 1%nat \/ k = 2%nat) by lia.
      destruct E as [-> | ->]; eexists; vm_compute; reflexivity. }
  split; [exact H|].
  exact (renderer_error_message _ _ _ _ H).
Defined.

(** An instance of C7: a renderer whose one page is the text it is given,
    run on the empty text; the page of the result is the placeholder. *)
Lemma renderer_not_called_with_empty_text_witness :
  let handwrite := fun (txt : pystr) (_ : unit) => Returns (mkIterator [txt] None) in
  let cancel_calls := fun _ : nat => false in
  let self := WorkerThread.init [] tt in
  handwrite (WorkerThread.effective_text self) (WorkerThread.template self)
    = Returns (mkIterator [WorkerThread.placeholder] None) /\
  WorkerThread.completes handwrite cancel_calls self /\
  exists vs,
    fst (WorkerThread.run handwrite cancel_calls self) =
    map progressChanged vs ++
    [progressChanged 100; resultReady [WorkerThread.placeholder]].
Proof.
  cbv zeta.
  assert (H : WorkerThread.completes
                (fun (txt : pystr) (_ : unit) => Returns (mkIterator [txt] None))
                (fun _ : nat => false) (WorkerThread.init [] tt)).
  { eexists. split; [reflexivity|]. split; [reflexivity|]. split.
    - split; reflexivity.
    - intros k Hk. cbn in Hk. assert (E : k = 1%nat) by lia.
      subst k. eexists. vm_compute. reflexivity. }
  split; [reflexivity|]. split; [exact H|].
  exact (proj1 (proj2 (proj2
           (renderer_not_called_with_empty_text
              (fun (txt : pystr) (_ : unit) => Returns (mkIterator [txt] None))
              (fun _ : nat => false)
              (fun (txt : pystr) (_ : unit) => Returns (mkIterator [txt] None))
              (WorkerThread.init [] tt))))
           (mkIterator [WorkerThread.placeholder] None) eq_refl H).
Defined.

(** An instance of C10: the empty text, two pages and no exception of the
    renderer; the run emits no error signal. *)
Lemma progress_division_safe_witness :
  let handwrite := fun (_ : pystr) (_ : unit) => Returns (mkIterator [1; 2]%nat None) in
  let cancel_calls := fun _ : nat => false in
  let self := WorkerThread.init [] tt in
  handwrite (WorkerThread.effective_text self) (WorkerThread.template self)
    = Returns (mkIterator [1; 2]%nat None) /\
  WorkerThread.no_overflow_through 2 self /\
  forall error_msg,
    ~ In (errorOccurred error_msg) (fst (WorkerThread.run handwrite cancel_calls self)).
Proof.
  cbv zeta.
  assert (H : WorkerThread.no_overflow_through 2 (WorkerThread.init [] tt)).
  { intros k Hk. assert (E : k = 1%nat \/ k = 2%nat) by lia.
    destruct E as [-> | ->]; eexists; vm_compute; reflexivity. }
  split; [reflexivity|]. split; [exact H|].
  exact (proj2 (proj2 (proj2 (proj2 (proj2 (proj2 (proj2 (proj2
           (progress_division_safe
              (fun (_ : pystr) (_ : unit) => Returns (mkIterator [1; 2]%nat None))
              (fun _ : nat => false) (WorkerThread.init [] tt)))))))))
           (mkIterator [1; 2]%nat None) eq_refl eq_refl H).
Defined.

(** An instance of C4: no page, no cancellation, a new widget, and nothing
    else handled while the box is open. *)
Lemma empty_result_handled_by_subscriber_witness :
  let handwrite := fun (_ : pystr) (_ : unit) => Returns (mkIterator (@nil nat) None) in
  let cancel_calls := fun _ : nat => false in
  let error_image := fun _ : pystr => 0%nat in
  let self := WorkerThread.init (str "x") tt in
  let signals := fst (WorkerThread.run handwrite cancel_calls self) in
  signals = [progressChanged 100; resultReady []] /\
  PreviewWidget.deliver_all error_image 1
    (map (fun s => PreviewWidget.Notify s []) signals) PreviewWidget.init =
  Returns (PreviewWidget.mk (PreviewManager.mk [0%nat] 0)
             [PreviewWidget.no_output_message] (MainWindow.mkSpinbox 1 99 1)).
Proof.
  cbv zeta.
  pose proof (empty_result_handled_by_subscriber
                (fun (_ : pystr) (_ : unit) => Returns (mkIterator (@nil nat) None))
                (fun _ : nat => false) (fun _ : pystr => 0%nat)
                (WorkerThread.init (str "x") tt) (mkIterator [] None)
                0%nat PreviewWidget.init
                eq_refl eq_refl eq_refl eq_refl eq_refl) as H.
  cbv zeta in H. destruct H as (H1 & H2 & _ & H4 & _).
  split; [exact H1|]. rewrite H2.
  exact (H4 Returns _ eq_refl ltac:(cbn; lia)).
Defined.

(** ** The progress value on samples *)

(** The progress value is not the exact percentage: [int(29 / 100 * 100)]
    is 28, as [29 / 100] is rounded below 0.29. *)
Lemma percent_29_100 : WorkerThread.percent 29 100 = Returns 28.
Proof. reflexivity. Qed.

Lemma percent_samples :
  map (fun c => WorkerThread.percent c 11) [1; 2; 3; 4; 5; 11; 12] =
  map Returns [9; 18; 27; 36; 45; 100; 109].
Proof. reflexivity. Qed.

(** * Part III. Further properties of the code *)

(** ** WorkerThread.run: what a completed task delivers *)

Section Delivery.
Import WorkerThread.
Context {page Template : Type}.
Variable handwrite : pystr -> Template -> outcome exception (page_iterator page).
Variable cancel_calls : nat -> bool.

#[local] Abbreviation run := (WorkerThread.run handwrite cancel_calls).
#[local] Abbreviation completes := (WorkerThread.completes handwrite cancel_calls).

(** X1. A task that completes emits one progress value of at most 95 for
    each page of the renderer, then 100, then the result, which is the pages
    of the renderer, all of them and in their order. *)
Theorem completed_run_delivers_all_pages (self : t Template) :
  completes self ->
  exists it vs,
    handwrite (effective_text self) (template self) = Returns it /\
    fst (run self) =
      map progressChanged vs ++ [progressChanged 100; resultReady (yielded it)] /\
    length vs = length (yielded it) /\
    Forall (fun v => 0 <= v <= 95) vs.
Proof.
  intros (it & Eh & Hfin & [Hf Hq] & Hp). exists it.
  destruct (for_pages_all cancel_calls (text_length self) (progress_step self)
              (yielded it) (finish it)
              (mkFrame (substitute_placeholder self) [] 0 0%nat))
    as (signals & E & Hlen).
  - exact Hf.
  - intros j Hj. apply Hq. cbn. lia.
  - intros k Hk. exact (Hp k Hk).
  - assert (HL : 0 < text_length self) by (pose proof (text_length_pos self); lia).
    assert (Hstep : 0 <= progress_step self)
      by (pose proof (progress_step_pos self); lia).
    destruct (for_pages_progress cancel_calls _ _ _ _ HL Hstep _ _ _ _ E (Z.le_refl 0))
      as (vs & -> & Hb & _).
    exists vs. split; [exact Eh|]. rewrite length_map in Hlen.
    split; [|split; [exact Hlen|exact Hb]].
    rewrite run_eq, Eh, E, Hfin. unfold after_loop.
    cbn [WorkerThread.self result chars_processed reads app Nat.add].
    rewrite (at_read_quiet cancel_calls _ _ (Hq _ (Nat.lt_succ_diag_r _))).
    cbn [substitute_placeholder is_cancelled]. rewrite Hf. reflexivity.
Qed.

(** No message of [run] holds both marks of the renderer's complaint. *)
Lemma describe_unmarked e :
  contains (str "font.size") (describe e) &&
  contains (str "line_spacing") (describe e) = false.
Proof.
  unfold describe.
  destruct (contains (str "font.size") (exc_str e) &&
            contains (str "line_spacing") (exc_str e)) eqn:E; [reflexivity|exact E].
Qed.

(** The error signals of [run] carry a [describe]d message. *)
Lemma run_error_described (self : t Template) error_msg :
  In (errorOccurred error_msg) (fst (run self)) -> exists e, error_msg = describe e.
Proof.
  intros Hin. destruct (run_cases handwrite cancel_calls self) as (vs & _ & _ & H).
  assert (Hpc : forall l, In (errorOccurred error_msg) (map (@progressChanged page) l)
                          -> False).
  { intros l Hl. apply in_map_iff in Hl. destruct Hl as (? & ? & _). discriminate. }
  destruct H as [(e & E & _)|[(E & _)|(it & _ & E & _)]]; rewrite E in Hin.
  - apply in_app_or in Hin. destruct Hin as [Hin|[Hin|[]]].
    + destruct (Hpc _ Hin).
    + injection Hin as <-. exists e. reflexivity.
  - destruct (Hpc _ Hin).
  - apply in_app_or in Hin. destruct Hin as [Hin|[Hin|[Hin|[]]]];
      [destruct (Hpc _ Hin)|discriminate..].
Qed.

(** X2. [handle_error] of [export_image] shows every error message of [run]
    as it is: its own clearer text is never used, since [run] has replaced
    the messages it looks for. *)
Theorem export_handler_never_rewrites (self : t Template) error_msg :
  In (errorOccurred error_msg) (fst (run self)) ->
  Window.export_error_message error_msg = error_msg.
Proof.
  intros Hin. destruct (run_error_described self error_msg Hin) as (e & ->).
  unfold Window.export_error_message. rewrite describe_unmarked. reflexivity.
Qed.

End Delivery.

(** An instance of X1: two pages. *)
Lemma completed_run_delivers_all_pages_witness :
  let handwrite := fun (_ : pystr) (_ : unit) => Returns (mkIterator [7; 8]%nat None) in
  let cancel_calls := fun _ : nat => false in
  let self := WorkerThread.init (str "abc") tt in
  WorkerThread.completes handwrite cancel_calls self /\
  exists it vs,
    handwrite (WorkerThread.effective_text self) (WorkerThread.template self)
      = Returns it /\
    fst (WorkerThread.run handwrite cancel_calls self) =
      map progressChanged vs ++ [progressChanged 100; resultReady (yielded it)] /\
    length vs = length (yielded it) /\
    Forall (fun v => 0 <= v <= 95) vs.
Proof.
  cbv zeta.
  assert (H : WorkerThread.completes
                (fun (_ : pystr) (_ : unit) => Returns (mkIterator [7; 8]%nat None))
                (fun _ : nat => false) (WorkerThread.init (str "abc") tt)).
  { eexists. split; [reflexivity|]. split; [reflexivity|]. split.
    - split; reflexivity.
    - intros k Hk. cbn in Hk. assert (E : k = 1%nat \/ k = 2%nat) by lia.
      destruct E as [-> | ->]; eexists; vm_compute; reflexivity. }
  split; [exact H|].
  exact (completed_run_delivers_all_pages _ _ _ H).
Defined.

(** An instance of X2: the renderer raises its complaint. *)
Lemma export_handler_never_rewrites_witness :
  let e := mkException OtherException (str "font.size must exceed line_spacing") in
  let handwrite := fun (_ : pystr) (_ : unit) =>
    @Raises exception (page_iterator nat) e in
  let cancel_calls := fun _ : nat => false in
  let self := WorkerThread.init (str "abc") tt in
  In (errorOccurred WorkerThread.clarified_message)
     (fst (WorkerThread.run handwrite cancel_calls self)) /\
  Window.export_error_message WorkerThread.clarified_message
    = WorkerThread.clarified_message.
Proof.
  cbv zeta.
  assert (H : In (errorOccurred WorkerThread.clarified_message)
                (fst (WorkerThread.run
                        (fun (_ : pystr) (_ : unit) =>
                           @Raises exception (page_iterator nat)
                             (mkException OtherException
                                (str "font.size must exceed line_spacing")))
                        (fun _ : nat => false) (WorkerThread.init (str "abc") tt)))).
  { left. reflexivity. }
  split; [exact H|].
  exact (export_handler_never_rewrites _ _ _ _ H).
Defined.

(** ** PreviewWidget: paging *)

Section Navigation.
Context {image : Type}.

(** X3. [PreviewWidget.go_to_page], called with the 1-based page number of
    the spin box, refreshes the display exactly when it changes the current
    page, which it does exactly for a page number in range that is not the
    one shown; the page is then the one asked for, and nothing changes
    otherwise. *)
Theorem go_to_page_refreshes_on_change (page_num : Z) (m : PreviewManager.t image) :
  let m' := fst (PreviewNavigation.go_to_page page_num m) in
  let refreshed := snd (PreviewNavigation.go_to_page page_num m) in
  PreviewManager.pages m' = PreviewManager.pages m /\
  (refreshed = true <->
   PreviewManager.current_page m' <> PreviewManager.current_page m) /\
  (refreshed = true <->
   1 <= page_num <= len (PreviewManager.pages m) /\
   page_num <> PreviewManager.current_page m + 1) /\
  (refreshed = true -> PreviewManager.current_page m' = page_num - 1) /\
  (refreshed = false -> m' = m).
Proof.
  cbv zeta. unfold PreviewNavigation.go_to_page, PreviewManager.go_to_page.
  destruct (Z.eqb_spec page_num (PreviewManager.current_page m + 1)) as [E|E];
    cbn [negb];
    [|destruct (Z.leb_spec 0 (page_num - 1)) as [H0|H0];
      destruct (Z.ltb_spec (page_num - 1) (len (PreviewManager.pages m))) as [H1|H1]];
    cbn [andb fst snd PreviewManager.pages PreviewManager.current_page];
    intuition (try discriminate; try lia; try reflexivity).
Qed.

End Navigation.

(** ** PreviewWidget: the page cache over a run of notifications *)

Section Cache.
Import PreviewWidget PreviewCache.
Context {image : Type}.
Variable error_image : pystr -> image.

#[local] Abbreviation notification := (PreviewWidget.notification (image:=image)).
#[local] Abbreviation deliver := (PreviewWidget.deliver error_image).
#[local] Abbreviation deliver_all := (PreviewWidget.deliver_all error_image).

(** What a step does to a widget whose spin box is at 1. *)
#[local] Abbreviation effect :=
  (fun (w : PreviewWidget.t image) (st : step) =>
     match st with
     | Opened error_msg => warning error_msg w
     | Closed error_msg =>
         match PreviewManager.pages (preview_manager w) with
         | [] =>
             PreviewWidget.mk (PreviewManager.mk [error_image error_msg] 0)
               (warnings w) (page_spin w)
         | _ :: _ => w
         end
     | Stored images =>
         PreviewWidget.mk (PreviewManager.mk images 0) (warnings w)
           (MainWindow.mkSpinbox 1 (len images) 1)
     end).

(** The spin box and the page index of a widget that only notifications
    have reached. *)
#[local] Abbreviation at_first_page :=
  (fun w : PreviewWidget.t image =>
     PreviewManager.current_page (preview_manager w) = 0 /\
     exists hi, 1 <= hi /\ page_spin w = MainWindow.mkSpinbox 1 hi 1).

#[local] Abbreviation stores_pages :=
  (fun st : step (image:=image) => stored_of st <> Some []).

Lemma notification_induction (P : notification -> Prop) :
  (forall s during, Forall P during -> P (Notify s during)) ->
  forall n, P n.
Proof.
  intros H. fix IH 1. intros [s during]. apply H.
  revert during. fix IHl 1. intros [|n l]; constructor; [apply IH|apply IHl].
Qed.

Lemma last_of_snoc {A B : Type} (f : A -> option B) (l : list A) (a : A) :
  last_of f (l ++ [a]) =
  match f a with
  | Some b => Some b
  | None => last_of f l
  end.
Proof.
  unfold last_of. rewrite rev_unit. cbn. destruct (f a); reflexivity.
Qed.

Lemma first_of_snoc {A B : Type} (f : A -> option B) (l : list A) (a : A) :
  first_of f (l ++ [a]) =
  match first_of f l with
  | Some b => Some b
  | None => f a
  end.
Proof.
  unfold first_of. rewrite omap_app. destruct (omap f l) as [|b bs]; cbn.
  - destruct (f a); reflexivity.
  - reflexivity.
Qed.

(** [steps] and [deliver] with their inner loops named. *)
Lemma steps_Notify s (during : list notification) :
  steps (Notify s during) =
  match s with
  | progressChanged _ => steps_all during
  | resultReady [] =>
      Opened no_output_message :: steps_all during ++ [Closed no_output_message]
  | resultReady (p :: images) => [Stored (p :: images)]
  | errorOccurred error_msg => Opened error_msg :: steps_all during ++ [Closed error_msg]
  end.
Proof.
  cbn [steps].
  assert (E : (fix inner (l : list notification) : list step :=
                 match l with
                 | [] => []
                 | n' :: l' => steps n' ++ inner l'
                 end) during = steps_all during).
  { induction during as [|n l IH]; [reflexivity|]. cbn [steps_all]. rewrite <- IH.
    reflexivity. }
  rewrite E. reflexivity.
Qed.

Lemma deliver_Notify depth s (during : list notification) w :
  deliver depth (Notify s during) w =
  match s with
  | progressChanged _ => deliver_all depth during w
  | resultReady images =>
      PreviewWidget.handle_preview_result error_image depth
        (deliver_all depth during) images w
  | errorOccurred error_msg =>
      PreviewWidget.handle_preview_error error_image depth
        (deliver_all depth during) error_msg w
  end.
Proof.
  cbn [PreviewWidget.deliver].
  assert (E : forall v,
            (fix box (l : list notification) (self : PreviewWidget.t image)
               : outcome failure (PreviewWidget.t image) :=
               match l with
               | [] => Returns self
               | n' :: l' => self0 ← deliver depth n' self; box l' self0
               end) during v = deliver_all depth during v).
  { induction during as [|n l IH]; intros v; [reflexivity|].
    cbn [PreviewWidget.deliver_all]. destruct (deliver depth n v); [|reflexivity].
    cbn [mbind outcome_bind]. apply IH. }
  destruct s as [v|[|p images]|error_msg].
  - apply E.
  - cbn [handle_preview_result]. unfold handle_preview_error. rewrite E. reflexivity.
  - reflexivity.
  - unfold handle_preview_error. rewrite E. reflexivity.
Qed.

Lemma steps_store_pages (n : notification) : Forall stores_pages (steps n).
Proof.
  induction n as [s during IH] using notification_induction.
  assert (Hall : Forall stores_pages (steps_all during)).
  { induction IH as [|n l Hn _ IHl]; [constructor|]. cbn [steps_all].
    apply Forall_app. split; assumption. }
  rewrite steps_Notify. destruct s as [v|[|p images]|error_msg].
  - exact Hall.
  - constructor; [discriminate|]. apply Forall_app. split; [exact Hall|].
    constructor; [discriminate|constructor].
  - constructor; [discriminate|constructor].
  - constructor; [discriminate|]. apply Forall_app. split; [exact Hall|].
    constructor; [discriminate|constructor].
Qed.

Lemma steps_all_store_pages (l : list notification) : Forall stores_pages (steps_all l).
Proof.
  induction l as [|n l IH]; [constructor|]. cbn [steps_all]. apply Forall_app.
  split; [apply steps_store_pages|exact IH].
Qed.

Lemma effect_at_first_page w st :
  stores_pages st -> at_first_page w -> at_first_page (effect w st).
Proof.
  intros Hst (Hc & hi & Hhi & Hs). destruct st as [m|m|images].
  - split; [exact Hc|]. exists hi. split; [exact Hhi|exact Hs].
  - destruct (PreviewManager.pages (preview_manager w)).
    + split; [reflexivity|]. exists hi. split; [exact Hhi|exact Hs].
    + split; [exact Hc|]. exists hi. split; [exact Hhi|exact Hs].
  - split; [reflexivity|]. exists (len images). split; [|reflexivity].
    destruct images as [|p images]; [contradiction Hst; reflexivity|].
    unfold len. cbn [length]. lia.
Qed.

Lemma fold_effect_at_first_page l :
  Forall stores_pages l ->
  forall w, at_first_page w -> at_first_page (fold_left effect l w).
Proof.
  induction 1 as [|st l Hst _ IH]; intros w Hw; [exact Hw|].
  cbn [fold_left]. apply IH. apply effect_at_first_page; assumption.
Qed.

(** Every notification is handled, and does to the widget what its steps
    say, in their order. *)
Lemma deliver_steps depth (n : notification) :
  forall w, at_first_page w ->
    deliver (S depth) n w = Returns (fold_left effect (steps n) w).
Proof.
  induction n as [s during IH] using notification_induction.
  assert (Hall : forall w, at_first_page w ->
            deliver_all (S depth) during w
              = Returns (fold_left effect (steps_all during) w)).
  { induction IH as [|n l Hn _ IHl]; intros w Hw; [reflexivity|].
    cbn [PreviewWidget.deliver_all steps_all]. rewrite (Hn w Hw).
    cbn [mbind outcome_bind]. rewrite fold_left_app. apply IHl.
    apply fold_effect_at_first_page; [apply steps_store_pages|exact Hw]. }
  assert (Herr : forall error_msg w, at_first_page w ->
            PreviewWidget.handle_preview_error error_image (S depth)
              (deliver_all (S depth) during) error_msg w =
            Returns (fold_left effect
                       (Opened error_msg :: steps_all during ++ [Closed error_msg]) w)).
  { intros error_msg w Hw. cbn [fold_left]. rewrite fold_left_app. cbn [fold_left].
    assert (Hw1 : at_first_page (warning error_msg w)) by exact Hw.
    pose proof (fold_effect_at_first_page _ (steps_all_store_pages during) _ Hw1)
      as (Hc & hi & Hhi & Hs).
    rewrite (handle_preview_error_closed error_image depth _ error_msg w _
               (Hall _ Hw1)) by (rewrite Hs; cbn; lia).
    rewrite Hs. reflexivity. }
  intros w Hw. rewrite deliver_Notify, steps_Notify.
  destruct s as [v|[|p images]|error_msg].
  - apply Hall. exact Hw.
  - cbn [handle_preview_result]. apply Herr. exact Hw.
  - destruct Hw as (Hc & hi & Hhi & Hs).
    rewrite (handle_preview_result_stored error_image depth _ p images w)
      by (rewrite Hs; reflexivity).
    rewrite Hs. cbn [MainWindow.value fold_left].
    destruct (Z.ltb_spec (len (p :: images)) 1) as [H|_]; [|reflexivity].
    unfold len in H. cbn [length] in H. lia.
  - apply Herr. exact Hw.
Qed.

Lemma deliver_all_steps depth (l : list notification) :
  forall w, at_first_page w ->
    deliver_all (S depth) l w = Returns (fold_left effect (steps_all l) w).
Proof.
  induction l as [|n l IH]; intros w Hw; [reflexivity|].
  cbn [PreviewWidget.deliver_all steps_all]. rewrite (deliver_steps depth n w Hw).
  cbn [mbind outcome_bind]. rewrite fold_left_app. apply IH.
  apply fold_effect_at_first_page; [apply steps_store_pages|exact Hw].
Qed.

Lemma last_stored_nonempty (sts : list (step (image:=image))) :
  Forall stores_pages sts -> last_of stored_of sts <> Some [].
Proof.
  induction sts as [|st sts IH] using rev_ind; [discriminate|].
  intros H. apply Forall_app in H. destruct H as [Hsts Hst].
  inversion_clear Hst as [|? ? Hst' _]. rewrite last_of_snoc.
  destruct (stored_of st) as [images|]; [exact Hst'|exact (IH Hsts)].
Qed.

(** X4. A new preview widget handles every run of notifications, nested as
    the warning boxes and the progress dialog make them.  It shows the
    messages of the errors and of the empty results in the order their
    boxes are opened.  Its cache holds the last result that is not empty;
    when there is none, it holds the error image of the message whose box
    is closed first, and it is empty when no box was opened.  The first page
    is the current one, and the spin box is at 1. *)
Theorem cache_after_notifications (depth : nat) (l : list notification) :
  exists w,
    deliver_all (S depth) l PreviewWidget.init = Returns w /\
    warnings w = omap opened_of (steps_all l) /\
    PreviewManager.pages (preview_manager w) =
      match last_of stored_of (steps_all l) with
      | Some images => images
      | None =>
          match first_of closed_of (steps_all l) with
          | Some error_msg => [error_image error_msg]
          | None => []
          end
      end /\
    PreviewManager.current_page (preview_manager w) = 0 /\
    page_spin w =
      MainWindow.mkSpinbox 1
        match last_of stored_of (steps_all l) with
        | Some images => len images
        | None => 99
        end 1.
Proof.
  eexists. split.
  { apply deliver_all_steps. split; [reflexivity|]. exists 99.
    split; [lia|reflexivity]. }
  pose proof (steps_all_store_pages l) as Hst.
  induction (steps_all l) as [|st sts IH] using rev_ind.
  { repeat split. }
  apply Forall_app in Hst. destruct Hst as [Hsts Hst]. inversion_clear Hst as [|? ? Hst' _].
  specialize (IH Hsts). destruct IH as (IHw & IHp & IHc & IHs).
  rewrite fold_left_app, omap_app, last_of_snoc, first_of_snoc. cbn [fold_left].
  set (w := fold_left effect sts PreviewWidget.init) in *.
  destruct st as [m|m|images]; cbn [opened_of closed_of stored_of omap].
  - cbn [warning warnings preview_manager page_spin].
    split; [rewrite IHw; reflexivity|]. split; [|split; assumption].
    rewrite IHp. destruct (last_of stored_of sts); [reflexivity|].
    destruct (first_of closed_of sts); reflexivity.
  - rewrite app_nil_r.
    destruct (PreviewManager.pages (preview_manager w)) as [|q qs] eqn:Ep;
      cbn [warnings preview_manager page_spin PreviewManager.pages
           PreviewManager.current_page].
    + split; [exact IHw|]. split; [|split; [reflexivity|exact IHs]].
      pose proof (last_stored_nonempty sts Hsts) as Hne.
      destruct (last_of stored_of sts) as [images|]; [congruence|].
      destruct (first_of closed_of sts); [discriminate|reflexivity].
    + split; [exact IHw|]. split; [|split; assumption].
      rewrite Ep, IHp. destruct (last_of stored_of sts); [reflexivity|].
      destruct (first_of closed_of sts); [reflexivity|]. rewrite IHp in Ep. discriminate.
  - rewrite app_nil_r.
    cbn [warnings preview_manager page_spin PreviewManager.pages
         PreviewManager.current_page].
    split; [exact IHw|]. repeat split.
Qed.

End Cache.

(** ** PreviewWidget: the zoom level *)

Section Zoom.
Import PreviewZoom.

Lemma set_zoom_range level : 10 <= set_zoom level <= 300.
Proof. unfold set_zoom. lia. Qed.

Lemma perform_range z a : 10 <= perform z a <= 300.
Proof. destruct a; apply set_zoom_range. Qed.

(** X5. Whatever the zoom buttons and [set_zoom] are used for, the zoom
    level stays between 10 and 300; zooming in and then out gives the level
    back unless it is above 290, and zooming out and then in unless it is
    below 20. *)
Theorem zoom_level_stays_in_range (actions : list action) :
  let zoom_level := after actions in
  10 <= zoom_level <= 300 /\
  (zoom_level <= 290 ->
   perform (perform zoom_level ZoomIn) ZoomOut = zoom_level) /\
  (20 <= zoom_level ->
   perform (perform zoom_level ZoomOut) ZoomIn = zoom_level).
Proof.
  cbv zeta.
  assert (H : 10 <= after actions <= 300).
  { unfold after. induction actions as [|a actions IH] using rev_ind.
    - cbn. unfold init. lia.
    - rewrite fold_left_app. cbn [fold_left]. apply perform_range. }
  split; [exact H|]. cbn [perform]. unfold set_zoom. lia.
Qed.

End Zoom.

(** ** MainWindow: the preview text and the export format *)

Section PreviewText.
Context {Template : Type}.

(** X6. The text the preview worker gets is never empty and has at most 500
    characters: it is the first 500 characters of the text of the editor,
    or of the placeholder when the editor is empty.  So the worker never
    takes its own placeholder, and its progress step is at most 5. *)
Theorem preview_text_is_bounded (text : pystr) (template : Template) :
  let p := Window.preview_text text in
  let worker := WorkerThread.init p template in
  p = take 500 (WorkerThread.effective_text (WorkerThread.init text template)) /\
  1 <= len p <= 500 /\
  WorkerThread.effective_text worker = p /\
  1 <= WorkerThread.progress_step worker <= 5.
Proof.
  cbv zeta. unfold Window.preview_text, WorkerThread.effective_text, WorkerThread.init.
  cbn [WorkerThread.text].
  set (t := match text with [] => WorkerThread.placeholder | _ :: _ => text end).
  assert (Ht : 1 <= len t).
  { unfold t, len. destruct text; cbn; lia. }
  assert (Ep : slice t 0 (Z.min 500 (len t)) = take 500 t).
  { unfold slice. rewrite Z.sub_0_r. change (drop (Z.to_nat 0) t) with t.
    unfold len in *.
    destruct (Z.le_ge_cases 500 (Z.of_nat (length t))) as [H|H].
    - rewrite Z.min_l by exact H. reflexivity.
    - rewrite Z.min_r by exact H. rewrite Nat2Z.id.
      rewrite (take_ge t (length t)) by lia.
      rewrite (take_ge t 500); [reflexivity|]. lia. }
  rewrite Ep.
  assert (Hl : 1 <= len (take 500 t) <= 500).
  { unfold len in *. rewrite length_take. lia. }
  split; [reflexivity|]. split; [exact Hl|].
  assert (Ee : match take 500 t with [] => WorkerThread.placeholder
                                | _ :: _ => take 500 t end = take 500 t).
  { destruct (take 500 t) eqn:E; [|reflexivity]. unfold len in Hl. cbn in Hl. lia. }
  split; [exact Ee|].
  unfold WorkerThread.progress_step, WorkerThread.text_length,
    WorkerThread.effective_text. cbn [WorkerThread.text]. rewrite Ee.
  assert (0 <= len (take 500 t) / 100 <= 5).
  { split; [apply Z.div_pos; lia|]. apply Z.div_le_upper_bound; lia. }
  lia.
Qed.

End PreviewText.


(** ** Strings *)

Section Strings.

Lemma str_ascii (s : string) :
  ascii_only s = true -> str s = map N_of_ascii (list_ascii_of_string s).
Proof.
  unfold str. induction s as [|a s IH]; [reflexivity|].
  cbn [ascii_only list_ascii_of_string map utf8_decode].
  intros H. apply andb_true_iff in H. destruct H as [Ha Hs].
  rewrite Ha, (IH Hs). reflexivity.
Qed.

Lemma N_of_ascii_inj a b : N_of_ascii a = N_of_ascii b -> a = b.
Proof.
  intros H. rewrite <- (ascii_N_embedding a), <- (ascii_N_embedding b), H. reflexivity.
Qed.

Lemma str_inj (s1 s2 : string) :
  ascii_only s1 = true -> ascii_only s2 = true -> str s1 = str s2 -> s1 = s2.
Proof.
  intros H1 H2. rewrite (str_ascii s1 H1), (str_ascii s2 H2). clear H1 H2.
  revert s2. induction s1 as [|a s1 IH]; intros [|b s2] H; cbn in H;
    try discriminate; [reflexivity|].
  injection H as Hab Hs. apply N_of_ascii_inj in Hab. subst b.
  f_equal. apply IH. exact Hs.
Qed.

Lemma digits_ascii d : ascii_only (DecimalString.NilEmpty.string_of_uint d) = true.
Proof. induction d; cbn; try rewrite IHd; reflexivity. Qed.

Lemma decimal_ascii n :
  ascii_only (DecimalString.NilZero.string_of_int (Z.to_int n)) = true.
Proof.
  destruct n as [|p|p]; cbn [Z.to_int DecimalString.NilZero.string_of_int];
    [reflexivity| |];
    unfold DecimalString.NilZero.string_of_uint;
    destruct (Pos.to_uint p) eqn:E; try reflexivity;
    try (rewrite <- E; apply digits_ascii);
    try (cbn [ascii_only]; rewrite <- E, digits_ascii; reflexivity).
Qed.

Lemma to_int_not_nil n :
  Z.to_int n <> Decimal.Pos Decimal.Nil /\ Z.to_int n <> Decimal.Neg Decimal.Nil.
Proof.
  destruct n as [|p|p]; cbn [Z.to_int]; split; try discriminate;
    intros [= H]; exact (DecimalPos.Unsigned.to_uint_nonnil p H).
Qed.

(** [str(n)] tells [n]. *)
Lemma str_of_int_inj a b :
  MainWindow.str_of_int a = MainWindow.str_of_int b -> a = b.
Proof.
  unfold MainWindow.str_of_int. intros H.
  apply str_inj in H; [|apply decimal_ascii..].
  apply DecimalZ.to_int_inj.
  destruct (to_int_not_nil a) as [Ha1 Ha2]. destruct (to_int_not_nil b) as [Hb1 Hb2].
  pose proof (DecimalString.NilZero.isi _ Ha1 Ha2) as Ia.
  pose proof (DecimalString.NilZero.isi _ Hb1 Hb2) as Ib.
  rewrite H in Ia. rewrite Ia in Ib. injection Ib as E. exact E.
Qed.

Lemma startswith_app (p s : pystr) : startswith (p ++ s) p = true.
Proof.
  induction p as [|c p IH]; [destruct s; reflexivity|].
  cbn. rewrite N.eqb_refl. exact IH.
Qed.

Lemma str_eqb_eq (a b : pystr) : str_eqb a b = true <-> a = b.
Proof. unfold str_eqb. apply bool_decide_eq_true. Qed.

Lemma str_eqb_neq (a b : pystr) : str_eqb a b = false <-> a <> b.
Proof. unfold str_eqb. apply bool_decide_eq_false. Qed.

Lemma join_nil (sep : pystr) (items : list pystr) :
  Forall (fun s => s <> []) items -> join sep items = [] -> items = [].
Proof.
  intros H. destruct H as [|s items Hs H]; [reflexivity|].
  cbn. intros E. destruct items.
  - contradiction.
  - destruct s; [contradiction|discriminate].
Qed.

End Strings.

(** ** FileManager.import_file *)

Section ImportFile.
Import FileManager.
Variable lower : pystr -> pystr.
Variable read : Path -> string -> read_result.
Variable paragraph_texts : Path -> outcome exception (list pystr).
Variable page_texts : Path -> outcome exception (list pystr).

#[local] Abbreviation import_file :=
  (FileManager.import_file lower read paragraph_texts page_texts).
#[local] Abbreviation import_body :=
  (FileManager.import_body lower read paragraph_texts page_texts).
#[local] Abbreviation try_encodings := (FileManager.try_encodings read).

Lemma try_encodings_spec file_path encodings text :
  try_encodings file_path encodings [] = Returns text ->
  text = [] \/ exists encoding, In encoding encodings /\
                                read file_path encoding = Decoded text.
Proof.
  induction encodings as [|encoding rest IH]; cbn [FileManager.try_encodings].
  - intros [= <-]. left. reflexivity.
  - destruct (read file_path encoding) as [t| |e] eqn:E.
    + intros [= <-]. right. exists encoding. split; [left; reflexivity|exact E].
    + intros H. destruct (IH H) as [->|(enc & Hin & Henc)]; [left; reflexivity|].
      right. exists enc. split; [right; exact Hin|exact Henc].
    + discriminate.
Qed.

(** X8. The import of a [.txt] file never returns an empty text: the text
    it returns is the file read with one of the five encodings, and a file
    that is empty, which every encoding reads without an error, is refused
    with the message that it cannot be decoded. *)
Theorem txt_import_is_never_empty (file_path : Path) :
  lower (suffix file_path) = str ".txt" ->
  (forall text, import_file file_path = Returns text ->
     text <> [] /\
     exists encoding, In encoding encodings /\
                      read file_path encoding = Decoded text) /\
  (read file_path "utf-8" = Decoded [] ->
   import_file file_path =
   Raises (mkException OtherException
             (str "导入文件失败: " ++ str "无法解码文件 " ++ path_str file_path ++
              str "，请检查文件编码"))).
Proof.
  intros Hext. unfold FileManager.import_file, FileManager.import_body.
  rewrite Hext. change (str_eqb (str ".txt") (str ".txt")) with true. cbv iota.
  split.
  - intros text.
    destruct (try_encodings file_path encodings []) as [t|e] eqn:E;
      cbn [mbind outcome_bind]; [|discriminate].
    destruct t as [|c t]; [discriminate|]. intros [= <-].
    split; [discriminate|].
    destruct (try_encodings_spec _ _ _ E) as [H|H]; [discriminate|exact H].
  - intros H. unfold encodings. cbn [FileManager.try_encodings]. rewrite H.
    reflexivity.
Qed.

(** X9. [import_file] returns a text only for the suffixes [.txt], [.docx]
    and [.pdf] (in any case of the letters), and whatever goes wrong, the
    exception that leaves it is an [Exception] whose message starts with
    the words for a failed import. *)
Theorem import_file_outcomes (file_path : Path) :
  (forall text, import_file file_path = Returns text ->
     str_in (lower (suffix file_path)) [str ".txt"; str ".docx"; str ".pdf"] = true) /\
  (forall e, import_file file_path = Raises e ->
     exc_class e = OtherException /\
     startswith (exc_str e) (str "导入文件失败: ") = true).
Proof.
  split.
  - intros text. unfold FileManager.import_file, FileManager.import_body.
    cbn [str_in existsb].
    destruct (str_eqb (lower (suffix file_path)) (str ".txt")); [reflexivity|].
    destruct (str_eqb (lower (suffix file_path)) (str ".docx")); [reflexivity|].
    destruct (str_eqb (lower (suffix file_path)) (str ".pdf")); [reflexivity|].
    destruct (_ || _); discriminate.
  - intros e. unfold FileManager.import_file.
    destruct (import_body file_path) as [t|e']; [discriminate|].
    intros H.
    assert (He : e = mkException OtherException (str "导入文件失败: " ++ exc_str e'))
      by congruence.
    rewrite He. split; [reflexivity|].
    exact (startswith_app (str "导入文件失败: ") (exc_str e')).
Qed.

Lemma nonblank_nonempty (s : pystr) : nonblank s = true -> s <> [].
Proof. intros H ->. discriminate H. Qed.

(** X10. The import of a Word or PDF document joins, with line feeds, the
    texts of the paragraphs (of the pages) that are not blank; it returns
    the empty text, and raises nothing, exactly when all of them are
    blank. *)
Theorem document_import_skips_blank (file_path : Path) (texts : list pystr) :
  (lower (suffix file_path) = str ".docx" /\
   paragraph_texts file_path = Returns texts) \/
  (lower (suffix file_path) = str ".pdf" /\
   page_texts file_path = Returns texts) ->
  exists text,
    import_file file_path = Returns text /\
    text = join [10%N] (filter (fun t => nonblank t = true) texts) /\
    (text = [] <-> Forall (fun t => nonblank t = false) texts).
Proof.
  intros H.
  assert (E : import_file file_path =
              Returns (join [10%N] (filter (fun t => nonblank t = true) texts))).
  { unfold FileManager.import_file, FileManager.import_body.
    destruct H as [[Hext Ht]|[Hext Ht]]; rewrite Hext, Ht; reflexivity. }
  eexists. split; [exact E|]. split; [reflexivity|]. split.
  - intros Hj. apply join_nil in Hj.
    + apply Forall_forall. intros t Hin.
      destruct (nonblank t) eqn:Et; [|reflexivity]. exfalso.
      assert (Hin' : t ∈ filter (fun t => nonblank t = true) texts).
      { apply list_elem_of_filter. split; [exact Et|exact Hin]. }
      rewrite Hj in Hin'. inversion Hin'.
    + apply Forall_forall. intros t Hin.
      apply list_elem_of_filter in Hin. apply nonblank_nonempty. tauto.
  - intros Hall. replace (filter _ texts) with (@nil pystr); [reflexivity|].
    symmetry. clear H E. induction Hall as [|t texts Ht Hall IH]; [reflexivity|].
    rewrite filter_cons. destruct (decide (nonblank t = true)) as [Hd|_]; [congruence|].
    exact IH.
Qed.

End ImportFile.

(** ** FileManager.export_images *)

Section ExportImages.
Import FileManager.
Context {image : Type}.
Variable lower : pystr -> pystr.
Variable fails : effect image -> option exception.
Variable add_picture_error : pystr -> option exception.

#[local] Abbreviation export_images :=
  (FileManager.export_images lower fails add_picture_error).
#[local] Abbreviation export_body :=
  (FileManager.export_body lower fails add_picture_error).
#[local] Abbreviation save_pages := (FileManager.save_pages fails).
#[local] Abbreviation add_pictures := (FileManager.add_pictures fails add_picture_error).
#[local] Abbreviation temp_effects := (FileManager.temp_effects fails).

(** The paths of [n] pages from index [i] on. *)
Lemma page_path_inj base_path ext i j :
  page_path base_path ext i = page_path base_path ext j -> i = j.
Proof.
  unfold page_path. intros H.
  apply app_inv_head in H. apply app_inv_head in H.
  rewrite !app_assoc in H. apply app_inv_tail in H. apply app_inv_tail in H.
  apply str_of_int_inj in H. lia.
Qed.

(** The loop of the image formats: it saves pages in order until a save
    fails. *)
Lemma save_pages_spec base_path ext img_format images :
  forall i results done r done',
    save_pages base_path ext img_format i images results done = (r, done') ->
    exists k, (k <= length images)%nat /\
      done' = done ++ page_saves base_path ext img_format i (take k images) /\
      ((k = length images /\
        r = Returns (results ++
                     map (fun j => page_path base_path ext (i + Z.of_nat j))
                       (seq 0 (length images)))) \/
       (exists img e, images !! k = Some img /\
          fails (SaveImage (page_path base_path ext (i + Z.of_nat k)) img img_format)
            = Some e /\
          r = Raises e)).
Proof.
  induction images as [|img rest IH]; intros i results done r done' H;
    cbn [FileManager.save_pages] in H.
  - injection H as <- <-. exists 0%nat. split; [reflexivity|].
    cbn. rewrite !app_nil_r. split; [reflexivity|]. left. split; reflexivity.
  - destruct (fails (SaveImage (page_path base_path ext i) img img_format))
      as [e|] eqn:Ef.
    + injection H as <- <-. exists 0%nat. split; [cbn; lia|].
      cbn [take page_saves]. rewrite app_nil_r. split; [reflexivity|]. right.
      exists img, e. rewrite Z.add_0_r. split; [reflexivity|]. split; [exact Ef|reflexivity].
    + destruct (IH _ _ _ _ _ H) as (k & Hk & -> & Hr). exists (S k).
      split; [cbn; lia|]. cbn [take page_saves]. rewrite <- app_assoc.
      split; [reflexivity|].
      destruct Hr as [[-> ->]|(img' & e & Hl & Hf & ->)].
      * left. split; [reflexivity|]. f_equal. rewrite <- app_assoc. f_equal.
        cbn [length seq map app]. rewrite Z.add_0_r. f_equal.
        rewrite <- seq_shift, map_map. apply map_ext. intros j. f_equal. lia.
      * right. exists img', e. split; [exact Hl|]. split; [|reflexivity].
        rewrite <- Hf. do 3 f_equal. lia.
Qed.

(** The extension of the page files of an image format. *)
Lemma image_branch images base_path format dpi :
  format <> str "pdf" ->
  str_in (lower format) [str "png"; str "jpg"; str "jpeg"] = true ->
  export_body images base_path format dpi =
  let ext :=
    if str_in (lower format) [str "jpg"; str "jpeg"] then str "jpg" else str "png" in
  save_pages base_path ext
    (if str_in (lower format) [str "jpg"; str "jpeg"] then str "JPEG" else str "PNG")
    0 images [] [].
Proof.
  intros Hpdf Himg. unfold FileManager.export_body.
  apply str_eqb_neq in Hpdf. rewrite Hpdf, Himg.
  destruct (str_in (lower format) [str "jpg"; str "jpeg"]); reflexivity.
Qed.

(** X11. An export in an image format ([png], [jpg] or [jpeg], in any case
    of the letters) that succeeds returns one path for each image, in
    order: the base path, the page number counted from 1, and the
    extension, which is [jpg] for both [jpg] and [jpeg].  The paths are
    pairwise different, and what is done is to save each image under its
    path. *)
Theorem image_export_names_pages (images : list image)
    (base_path format : pystr) (dpi : Z) results done :
  format <> str "pdf" ->
  str_in (lower format) [str "png"; str "jpg"; str "jpeg"] = true ->
  export_images images base_path format dpi = (Returns results, done) ->
  let jpg := str_in (lower format) [str "jpg"; str "jpeg"] in
  let ext := if jpg then str "jpg" else str "png" in
  results =
    map (fun j => base_path ++ str "_第" ++ MainWindow.str_of_int (Z.of_nat j + 1) ++
                  str "页." ++ ext)
      (seq 0 (length images)) /\
  NoDup results /\
  done = page_saves base_path ext (if jpg then str "JPEG" else str "PNG") 0 images.
Proof.
  intros Hpdf Himg H. cbv zeta. unfold FileManager.export_images in H.
  rewrite (image_branch _ _ _ _ Hpdf Himg) in H. cbv zeta in H.
  destruct (save_pages _ _ _ _ _ _ _) as [[r|e] done0] eqn:E; [|discriminate].
  injection H as -> ->.
  destruct (save_pages_spec _ _ _ _ _ _ _ _ _ E) as (k & Hk & -> & Hr).
  destruct Hr as [[-> Hr]|(? & ? & _ & _ & ?)]; [|discriminate].
  injection Hr as ->. cbn [app]. rewrite firstn_all.
  split; [reflexivity|]. split; [|reflexivity].
  apply NoDup_fmap_2_strong; [|apply NoDup_seq].
  intros a b _ _ Hab.
  apply (page_path_inj base_path _ (0 + Z.of_nat a) (0 + Z.of_nat b)) in Hab. lia.
Qed.

(** X12. When an export in an image format fails, the exception is an
    [Exception] with the message of the failed save after the words for a
    failed export, and the pages saved before the failing one are left in
    place: nothing is undone. *)
Theorem failed_image_export_keeps_pages (images : list image)
    (base_path format : pystr) (dpi : Z) e done :
  format <> str "pdf" ->
  str_in (lower format) [str "png"; str "jpg"; str "jpeg"] = true ->
  export_images images base_path format dpi = (Raises e, done) ->
  let jpg := str_in (lower format) [str "jpg"; str "jpeg"] in
  let ext := if jpg then str "jpg" else str "png" in
  let img_format := if jpg then str "JPEG" else str "PNG" in
  exists k img e',
    images !! k = Some img /\
    fails (SaveImage (page_path base_path ext (Z.of_nat k)) img img_format) = Some e' /\
    e = mkException OtherException (str "导出图片失败: " ++ exc_str e') /\
    done = page_saves base_path ext img_format 0 (take k images).
Proof.
  intros Hpdf Himg H. cbv zeta. unfold FileManager.export_images in H.
  rewrite (image_branch _ _ _ _ Hpdf Himg) in H. cbv zeta in H.
  destruct (save_pages _ _ _ _ _ _ _) as [[r|e0] done0] eqn:E; [discriminate|].
  injection H as He Hd. subst e done.
  destruct (save_pages_spec _ _ _ _ _ _ _ _ _ E) as (k & Hk & Hd & Hr).
  destruct Hr as [[_ Hr]|(img & e' & Hl & Hf & Hr)]; [discriminate|].
  injection Hr as Hr. subst e0 done0. exists k, img, e'.
  split; [exact Hl|]. split; [exact Hf|]. split; reflexivity.
Qed.

(** X13. The PDF format is the only one that is matched as it is written: a
    format that [lower] turns into [pdf] but that is not [pdf] itself is
    refused as not supported, and nothing is written. *)
Theorem pdf_format_is_case_sensitive (images : list image)
    (base_path format : pystr) (dpi : Z) :
  lower format = str "pdf" -> format <> str "pdf" ->
  export_images images base_path format dpi =
  (Raises (mkException OtherException
             (str "导出图片失败: " ++ str "不支持的导出格式: " ++ format)), []).
Proof.
  intros Hl Hf. unfold FileManager.export_images, FileManager.export_body.
  apply str_eqb_neq in Hf. rewrite Hf, Hl. reflexivity.
Qed.

(** The loop of the Word format when it ends without an exception. *)
Lemma add_pictures_spec base_path n images :
  forall i doc done doc' done',
    i + len images = n ->
    add_pictures base_path n i images doc done = (Returns doc', done') ->
    doc' = doc ++ document_of base_path i images /\
    done' = done ++ temp_effects base_path i images.
Proof.
  induction images as [|img rest IH]; intros i doc done doc' done' Hn H;
    cbn [FileManager.add_pictures] in H.
  - injection H as <- <-. cbn. rewrite !app_nil_r. split; reflexivity.
  - destruct (fails (SaveImage (temp_path base_path i) img (str "PNG"))); [discriminate|].
    destruct (add_picture_error (temp_path base_path i)); [discriminate|].
    unfold len in Hn. cbn [length] in Hn.
    apply IH in H; [|unfold len; lia]. destruct H as [-> ->].
    cbn [document_of FileManager.temp_effects]. split.
    + destruct rest as [|img' rest].
      * destruct (Z.ltb_spec i (n - 1)); [cbn in Hn; lia|].
        cbn. rewrite app_nil_r. reflexivity.
      * destruct (Z.ltb_spec i (n - 1)); [|cbn [length] in Hn; lia].
        rewrite <- !app_assoc. reflexivity.
    + destruct (fails (Remove (temp_path base_path i)));
        rewrite <- !app_assoc; reflexivity.
Qed.

(** X14. An export in the Word format that succeeds returns the one path of
    the document, also when there is no image.  The document holds the
    images in order with a page break between two of them and none at the
    end; every temporary file is saved and then removed, unless its removal
    fails, which is ignored; the document is saved last. *)
Theorem word_export_separates_pages (images : list image)
    (base_path format : pystr) (dpi : Z) results done :
  format <> str "pdf" -> lower format = str "docx" ->
  export_images images base_path format dpi = (Returns results, done) ->
  results = [base_path ++ str ".docx"] /\
  done = temp_effects base_path 0 images ++
         [SaveDocument (base_path ++ str ".docx") (document_of base_path 0 images)].
Proof.
  intros Hpdf Hl H. unfold FileManager.export_images, FileManager.export_body in H.
  apply str_eqb_neq in Hpdf. rewrite Hpdf, Hl in H.
  change (str_in (str "docx") [str "png"; str "jpg"; str "jpeg"]) with false in H.
  change (str_eqb (str "docx") (str "docx")) with true in H. cbv iota in H.
  destruct (add_pictures _ _ _ _ _ _) as [[doc|e] done0] eqn:E; [|discriminate].
  apply add_pictures_spec in E; [|lia]. destruct E as [-> ->]. cbn [app] in H.
  destruct (fails (SaveDocument _ _)); [discriminate|].
  injection H as <- <-. split; reflexivity.
Qed.

End ExportImages.

(** ** MainWindow.batch_import *)

Section BatchImport.
Import Batch.
Variable import_file : FileManager.Path -> outcome exception pystr.
Variable wasCanceled : nat -> bool.

#[local] Abbreviation import_loop := (Batch.import_loop import_file wasCanceled).
#[local] Abbreviation imported_texts := (Batch.imported_texts import_file wasCanceled).

Lemma import_loop_spec file_names :
  forall i st,
    let st' := import_loop i file_names st in
    combined_text st' = fold_left add_text (imported_texts i file_names) (combined_text st) /\
    imported_count st' = imported_count st + len (imported_texts i file_names) /\
    (length (warnings st') <= length (warnings st) + length file_names)%nat /\
    ((forall j, wasCanceled j = false) ->
     imported_count st' + len (warnings st') =
     imported_count st + len (warnings st) + len file_names).
Proof.
  induction file_names as [|f rest IH]; intros i st; cbv zeta.
  - cbn. unfold len. cbn. split; [reflexivity|]. split; [lia|]. split; [lia|].
    intros _. lia.
  - cbn [Batch.import_loop Batch.imported_texts].
    destruct (import_file f) as [text|e].
    + destruct (wasCanceled i) eqn:Ec.
      * cbn [fold_left combined_text imported_count warnings]. unfold len.
        cbn [length]. split; [reflexivity|]. split; [lia|]. split; [lia|].
        intros Hq. rewrite Hq in Ec. discriminate.
      * specialize (IH (S i) {| combined_text := add_text (combined_text st) text;
                                imported_count := imported_count st + 1;
                                warnings := warnings st |}).
        cbv zeta in IH. cbn [combined_text imported_count warnings] in IH.
        destruct IH as (H1 & H2 & H3 & H4). cbn [fold_left]. unfold len in *.
        cbn [length]. split; [exact H1|]. split; [lia|]. split; [lia|].
        intros Hq. specialize (H4 Hq). lia.
    + specialize (IH (S i)
                    {| combined_text := combined_text st;
                       imported_count := imported_count st;
                       warnings :=
                         warnings st ++
                         [str "导入文件 '" ++ FileManager.name f ++ str "' 时出错: " ++
                          exc_str e] |}).
      cbv zeta in IH. cbn [combined_text imported_count warnings] in IH.
      destruct IH as (H1 & H2 & H3 & H4). unfold len in *.
      rewrite length_app in H3, H4. cbn [length] in *.
      split; [exact H1|]. split; [lia|]. split; [lia|].
      intros Hq. specialize (H4 Hq). lia.
Qed.

Lemma fold_add_text_nonempty (texts : list pystr) :
  forall c, c <> [] ->
    fold_left add_text texts c = c ++ concat (map (fun t => separator ++ t) texts).
Proof.
  induction texts as [|t texts IH]; intros c Hc; cbn [fold_left map concat].
  - rewrite app_nil_r. reflexivity.
  - rewrite IH.
    + unfold add_text. destruct c; [contradiction|]. rewrite <- !app_assoc. reflexivity.
    + unfold add_text. destruct c; [contradiction|discriminate].
Qed.

Lemma join_cons (sep t : pystr) (texts : list pystr) :
  join sep (t :: texts) = t ++ concat (map (fun t' => sep ++ t') texts).
Proof.
  revert t. induction texts as [|t' texts IH]; intros t.
  - cbn. rewrite app_nil_r. reflexivity.
  - change (join sep (t :: t' :: texts)) with (t ++ sep ++ join sep (t' :: texts)).
    rewrite IH. cbn [map concat]. rewrite <- app_assoc. reflexivity.
Qed.

Lemma fold_add_text (texts : list pystr) :
  fold_left add_text texts [] = join separator (drop_empty texts).
Proof.
  induction texts as [|t texts IH]; [reflexivity|].
  cbn [fold_left]. destruct t as [|c t].
  - exact IH.
  - cbn [drop_empty]. rewrite join_cons. apply fold_add_text_nonempty. discriminate.
Qed.

(** X15. The text that a batch import puts together is the texts of the
    imported files, without the empty ones at the start, joined by the
    line of 30 equal signs; a file is imported when [import_file] returns
    for it before the progress dialog is found cancelled.  The count
    reported is the number of these files, and when the dialog is never
    cancelled every file is either counted or warned about. *)
Theorem batch_import_joins_texts (file_names : list FileManager.Path) :
  let st := Batch.batch_import import_file wasCanceled file_names in
  let texts := imported_texts 0 file_names in
  combined_text st = join separator (drop_empty texts) /\
  imported_count st = len texts /\
  ((forall j, wasCanceled j = false) ->
   imported_count st + len (warnings st) = len file_names).
Proof.
  cbv zeta. unfold Batch.batch_import.
  pose proof (import_loop_spec file_names 0
                {| combined_text := []; imported_count := 0; warnings := [] |}) as H.
  cbv zeta in H. cbn [combined_text imported_count warnings] in H.
  destruct H as (H1 & H2 & _ & H4).
  split; [rewrite H1; apply fold_add_text|]. split; [lia|].
  intros Hq. specialize (H4 Hq). unfold len in *. cbn [length] in H4. lia.
Qed.

End BatchImport.

(** ** MainWindow.batch_export: the sections of the text *)

Section Sections.
Import Batch.

Lemma range_lookup step stop :
  forall fuel start k i,
    range fuel start stop step !! k = Some i -> i = start + Z.of_nat k * step.
Proof.
  induction fuel as [|fuel IH]; intros start k i H; cbn [range] in H.
  - discriminate.
  - destruct (start <? stop); [|discriminate]. destruct k as [|k]; cbn in H.
    + injection H as <-. lia.
    + apply IH in H. lia.
Qed.

Lemma range_bounds step stop :
  0 < step ->
  forall fuel start, Forall (fun i => start <= i < stop) (range fuel start stop step).
Proof.
  intros Hs. induction fuel as [|fuel IH]; intros start; cbn [range].
  - constructor.
  - destruct (Z.ltb_spec start stop); [|constructor]. constructor; [lia|].
    eapply Forall_impl; [apply IH|]. cbn. intros i Hi. lia.
Qed.

Lemma range_length step stop :
  0 < step ->
  forall fuel start,
    - step < stop - start -> (Z.to_nat (stop - start) <= fuel)%nat ->
    Z.of_nat (length (range fuel start stop step)) = (stop - start + step - 1) / step.
Proof.
  intros Hs.
  assert (Hsmall : forall start, - step < stop - start -> stop <= start ->
                                 (stop - start + step - 1) / step = 0).
  { intros start H1 H2. apply Z.div_small. lia. }
  induction fuel as [|fuel IH]; intros start Hlo Hf; cbn [range].
  - cbn [length]. rewrite Hsmall; [reflexivity|exact Hlo|lia].
  - destruct (Z.ltb_spec start stop) as [Hlt|Hge].
    + cbn [length]. rewrite Nat2Z.inj_succ, IH by lia.
      replace (stop - start + step - 1) with (stop - (start + step) + step - 1 + 1 * step)
        by lia.
      rewrite Z.div_add by lia. lia.
    + cbn [length]. rewrite Hsmall; [reflexivity|exact Hlo|exact Hge].
Qed.

Lemma slice_length {A : Type} (l : list A) (i j : Z) :
  0 <= i -> len (slice l i j) = Z.max 0 (Z.min (j - i) (len l - i)).
Proof.
  intros Hi. unfold slice, len. rewrite length_take, length_drop. lia.
Qed.

Lemma range_concat (text : pystr) (chars : Z) :
  0 < chars ->
  forall fuel start,
    0 <= start -> (Z.to_nat (len text - start) <= fuel)%nat ->
    concat (map (fun i => slice text i (i + chars)) (range fuel start (len text) chars))
    = drop (Z.to_nat start) text.
Proof.
  intros Hc. induction fuel as [|fuel IH]; intros start Hs Hf; cbn [range map concat].
  - symmetry. apply drop_ge. unfold len in *. lia.
  - destruct (Z.ltb_spec start (len text)) as [Hlt|Hge]; cbn [map concat].
    + rewrite IH by lia. unfold slice.
      replace (start + chars - start) with chars by lia.
      rewrite Z2Nat.inj_add by lia.
      rewrite <- (drop_drop text (Z.to_nat chars) (Z.to_nat start)).
      apply take_drop.
    + symmetry. apply drop_ge. unfold len in *. lia.
Qed.

(** X16. A batch export that splits the text makes sections that put
    together give the text back; section [k] is the characters from
    [k * chars_per_section] on, at most [chars_per_section] of them and at
    least one; and their number is the one announced to the progress
    dialog. *)
Theorem text_sections_split_the_text (text : pystr) (chars_per_section : Z) :
  0 < chars_per_section ->
  let parts := text_sections text chars_per_section in
  concat parts = text /\
  len parts = sections text chars_per_section /\
  Forall (fun part => 1 <= len part <= chars_per_section) parts /\
  (forall k part, parts !! k = Some part ->
     part = slice text (Z.of_nat k * chars_per_section)
              (Z.of_nat k * chars_per_section + chars_per_section)).
Proof.
  intros Hc. cbv zeta. unfold text_sections, sections.
  split; [|split; [|split]].
  - rewrite (range_concat text chars_per_section Hc) by (unfold len; lia).
    reflexivity.
  - unfold len at 1. rewrite length_map.
    rewrite (range_length chars_per_section (len text) Hc) by (unfold len; lia).
    f_equal. lia.
  - apply Forall_map.
    eapply Forall_impl; [apply (range_bounds chars_per_section (len text) Hc)|].
    cbn. intros i Hi. rewrite slice_length by lia. lia.
  - intros k part H. rewrite list_lookup_fmap in H.
    destruct (range (length text) 0 (len text) chars_per_section !! k) as [i|] eqn:E;
      [|discriminate].
    apply range_lookup in E. cbn in H. injection H as <-. subst i.
    rewrite Z.add_0_l. reflexivity.
Qed.

End Sections.

(** ** MainWindow.adjust_line_spacing: the slot of the font size *)

Section FontSizeSlot.
Import MainWindow.

(** X18. When the font size changes to a value of 2 or more, the slot
    leaves the line spacing box with a value that is not below the old one,
    and that exceeds the font size exactly when the maximum of the box
    does: a font size at or above the maximum cannot be exceeded.  The
    range of the box is kept. *)
Theorem font_size_slot_raises_line_spacing (font_size : Z) (ui : widgets) (sb : spinbox) :
  margin_inputs ui !! "行间距" = Some sb ->
  minimum sb <= maximum sb -> value sb <= maximum sb ->
  2 <= font_size < 2 ^ 51 ->
  exists ui' sb',
    Window.adjust_line_spacing font_size ui = Returns ui' /\
    (margin_inputs ui' !! "行间距" = Some sb') /\
    minimum sb' = minimum sb /\ maximum sb' = maximum sb /\
    value sb <= value sb' /\
    (font_size < value sb' <-> font_size < maximum sb).
Proof.
  intros Hsb Hmm Hv Hfs. unfold Window.adjust_line_spacing. rewrite Hsb.
  rewrite one_and_a_half_times_exact by lia. cbn [mbind outcome_bind].
  assert (Hq : font_size < 3 * font_size / 2).
  { assert (font_size + 1 <= 3 * font_size / 2)
      by (apply Z.div_le_lower_bound; lia).
    lia. }
  destruct (Z.ltb_spec (value sb) (3 * font_size / 2)) as [Hlt|Hge].
  - eexists _, _. split; [reflexivity|]. cbn [margin_inputs].
    split; [apply lookup_insert_eq|]. unfold setValue. cbn [minimum maximum value].
    split; [reflexivity|]. split; [reflexivity|]. lia.
  - exists ui, sb. split; [reflexivity|]. split; [exact Hsb|].
    split; [reflexivity|]. split; [reflexivity|]. lia.
Qed.

End FontSizeSlot.
(** ** PreviewWidget.fit_to_window *)

Section FitToWindow.
Import Float FloatSpec FloatSign PreviewZoom.

#[local] Opaque bpow.

Lemma round_true_nonpositive n d : nonpositive (round true n d).
Proof.
  unfold round, to_float. destruct n as [|p|p]; try exact I.
  destruct (round_fraction (Z.pos p) d) as [m e]. destruct m as [|q|q]; try exact I.
  destruct (Z.pos q =? 2 ^ prec).
  - destruct (e + 1 <=? emax - prec); exact I.
  - destruct (e <=? emax - prec); exact I.
Qed.

Lemma int_truediv_finite a b r : int_truediv a b = Returns r -> finite r.
Proof.
  unfold int_truediv. destruct (b =? 0); [discriminate|].
  pose proof (round_not_nan (xorb (a <? 0) (b <? 0)) (Z.abs a) (Z.abs b)) as Hn.
  destruct (round _ _ _) as [s|s| |s m e]; cbn [is_infinite]; try discriminate;
    intros [= <-]; try exact I. contradiction.
Qed.

(** A quotient with a numerator that is not positive. *)
Lemma int_truediv_nonpositive a b r :
  a <= 0 -> 0 < b -> int_truediv a b = Returns r -> nonpositive r.
Proof.
  intros Ha Hb. unfold int_truediv. destruct (Z.eqb_spec b 0); [lia|].
  destruct (Z.ltb_spec b 0); [lia|].
  destruct (Z.ltb_spec a 0) as [Hneg|Hz]; cbn [xorb].
  - destruct (is_infinite _); [discriminate|]. intros [= <-].
    apply round_true_nonpositive.
  - assert (a = 0) by lia. subst a. change (Z.abs 0) with 0.
    rewrite round_zero. cbn [is_infinite]. intros [= <-]. exact I.
Qed.

Lemma float_min_nonpositive x y :
  finite x -> finite y -> nonpositive x \/ nonpositive y ->
  nonpositive (float_min x y).
Proof.
  unfold float_min, SFltb, SFcompare.
  destruct x as [[|]|[|]| |[|] mx ex], y as [[|]|[|]| |[|] my ey];
    cbn [finite nonpositive]; intros Hx Hy H; try contradiction; try exact I;
    try (destruct H; contradiction);
    try (destruct (ey ?= ex); try exact I;
         destruct (Pos.compare_cont Eq my mx); exact I).
Qed.

Lemma mul_f100_nonpositive x :
  finite x -> nonpositive x -> nonpositive (mul x f100).
Proof.
  destruct x as [[|]|[|]| |[|] m e]; cbn [finite nonpositive];
    intros Hf Hn; try contradiction; try exact I.
  unfold mul, f100. destruct (shift _ _ _) as [n d]. apply round_true_nonpositive.
Qed.

Lemma to_int_nonpositive x t : nonpositive x -> to_int x = Returns t -> t <= 0.
Proof.
  destruct x as [[|]|[|]| |[|] m e]; cbn [nonpositive to_int];
    intros Hn; try contradiction; try discriminate; intros [= <-]; try lia.
  destruct (Z.leb_spec 0 e).
  - assert (0 <= Z.pos m * 2 ^ e); [|lia].
    apply Z.mul_nonneg_nonneg; [lia|]. apply Z.pow_nonneg. lia.
  - assert (0 <= Z.pos m / 2 ^ (- e)); [|lia].
    apply Z.div_pos; [lia|]. apply Z.pow_pos_nonneg; lia.
Qed.

(** The two steps of [fit_level] after the quotients. *)
Lemma fit_level_inv vw vh iw ih level :
  fit_level vw vh iw ih = Returns level ->
  exists wr hr,
    int_truediv (vw - 20) iw = Returns wr /\
    int_truediv (vh - 20) ih = Returns hr /\
    to_int (mul (float_min wr hr) f100) = Returns level.
Proof.
  unfold fit_level. intros H.
  apply bind_Returns_inv in H. destruct H as (wr & Ew & H).
  apply bind_Returns_inv in H. destruct H as (hr & Eh & H).
  apply bind_Returns_inv in H. destruct H as (ratio & Er & H).
  unfold mul_int in Er. rewrite of_int_100 in Er. cbn [mbind outcome_bind] in Er.
  injection Er as <-. exists wr, hr. split; [exact Ew|]. split; [exact Eh|exact H].
Qed.

(** A positive level needs a view that is larger than the margin of 20. *)
Lemma fit_level_positive vw vh iw ih level :
  0 < iw -> 0 < ih -> fit_level vw vh iw ih = Returns level -> 0 < level ->
  0 < vw - 20 /\ 0 < vh - 20.
Proof.
  intros Hiw Hih H Hl. destruct (fit_level_inv _ _ _ _ _ H) as (wr & hr & Ew & Eh & Et).
  pose proof (int_truediv_finite _ _ _ Ew) as Fw.
  pose proof (int_truediv_finite _ _ _ Eh) as Fh.
  assert (Hmin : ~ nonpositive (float_min wr hr)).
  { intros Hn.
    assert (Fm : finite (float_min wr hr))
      by (unfold float_min; destruct (SFltb hr wr); assumption).
    pose proof (to_int_nonpositive _ _ (mul_f100_nonpositive _ Fm Hn) Et). lia. }
  split.
  - destruct (Z_lt_le_dec 0 (vw - 20)) as [L|G]; [exact L|exfalso].
    apply Hmin. apply float_min_nonpositive; [assumption..|]. left.
    exact (int_truediv_nonpositive _ _ _ G Hiw Ew).
  - destruct (Z_lt_le_dec 0 (vh - 20)) as [L|G]; [exact L|exfalso].
    apply Hmin. apply float_min_nonpositive; [assumption..|]. right.
    exact (int_truediv_nonpositive _ _ _ G Hih Eh).
Qed.

(** The mantissa of a valid float has at most 53 digits, and exactly 53
    above the smallest exponent. *)
Lemma bounded_digits m e :
  bounded prec emax m e = true ->
  Z.pos m < 2 ^ prec /\ (emin < e -> 2 ^ (prec - 1) <= Z.pos m).
Proof.
  unfold bounded, canonical_mantissa. intros H. apply andb_true_iff in H.
  destruct H as [H _]. apply Z.eqb_eq in H. rewrite fexp_eq in H.
  change (Z.pos (digits2_pos m)) with (Zdigits2 (Z.pos m)) in H.
  pose proof (Zdigits2_bounds (Z.pos m) ltac:(lia)) as [B1 B2].
  unfold Float.fexp in H. split.
  - eapply Z.lt_le_trans; [exact B2|]. apply Z.pow_le_mono_r; lia.
  - intros He. replace (prec - 1) with (Zdigits2 (Z.pos m) - 1) by lia. exact B1.
Qed.

Lemma bpow_53 : (bpow 53 == 9007199254740992)%Q.
Proof. rewrite <- bpow_inject by lia. reflexivity. Qed.

(** Of two valid positive floats, the one with the smaller exponent is the
    smaller. *)
Lemma valid_exp_lt mx ex my ey :
  bounded prec emax mx ex = true -> bounded prec emax my ey = true -> ex < ey ->
  (inject_Z (Z.pos mx) * bpow ex <= inject_Z (Z.pos my) * bpow ey)%Q.
Proof.
  intros Hx Hy Hlt.
  assert (Hex : emin <= ex).
  { unfold bounded, canonical_mantissa in Hx. apply andb_true_iff in Hx.
    destruct Hx as [Hx _]. apply Z.eqb_eq in Hx. rewrite fexp_eq in Hx.
    unfold Float.fexp in Hx. lia. }
  destruct (bounded_digits _ _ Hx) as [Bx _].
  destruct (bounded_digits _ _ Hy) as [_ By]. specialize (By ltac:(lia)).
  unfold prec in Bx, By. rewrite Zlt_Qlt in Bx.
  change (inject_Z (2 ^ 53)) with 9007199254740992%Q in Bx.
  rewrite Zle_Qle in By.
  change (inject_Z (2 ^ (53 - 1))) with 4503599627370496%Q in By.
  pose proof (bpow_pos ex) as Px. pose proof (bpow_pos ey) as Py.
  assert (Pxy : (2 * bpow ex <= bpow ey)%Q).
  { rewrite <- bpow_1, <- bpow_add. apply bpow_le. lia. }
  assert (A1 : (inject_Z (Z.pos mx) * bpow ex <= 9007199254740992 * bpow ex)%Q)
    by (apply Qmult_le_compat_r; lra).
  assert (A2 : (4503599627370496 * bpow ey <= inject_Z (Z.pos my) * bpow ey)%Q)
    by (apply Qmult_le_compat_r; lra).
  lra.
Qed.

(** [min] on two valid floats that are not negative is one of them and is
    below both. *)
Lemma float_min_le x y :
  nonneg_finite x -> nonneg_finite y ->
  valid_binary prec emax x = true -> valid_binary prec emax y = true ->
  (float_min x y = x \/ float_min x y = y) /\
  (B2Q (float_min x y) <= B2Q x)%Q /\ (B2Q (float_min x y) <= B2Q y)%Q.
Proof.
  intros Hx Hy Vx Vy. split.
  { unfold float_min. destruct (SFltb y x); [right|left]; reflexivity. }
  destruct x as [[|]|[|]| |[|] mx ex]; cbn [nonneg_finite] in Hx; try contradiction;
    destruct y as [[|]|[|]| |[|] my ey]; cbn [nonneg_finite] in Hy; try contradiction.
  - cbn. lra.
  - cbn [float_min SFltb SFcompare B2Q]. unfold float_min, SFltb, SFcompare, B2Q, value.
    cbn [fst snd]. pose proof (bpow_pos ey).
    pose proof (inject_Z_pos (Z.pos my) ltac:(lia)).
    assert (0 < inject_Z (Z.pos my) * bpow ey)%Q by (apply Qmult_lt_0_compat; assumption).
    lra.
  - unfold float_min, SFltb, SFcompare, B2Q, value.
    cbn [fst snd]. pose proof (bpow_pos ex).
    pose proof (inject_Z_pos (Z.pos mx) ltac:(lia)).
    assert (0 < inject_Z (Z.pos mx) * bpow ex)%Q by (apply Qmult_lt_0_compat; assumption).
    lra.
  - cbn [valid_binary] in Vx, Vy.
    unfold float_min, SFltb, SFcompare.
    change (Pos.compare_cont Eq my mx) with (my ?= mx)%positive.
    destruct (Z.compare_spec ey ex) as [E|L|G].
    + subst ey. pose proof (bpow_pos ex) as Px.
      destruct (Pos.compare_spec my mx) as [E|L|G]; unfold B2Q, value; cbn [fst snd].
      * subst my. lra.
      * assert (A : (inject_Z (Z.pos my) <= inject_Z (Z.pos mx))%Q)
          by (rewrite <- Zle_Qle; lia).
        assert (inject_Z (Z.pos my) * bpow ex <= inject_Z (Z.pos mx) * bpow ex)%Q
          by (apply Qmult_le_compat_r; lra).
        lra.
      * assert (A : (inject_Z (Z.pos mx) <= inject_Z (Z.pos my))%Q)
          by (rewrite <- Zle_Qle; lia).
        assert (inject_Z (Z.pos mx) * bpow ex <= inject_Z (Z.pos my) * bpow ex)%Q
          by (apply Qmult_le_compat_r; lra).
        lra.
    + pose proof (valid_exp_lt _ _ _ _ Vy Vx L) as A.
      unfold B2Q, value; cbn [fst snd]. lra.
    + pose proof (valid_exp_lt _ _ _ _ Vx Vy ltac:(lia)) as A.
      unfold B2Q, value; cbn [fst snd]. lra.
Qed.

(** The relative error of a rounding, from above. *)
Lemma rounds_to_upper x r :
  rounds_to x r -> (bpow (emin + prec - 1) <= x)%Q ->
  (value r <= x * (1 + (1 # 9007199254740992)))%Q.
Proof.
  destruct r as [m e]. unfold rounds_to, value. cbn [fst snd].
  intros (k & [K1 K2] & E & [[N1 N2] _]) Hx.
  assert (Hk : emin + prec <= k).
  { destruct (Z_le_gt_dec (emin + prec) k) as [J|J]; [exact J|exfalso].
    assert (B : (bpow k <= bpow (emin + prec - 1))%Q) by (apply bpow_le; lia). lra. }
  assert (He : e = k - prec) by (unfold Float.fexp in *; lia).
  pose proof (bpow_split (k - 1) 52 e ltac:(unfold prec in *; lia)) as Eb.
  rewrite bpow_52 in Eb.
  pose proof (bpow_opp e) as Oe. pose proof (bpow_pos e) as Pe.
  assert (X : (x * bpow (- e) * bpow e == x)%Q).
  { transitivity (x * (bpow e * bpow (- e)))%Q; [ring | rewrite Oe; ring]. }
  assert (A : ((inject_Z m - (1#2)) * bpow e <= x * bpow (- e) * bpow e)%Q)
    by (apply Qmult_le_compat_r; lra).
  lra.
Qed.

(** A quotient of two positive ints below [2^31]. *)
Lemma ratio_bounds v i :
  0 < v < 2 ^ 31 -> 0 < i < 2 ^ 31 ->
  is_infinite (round false v i) = false /\
  nonneg_finite (round false v i) /\
  (bpow (-32) <= B2Q (round false v i))%Q /\
  (B2Q (round false v i) <= frac v i * (1 + (1 # 9007199254740992)))%Q.
Proof.
  intros [Hv Hv'] [Hi Hi'].
  pose proof (frac_mul v i Hi) as EF. pose proof (frac_pos v i Hv Hi) as PF.
  pose proof (inject_Z_pos i Hi) as PW.
  assert (HV : (1 <= inject_Z v)%Q) by (change 1%Q with (inject_Z 1); rewrite <- Zle_Qle; lia).
  assert (HV' : (inject_Z v < 2147483648)%Q)
    by (change 2147483648%Q with (inject_Z (2 ^ 31)); rewrite <- Zlt_Qlt; lia).
  assert (HW : (1 <= inject_Z i)%Q) by (change 1%Q with (inject_Z 1); rewrite <- Zle_Qle; lia).
  assert (HW' : (inject_Z i < 2147483648)%Q)
    by (change 2147483648%Q with (inject_Z (2 ^ 31)); rewrite <- Zlt_Qlt; lia).
  assert (B31 : (bpow 31 == 2147483648)%Q) by (rewrite <- bpow_inject by lia; reflexivity).
  assert (Bm31 : (bpow (-31) * 2147483648 == 1)%Q)
    by (rewrite <- B31, Qmult_comm; apply bpow_opp).
  assert (Bm32 : (bpow (-32) * 2 == bpow (-31))%Q)
    by (rewrite <- bpow_1, <- bpow_add; reflexivity).
  (* the fraction lies between 2^-31 and 2^31 *)
  assert (FU : (frac v i < bpow 31)%Q).
  { assert (A : (frac v i * 1 <= frac v i * inject_Z i)%Q)
      by (apply Qmult_le_l; assumption).
    lra. }
  assert (FL : (bpow (-31) <= frac v i)%Q).
  { assert (A : (frac v i * inject_Z i <= frac v i * 2147483648)%Q)
      by (apply Qmult_le_l; [assumption|lra]).
    lra. }
  pose proof (round_finite v i 31 Hv Hi FU ltac:(unfold emax; lia)) as Hfin.
  destruct (round_value v i Hv Hi Hfin) as [Hnf Hval].
  assert (FN : (bpow (emin + prec - 1) <= frac v i)%Q).
  { assert (B : (bpow (emin + prec - 1) <= bpow (-31))%Q)
      by (apply bpow_le; unfold emin, emax, prec; lia).
    lra. }
  pose proof (rounds_to_lower _ _ (round_fraction_spec v i Hv Hi) FN) as RL.
  pose proof (rounds_to_upper _ _ (round_fraction_spec v i Hv Hi) FN) as RU.
  pose proof (bpow_pos (-32)) as P32.
  split; [exact Hfin|]. split; [exact Hnf|]. rewrite Hval. split; lra.
Qed.

(** One dimension of the image under the zoom level that [fit_to_window]
    sets. *)
Lemma fit_dimension v i m level :
  0 < v < 2 ^ 31 -> 0 < i < 2 ^ 31 ->
  nonneg_finite m -> (B2Q m <= B2Q (round false v i))%Q -> (bpow (-32) <= B2Q m)%Q ->
  to_int (mul m f100) = Returns level -> 10 <= level ->
  scaled i (set_zoom level) = Returns (i * set_zoom level / 100) /\
  i * set_zoom level / 100 <= v.
Proof.
  intros Hv Hi Hm Hle Hlo Et Hl.
  destruct (ratio_bounds v i Hv Hi) as (_ & _ & _ & H1).
  pose proof (frac_mul v i ltac:(lia)) as EF.
  pose proof (inject_Z_pos i ltac:(lia)) as PW.
  assert (HV' : (inject_Z v < 2147483648)%Q)
    by (change 2147483648%Q with (inject_Z (2 ^ 31)); rewrite <- Zlt_Qlt; lia).
  assert (HV : (0 < inject_Z v)%Q) by (apply inject_Z_pos; lia).
  pose proof (bpow_pos (-32)) as P32.
  destruct m as [[|]|[|]| |[|] mm em]; cbn [nonneg_finite] in Hm;
    try (exfalso; exact Hm).
  { exfalso. cbn [B2Q] in Hlo. lra. }
  unfold f100 in Et.
  destruct (mul_spec mm em 7036874417766400 (-46)) as (n & d & Hn & Hd & Emul & Ef).
  fold f100 in Ef. rewrite B2Q_f100 in Ef. rewrite Emul in Et.
  assert (Hfin : is_infinite (round false n d) = false).
  { destruct (round false n d); try reflexivity. discriminate Et. }
  destruct (round_value n d Hn Hd Hfin) as [Hnf Hval].
  assert (FN : (bpow (emin + prec - 1) <= frac n d)%Q).
  { assert (B : (bpow (emin + prec - 1) <= bpow (-32))%Q)
      by (apply bpow_le; unfold emin, emax, prec; lia).
    lra. }
  pose proof (rounds_to_upper _ _ (round_fraction_spec n d Hn Hd) FN) as RU.
  rewrite <- Hval in RU.
  destruct (to_int_spec _ Hnf) as (t & Et' & [Ft _]). rewrite Et in Et'.
  injection Et' as <-.
  (* the level is at most 100 v / i, up to two roundings *)
  set (c := (100 * (1 + (1 # 9007199254740992)) * (1 + (1 # 9007199254740992)))%Q).
  assert (HL : (inject_Z level <= c * frac v i)%Q) by (unfold c; lra).
  pose proof (set_zoom_range level) as Hz.
  assert (Hzl : set_zoom level <= level) by (unfold set_zoom; lia).
  assert (Hprod : 0 <= i * set_zoom level < 2 ^ prec) by (unfold prec; nia).
  split.
  - unfold scaled. apply truediv_100_floor. exact Hprod.
  - assert (A : i * set_zoom level < 100 * (v + 1)).
    { rewrite Zlt_Qlt, !inject_Z_mult, inject_Z_succ.
      change (inject_Z 100) with 100%Q.
      assert (Z1 : (inject_Z (set_zoom level) <= c * frac v i)%Q).
      { rewrite Zle_Qle in Hzl. lra. }
      assert (Z2 : (inject_Z i * inject_Z (set_zoom level) <=
                    inject_Z i * (c * frac v i))%Q)
        by (apply Qmult_le_l; assumption).
      assert (Z3 : (inject_Z i * (c * frac v i) == c * inject_Z v)%Q).
      { rewrite <- EF. ring. }
      unfold c in *. lra. }
    assert (i * set_zoom level / 100 < v + 1)
      by (apply Z.div_lt_upper_bound; lia).
    lia.
Qed.

(** X19. When [fit_to_window] computes a level of 10 or more, so that
    [set_zoom] does not raise it, the image scaled by [apply_zoom] at the
    zoom level set is at most as wide and as high as the view, which is the
    viewport less 20 pixels each way.  (Sizes are 32-bit ints of Qt.) *)
Theorem fit_to_window_fits
    (viewport_width viewport_height image_width image_height level : Z) :
  0 < image_width < 2 ^ 31 -> 0 < image_height < 2 ^ 31 ->
  viewport_width < 2 ^ 31 -> viewport_height < 2 ^ 31 ->
  fit_level viewport_width viewport_height image_width image_height = Returns level ->
  10 <= level ->
  exists zoom_level width height,
    fit_to_window viewport_width viewport_height image_width image_height
      = Returns zoom_level /\
    10 <= zoom_level <= 300 /\
    scaled image_width zoom_level = Returns width /\
    scaled image_height zoom_level = Returns height /\
    width <= viewport_width - 20 /\ height <= viewport_height - 20.
Proof.
  intros Hiw Hih Hvw Hvh H Hl.
  destruct (fit_level_positive _ _ _ _ _ (proj1 Hiw) (proj1 Hih) H
              (Z.lt_le_trans 0 10 level eq_refl Hl)) as [Pw Ph].
  destruct (fit_level_inv _ _ _ _ _ H) as (wr & hr & Ew & Eh & Et).
  assert (Hq : forall v i r, 0 < v < 2 ^ 31 -> 0 < i < 2 ^ 31 ->
             int_truediv v i = Returns r -> r = round false v i).
  { intros v i r Hv Hi. unfold int_truediv.
    destruct (Z.eqb_spec i 0); [lia|]. destruct (Z.ltb_spec i 0); [lia|].
    destruct (Z.ltb_spec v 0); [lia|]. cbn [xorb].
    rewrite (Z.abs_eq v), (Z.abs_eq i) by lia.
    destruct (is_infinite _); [discriminate|]. intros [= <-]. reflexivity. }
  apply Hq in Ew; [|lia..]. apply Hq in Eh; [|lia..]. subst wr hr.
  destruct (ratio_bounds (viewport_width - 20) image_width ltac:(lia) Hiw)
    as (_ & Nw & Lw & _).
  destruct (ratio_bounds (viewport_height - 20) image_height ltac:(lia) Hih)
    as (_ & Nh & Lh & _).
  assert (Vw : valid_binary prec emax (round false (viewport_width - 20) image_width)
               = true) by (apply round_valid; lia).
  assert (Vh : valid_binary prec emax (round false (viewport_height - 20) image_height)
               = true) by (apply round_valid; lia).
  destruct (float_min_le _ _ Nw Nh Vw Vh) as (Hmin & Mw & Mh).
  set (m := float_min (round false (viewport_width - 20) image_width)
              (round false (viewport_height - 20) image_height)) in *.
  assert (Nm : nonneg_finite m) by (destruct Hmin as [-> | ->]; assumption).
  assert (Lm : (bpow (-32) <= B2Q m)%Q) by (destruct Hmin as [-> | ->]; assumption).
  assert (Rw : 0 < viewport_width - 20 < 2 ^ 31) by lia.
  assert (Rh : 0 < viewport_height - 20 < 2 ^ 31) by lia.
  destruct (fit_dimension _ _ _ _ Rw Hiw Nm Mw Lm Et Hl) as [Sw Bw].
  destruct (fit_dimension _ _ _ _ Rh Hih Nm Mh Lm Et Hl) as [Sh Bh].
  exists (set_zoom level), (image_width * set_zoom level / 100),
    (image_height * set_zoom level / 100).
  split; [unfold fit_to_window; rewrite H; reflexivity|].
  split; [apply set_zoom_range|]. split; [exact Sw|]. split; [exact Sh|].
  split; assumption.
Qed.

End FitToWindow.

(** ** PreviewWidget.update_navigation *)

Section NavigationButtons.
Context {image : Type}.

(** X20. In every state that the page cache can be in, the button of the
    previous page is enabled exactly when [prev_page] would change the
    page, and the button of the next page exactly when [next_page] would. *)
Theorem navigation_buttons_match (calls : list (PreviewManager.call (image:=image))) :
  let m := PreviewManager.after calls in
  fst (PreviewNavigation.update_navigation m) = snd (PreviewManager.prev_page m) /\
  snd (PreviewNavigation.update_navigation m) = snd (PreviewManager.next_page m).
Proof.
  cbv zeta. pose proof (after_in_range calls) as [H0 H].
  unfold PreviewNavigation.update_navigation, PreviewManager.prev_page,
    PreviewManager.next_page.
  destruct (PreviewManager.pages (PreviewManager.after calls)) as [|p ps] eqn:Ep;
    cbn [fst snd andb].
  - destruct H as [H|[_ H]]; [unfold len in H; cbn in H; lia|]. rewrite H.
    split; reflexivity.
  - split.
    + destruct (0 <? PreviewManager.current_page (PreviewManager.after calls));
        reflexivity.
    + destruct (PreviewManager.current_page (PreviewManager.after calls) <?
                len (p :: ps) - 1); reflexivity.
Qed.

End NavigationButtons.

(** ** MainWindow.export_image *)

Section ExportImage.
Import MainWindow ExportImage.
Context {image : Type}.
Variable lower : pystr -> pystr.
Variable fails : FileManager.effect image -> option exception.
Variable add_picture_error : pystr -> option exception.

(** X7. None of the filters that the export dialog offers selects the Word
    format: [export_image] looks for [DOCX] in upper case, the filter of
    Word documents has it in lower case, and the format falls to the
    default, which is PDF.  So an export with the filter of Word documents
    writes one PDF file. *)
Theorem word_filter_exports_pdf (img : image) (images : list image) (base_path : pystr) :
  let filters := Window.name_filters [] Window.get_supported_export_formats in
  filters =
    [str "PDF文件 (*.pdf)"; str "PNG图片 (*.png)"; str "JPEG图片 (*.jpg)";
     str "Word文档 (*.docx)"] /\
  map Window.export_format filters = [str "pdf"; str "png"; str "jpeg"; str "pdf"] /\
  (forall resolution,
     Float.of_int 300 = Returns resolution ->
     fails (FileManager.SavePdf (base_path ++ str ".pdf") resolution img images) = None ->
     handle_result lower fails add_picture_error (img :: images) base_path
       (Window.export_format (str "Word文档 (*.docx)")) =
     (Information
        (str "已导出 " ++ str_of_int 1 ++ str " 个文件:" ++ [10%N] ++
         base_path ++ str ".pdf"),
      [FileManager.SavePdf (base_path ++ str ".pdf") resolution img images])).
Proof.
  cbv zeta. split; [vm_compute; reflexivity|]. split; [vm_compute; reflexivity|].
  intros resolution Hres Hfails.
  unfold handle_result, FileManager.export_images, FileManager.export_body.
  change (Window.export_format (str "Word文档 (*.docx)")) with (str "pdf").
  change (str_eqb (str "pdf") (str "pdf")) with true. cbv iota.
  rewrite Hres, Hfails. reflexivity.
Qed.

(** X21. After the check that [export_image] and [batch_export] make on the
    settings, for a font size of 2 or more, the line spacing of the
    settings exceeds the font size, and [create_template] finds nothing
    left to adjust: it takes this line spacing and leaves the widgets as
    they are. *)
Theorem export_adjustment_settles_line_spacing (s : settings) (ui : widgets)
    (s' : settings) (ui' : widgets) (shown : list pystr) :
  2 <= font_size s < 2 ^ 51 ->
  adjust_settings s ui = Returns (s', ui', shown) ->
  exists line_spacing,
    (margins s' !! "行间距" = Some line_spacing) /\
    font_size s' = font_size s /\
    font_size s < line_spacing /\
    MainWindow.adjust_line_spacing s' ui' = (Returns line_spacing, ui').
Proof.
  intros Hfs. unfold adjust_settings, getitem.
  destruct (margins s !! "行间距") as [ls|] eqn:El; [|discriminate].
  cbn [mbind outcome_bind].
  destruct (Z.leb_spec ls (font_size s)) as [Hle|Hgt].
  - rewrite one_and_a_half_times_exact by lia. cbn [mbind outcome_bind].
    intros [= <- <- <-].
    assert (Hq : font_size s < 3 * font_size s / 2).
    { assert (font_size s + 1 <= 3 * font_size s / 2)
        by (apply Z.div_le_lower_bound; lia).
      lia. }
    exists (3 * font_size s / 2). cbn [margins font_size].
    split; [apply lookup_insert_eq|]. split; [reflexivity|]. split; [exact Hq|].
    unfold MainWindow.adjust_line_spacing, getitem. cbn [margins font_size].
    rewrite lookup_insert_eq.
    destruct (Z.leb_spec (3 * font_size s / 2) (font_size s)); [lia|reflexivity].
  - intros [= <- <- <-]. exists ls. split; [exact El|]. split; [reflexivity|].
    split; [exact Hgt|].
    unfold MainWindow.adjust_line_spacing, getitem. rewrite El.
    destruct (Z.leb_spec ls (font_size s)); [lia|reflexivity].
Qed.

End ExportImage.

(** ** SettingsManager.save_preset and load_presets *)

Section Presets.
Import SettingsManager.
Variable json : Type.
Variable of_settings : MainWindow.settings -> json.
Variable item_assignment : exception.

(** X22. A preset saved is a preset loaded: when the write succeeds,
    [save_preset] returns [True] and [load_presets] then returns the
    presets it returned before with the new one under its name, the others
    unchanged.  For a file that cannot be read the presets before are none:
    the file is replaced by one that holds the new preset only.  For a
    file that holds a JSON value that is no object, [save_preset] raises
    and leaves the file. *)
Theorem saved_preset_is_loaded (name : pystr) (s : MainWindow.settings)
    (f : file json) :
  let r := save_preset json of_settings item_assignment None name s f in
  match load_presets json f with
  | Dict presets =>
      fst r = Returns true /\
      load_presets json (snd r) = Dict (<[name := of_settings s]> presets) /\
      (<[name := of_settings s]> presets !! name = Some (of_settings s)) /\
      (forall other, other <> name ->
         <[name := of_settings s]> presets !! other = presets !! other) /\
      (f = Unreadable -> load_presets json (snd r) = Dict {[ name := of_settings s ]})
  | NotDict => fst r = Raises item_assignment /\ snd r = f
  end.
Proof.
  cbv zeta. unfold save_preset.
  destruct (load_presets json f) as [presets|] eqn:E; cbn [fst snd load_presets].
  - split; [reflexivity|]. split; [reflexivity|].
    split; [apply lookup_insert_eq|].
    split; [intros other Ho; apply lookup_insert_ne; congruence|].
    intros ->. cbn in E. injection E as <-. reflexivity.
  - split; reflexivity.
Qed.

End Presets.

(** ** MainWindow.batch_export: the loop *)

Section BatchExportLoop.
Import BatchExport.
Context {image Template : Type}.
Variable handwrite : pystr -> Template -> outcome exception (list image).
Variable export_images : list image -> pystr -> pystr -> Z -> outcome exception (list pystr).
Variable wasCanceled : nat -> bool.
Variable base_path : nat -> nat -> pystr.
Variable upper : pystr -> pystr.

#[local] Abbreviation export_one :=
  (BatchExport.export_one handwrite export_images base_path upper).
#[local] Abbreviation for_formats :=
  (BatchExport.for_formats handwrite export_images wasCanceled base_path upper).
#[local] Abbreviation for_sections :=
  (BatchExport.for_sections handwrite export_images wasCanceled base_path upper).

Lemma export_one_spec template dpi section_idx section_text fmt (st : locals) :
  let st' := export_one template dpi section_idx section_text fmt st in
  renders st' = renders st ++ [(section_idx, fmt)] /\
  current_task st' = S (current_task st) /\
  checks st' = checks st /\
  (length (errors st') + length (renders st) <=
   length (errors st) + length (renders st'))%nat.
Proof.
  cbv zeta. unfold BatchExport.export_one.
  destruct (handwrite section_text template) as [[|img images]|e];
    [| destruct (export_images _ _ _ _) |];
    cbn [renders current_task checks errors]; rewrite ?length_app; cbn [length];
    repeat split; lia.
Qed.

Lemma for_formats_all template dpi section_idx section_text formats :
  (forall j, wasCanceled j = false) ->
  forall st : locals,
    let st' := for_formats template dpi section_idx section_text formats st in
    renders st' = renders st ++ map (fun fmt => (section_idx, fmt)) formats /\
    current_task st' = (current_task st + length formats)%nat /\
    (length (errors st') + length (renders st) <=
     length (errors st) + length (renders st'))%nat.
Proof.
  intros Hq. induction formats as [|fmt rest IH]; intros st; cbv zeta;
    cbn [BatchExport.for_formats map length].
  - rewrite app_nil_r. repeat split; lia.
  - rewrite Hq.
    set (st1 := mkLocals (all_files st) (errors st) (current_task st)
                  (S (checks st)) (renders st)).
    pose proof (export_one_spec template dpi section_idx section_text fmt st1)
      as (R1 & C1 & _ & E1).
    specialize (IH (export_one template dpi section_idx section_text fmt st1)).
    cbv zeta in IH. destruct IH as (R2 & C2 & E2).
    rewrite R2, C2, R1, C1. rewrite R2, R1 in E2. rewrite R1 in E1.
    subst st1. cbn [renders current_task errors] in *.
    rewrite <- app_assoc. split; [reflexivity|]. split; [lia|].
    rewrite !length_app in *. cbn [length] in *. lia.
Qed.

Lemma for_formats_cancelled template dpi section_idx section_text formats :
  (forall j, wasCanceled j = true) ->
  forall st : locals,
    let st' := for_formats template dpi section_idx section_text formats st in
    renders st' = renders st /\ current_task st' = current_task st /\
    errors st' = errors st /\ all_files st' = all_files st.
Proof.
  intros Hq. destruct formats as [|fmt rest]; intros st; cbv zeta;
    cbn [BatchExport.for_formats].
  - repeat split.
  - rewrite Hq. repeat split.
Qed.

Lemma tasks_length (text_sections formats : list pystr) idx :
  length (tasks idx text_sections formats)
  = (length text_sections * length formats)%nat.
Proof.
  revert idx. induction text_sections as [|sec rest IH]; intros idx;
    cbn [tasks length Nat.mul]; [reflexivity|].
  rewrite length_app, length_map, IH. reflexivity.
Qed.

(** X23. A batch export that is never cancelled calls the renderer once for
    every pair of a section and a format, section by section, so that a
    section is rendered again for each format; the task counter ends at
    the number of sections times the number of formats, the maximum given
    to the progress dialog; and there is at most one error line for each
    task.  When the dialog is cancelled from the start on, the renderer is
    not called and nothing is exported. *)
Theorem batch_export_runs_every_task (template : Template) (dpi : Z)
    (text_sections formats : list pystr) :
  let st := for_sections template dpi 0 text_sections formats init in
  ((forall j, wasCanceled j = false) ->
   renders st = tasks 0 text_sections formats /\
   current_task st = (length text_sections * length formats)%nat /\
   (length (errors st) <= current_task st)%nat) /\
  ((forall j, wasCanceled j = true) ->
   renders st = [] /\ all_files st = [] /\ errors st = [] /\ current_task st = 0%nat).
Proof.
  cbv zeta. split.
  - intros Hq.
    assert (G : forall sections idx (st : locals),
      let st' := for_sections template dpi idx sections formats st in
      renders st' = renders st ++ tasks idx sections formats /\
      current_task st' = (current_task st + length sections * length formats)%nat /\
      (length (errors st') + length (renders st) <=
       length (errors st) + length (renders st'))%nat).
    { induction sections as [|sec rest IH]; intros idx st; cbv zeta;
        cbn [BatchExport.for_sections tasks length Nat.mul].
      - rewrite app_nil_r. repeat split; lia.
      - pose proof (for_formats_all template dpi idx sec formats Hq st) as H1.
        cbv zeta in H1. destruct H1 as (R1 & C1 & E1).
        specialize (IH (S idx) (for_formats template dpi idx sec formats st)).
        cbv zeta in IH. destruct IH as (R2 & C2 & E2).
        rewrite R2, C2, R1, C1, <- app_assoc. split; [reflexivity|]. split; [lia|].
        rewrite R2, R1 in E2. rewrite R1 in E1. rewrite !length_app in *. lia. }
    specialize (G text_sections 0%nat init). cbv zeta in G.
    destruct G as (R & C & E). cbn [init renders current_task errors app Nat.add] in *.
    split; [exact R|]. split; [exact C|].
    rewrite R, tasks_length in E. cbn [length] in E. lia.
  - intros Hq.
    assert (G : forall sections idx (st : locals),
      let st' := for_sections template dpi idx sections formats st in
      renders st' = renders st /\ current_task st' = current_task st /\
      errors st' = errors st /\ all_files st' = all_files st).
    { induction sections as [|sec rest IH]; intros idx st; cbv zeta;
        cbn [BatchExport.for_sections]; [repeat split|].
      pose proof (for_formats_cancelled template dpi idx sec formats Hq st) as H1.
      cbv zeta in H1. destruct H1 as (R1 & C1 & E1 & F1).
      specialize (IH (S idx) (for_formats template dpi idx sec formats st)).
      cbv zeta in IH. destruct IH as (R2 & C2 & E2 & F2).
      rewrite R2, C2, E2, F2. repeat split; assumption. }
    specialize (G text_sections 0%nat init). cbv zeta in G.
    destruct G as (R & C & E & F). cbn [init renders current_task errors all_files] in *.
    repeat split; assumption.
Qed.

End BatchExportLoop.

(** ** MainWindow.get_current_settings and create_template *)

Section WidgetSettings.
Import MainWindow CurrentSettings.
Context {image : Type}.
Variable current_background : outcome exception image.
Variable font_file : pystr -> outcome exception pystr.
Variable truetype_error : pystr -> Z -> option exception.

#[local] Abbreviation create_template :=
  (MainWindow.create_template current_background font_file truetype_error).

Lemma margin_Returns i name v :
  margin i name = Returns v ->
  exists sb, CurrentSettings.margin_inputs i !! name = Some sb /\ v = value sb.
Proof.
  unfold margin, getitem.
  destruct (CurrentSettings.margin_inputs i !! name) as [sb|]; [|discriminate].
  cbn [mbind outcome_bind]. intros [= <-]. exists sb. split; reflexivity.
Qed.

(** What [get_current_settings] reads for the font size and the line
    spacing. *)
Lemma get_current_settings_reads i s :
  get_current_settings i = Returns s ->
  font_size s = value (font_size_input i) /\
  exists sb, CurrentSettings.margin_inputs i !! "行间距" = Some sb /\
             margins s !! "行间距" = Some (value sb).
Proof.
  unfold get_current_settings. intros H.
  apply bind_Returns_inv in H. destruct H as (top & _ & H).
  apply bind_Returns_inv in H. destruct H as (bottom & _ & H).
  apply bind_Returns_inv in H. destruct H as (lm & _ & H).
  apply bind_Returns_inv in H. destruct H as (rm & _ & H).
  apply bind_Returns_inv in H. destruct H as (ws & _ & H).
  apply bind_Returns_inv in H. destruct H as (ls & Els & H).
  repeat (apply bind_Returns_inv in H; destruct H as (? & _ & H)).
  injection H as <-. cbn [font_size margins]. split; [reflexivity|].
  destruct (margin_Returns _ _ _ Els) as (sb & Esb & ->).
  exists sb. split; [exact Esb|].
  rewrite !lookup_insert_ne by discriminate. apply lookup_insert_eq.
Qed.

(** X25. For settings read from the widgets, with a line spacing box whose
    value is at least 2 (its minimum is 60), every template that
    [create_template] returns has the font size of the font size box and a
    line spacing above it, whatever the font size. *)
Theorem widget_settings_give_valid_template (i : inputs) (ui : widgets)
    (sb : spinbox) (s : settings) (T : Template image) :
  CurrentSettings.margin_inputs i !! "行间距" = Some sb -> 2 <= value sb ->
  get_current_settings i = Returns s ->
  fst (create_template s ui) = Returns T ->
  size (template_font T) = value (font_size_input i) /\
  size (template_font T) < line_spacing T.
Proof.
  intros Hsb Hv Hs HT.
  destruct (get_current_settings_reads i s Hs) as (Hfs & sb' & Hsb' & El).
  rewrite Hsb in Hsb'. injection Hsb' as <-.
  destruct (create_template_Returns _ _ _ s ui T HT)
    as (bg & font_path & L & _ & _ & Ea & Eb).
  destruct (build_Returns _ _ _ _ _ _ Eb) as [EL Es].
  rewrite (adjust_line_spacing_fst s ui (value sb) El) in Ea.
  rewrite Es, EL. split; [exact Hfs|].
  destruct (Z.leb_spec (value sb) (font_size s)) as [Hle|Hgt].
  - apply one_and_a_half_times_gt; [lia|exact Ea].
  - injection Ea as <-. exact Hgt.
Qed.

End WidgetSettings.

(** ** MainWindow.update_preview *)

Section UpdatePreviewFacts.
Import MainWindow UpdatePreview.
Context {image : Type}.
Variable current_background : outcome exception image.
Variable font_file : pystr -> outcome exception pystr.
Variable truetype_error : pystr -> Z -> option exception.

#[local] Abbreviation create_template :=
  (MainWindow.create_template current_background font_file truetype_error).
#[local] Abbreviation update_preview :=
  (UpdatePreview.update_preview current_background font_file truetype_error).

(** An exception of [create_template] is the one of the background or of
    the font file, or carries the words of the [except] clause. *)
Lemma create_template_Raises s w e :
  fst (create_template s w) = Raises e ->
  current_background = Raises e \/
  (exists bg, current_background = Returns bg /\ font_file (font s) = Raises e) \/
  (exists bg font_path,
     current_background = Returns bg /\ font_file (font s) = Returns font_path /\
     startswith (exc_str e) (str "创建模板失败: ") = true).
Proof.
  unfold MainWindow.create_template.
  destruct current_background as [bg|e0]; [|cbn [fst]; intros [= ->]; left; reflexivity].
  destruct (font_file (font s)) as [font_path|e0].
  2:{ cbn [fst]. intros [= ->]. right. left. exists bg. split; reflexivity. }
  destruct (adjust_line_spacing s w) as [r w'].
  cbn [fst]. unfold wrap. destruct (_ ← r; _) as [T|e']; [discriminate|].
  intros H. right. right. exists bg, font_path. split; [reflexivity|].
  split; [reflexivity|].
  assert (He : e = mkException OtherException (str "创建模板失败: " ++ exc_str e'))
    by congruence.
  rewrite He. exact (startswith_app (str "创建模板失败: ") (exc_str e')).
Qed.

(** A background file that is there and cannot be opened: the exception of
    [Image.open] leaves [create_template] as it is. *)
Lemma unreadable_background_is_not_wrapped
    (exists_ : pystr -> outcome exception bool)
    (open_rgb : pystr -> outcome exception image) (new_white : image)
    (c : N) (p : pystr) (s : settings) (w : widgets) (e : exception) :
  current_background = get_current_background (Some (c :: p)) exists_ open_rgb new_white ->
  exists_ (c :: p) = Returns true -> open_rgb (c :: p) = Raises e ->
  fst (create_template s w) = Raises e.
Proof.
  intros Hbg Hex Hop. unfold MainWindow.create_template, get_current_background in *.
  rewrite Hex in Hbg. cbn [mbind outcome_bind] in Hbg. rewrite Hop in Hbg.
  rewrite Hbg. reflexivity.
Qed.

Lemma cancel_previous_length b (p : Pipeline.t) :
  length (Pipeline.threads (Pipeline.cancel_previous b p)) = length (Pipeline.threads p).
Proof.
  unfold Pipeline.cancel_previous. destruct (Pipeline.worker p) as [w|]; [|reflexivity].
  destruct (Pipeline.isRunning w p); [|reflexivity].
  destruct b; unfold Pipeline.finished, Pipeline.cancel; cbn [Pipeline.threads];
    rewrite ?length_alter; reflexivity.
Qed.

(** X24. [MainWindow.update_preview] touches the preview workers only when a
    template is made.  Out of the preview mode, and when
    [get_current_settings] or [create_template] raises, it cancels no worker
    and starts none; in the second case it shows the text of the exception
    in one more warning box, and what follows is what the event loop of
    that box does.  The text starts with the words for a failed template
    when the exception comes from the [try] block of [create_template],
    while an exception of the background or of the font file is shown as it
    is.  When a template is made, the running worker is cancelled as
    [PreviewWidget.update_preview] does and one new worker is made, the
    current one, with the first 500 characters of the text and the
    template. *)
Theorem update_preview_starts_one_worker
    (box : state image -> state image) (stopped_in_time : bool) (st : state image) :
  let st' := update_preview box stopped_in_time st in
  let settings := CurrentSettings.get_current_settings (inputs_of st) in
  (radio_preview st = false ->
   preview st' = preview st /\ worker_args st' = worker_args st /\
   warning_boxes st' = warning_boxes st /\ stack_index st' = 0) /\
  (radio_preview st = true ->
   forall e,
     settings = Raises e \/
     (exists s, settings = Returns s /\ fst (create_template s (ui st)) = Raises e) ->
     exists opened,
       st' = box opened /\
       preview opened = preview st /\ worker_args opened = worker_args st /\
       warning_boxes opened = warning_boxes st ++ [exc_str e] /\
       stack_index opened = 1) /\
  (forall s e, settings = Returns s ->
     fst (create_template s (ui st)) = Raises e ->
     current_background = Raises e \/
     (exists bg, current_background = Returns bg /\ font_file (font s) = Raises e) \/
     (exists bg font_path,
        current_background = Returns bg /\ font_file (font s) = Returns font_path /\
        startswith (exc_str e) (str "创建模板失败: ") = true)) /\
  (forall s e, current_background = Raises e ->
     fst (create_template s (ui st)) = Raises e) /\
  (radio_preview st = true ->
   forall s T, settings = Returns s ->
     fst (create_template s (ui st)) = Returns T ->
     preview st' = Pipeline.update_preview stopped_in_time (preview st) /\
     Pipeline.worker (preview st') = Some (length (Pipeline.threads (preview st))) /\
     length (Pipeline.threads (preview st')) = S (length (Pipeline.threads (preview st))) /\
     worker_args st' = worker_args st ++ [(Window.preview_text (text_edit st), T)] /\
     warning_boxes st' = warning_boxes st /\ stack_index st' = 1).
Proof.
  cbv zeta. unfold UpdatePreview.update_preview. split; [|split; [|split; [|split]]].
  - intros ->. change (negb false) with true. cbv iota.
    cbn [preview worker_args warning_boxes stack_index]. repeat split.
  - intros -> e He. change (negb true) with false. cbv iota zeta.
    destruct He as [->|(s & -> & He)].
    + eexists. split; [reflexivity|]. unfold show_error.
      cbn [preview worker_args warning_boxes stack_index]. repeat split.
    + destruct (create_template s (ui st)) as [[T|e'] ui']; cbn [fst] in He;
        [discriminate|]. injection He as ->.
      eexists. split; [reflexivity|]. unfold show_error.
      cbn [preview worker_args warning_boxes stack_index]. repeat split.
  - intros s e _ He. exact (create_template_Raises _ _ _ He).
  - intros s e He. unfold MainWindow.create_template. rewrite He. reflexivity.
  - intros -> s T -> HT. change (negb true) with false. cbv iota zeta.
    destruct (create_template s (ui st)) as [[T'|e'] ui']; cbn [fst] in HT;
      [|discriminate]. injection HT as ->.
    cbn [preview worker_args warning_boxes stack_index].
    split; [reflexivity|]. unfold Pipeline.update_preview, Pipeline.start_new.
    cbn [Pipeline.worker Pipeline.threads]. rewrite length_app, cancel_previous_length.
    cbn [length]. split; [reflexivity|]. split; [lia|]. repeat split.
Qed.

End UpdatePreviewFacts.

(** ** Instances *)

(** An instance of X8: an empty file named [A.TXT]. *)
Lemma txt_import_is_never_empty_witness :
  let file_path := FileManager.mkPath (str "A.TXT") (str "A.TXT") (str ".TXT") in
  let read := fun (_ : FileManager.Path) (_ : string) => FileManager.Decoded [] in
  let none := fun _ : FileManager.Path => @Returns exception (list pystr) [] in
  ascii_lower (FileManager.suffix file_path) = str ".txt" /\
  read file_path "utf-8"%string = FileManager.Decoded [] /\
  FileManager.import_file ascii_lower read none none file_path =
  Raises (mkException OtherException
            (str "导入文件失败: " ++ str "无法解码文件 " ++ str "A.TXT" ++
             str "，请检查文件编码")).
Proof.
  cbv zeta. split; [reflexivity|]. split; [reflexivity|].
  exact (proj2 (txt_import_is_never_empty ascii_lower
                  (fun (_ : FileManager.Path) (_ : string) => FileManager.Decoded [])
                  (fun _ => Returns []) (fun _ => Returns [])
                  (FileManager.mkPath (str "A.TXT") (str "A.TXT") (str ".TXT"))
                  eq_refl) eq_refl).
Defined.

(** An instance of X10: a Word document of three paragraphs, two of them
    blank. *)
Lemma document_import_skips_blank_witness :
  let file_path := FileManager.mkPath (str "a.docx") (str "a.docx") (str ".docx") in
  let read := fun (_ : FileManager.Path) (_ : string) => FileManager.UnicodeDecodeError in
  let texts := [str "  "; str "ab"; []] in
  let paragraph_texts := fun _ : FileManager.Path => @Returns exception _ texts in
  let page_texts := fun _ : FileManager.Path => @Returns exception (list pystr) [] in
  ((ascii_lower (FileManager.suffix file_path) = str ".docx" /\
    paragraph_texts file_path = Returns texts) \/
   (ascii_lower (FileManager.suffix file_path) = str ".pdf" /\
    page_texts file_path = Returns texts)) /\
  exists text,
    FileManager.import_file ascii_lower read paragraph_texts page_texts file_path
      = Returns text /\
    text = join [10%N]
             (filter (fun t => FileManager.nonblank t = true) texts) /\
    (text = [] <-> Forall (fun t => FileManager.nonblank t = false) texts).
Proof.
  cbv zeta.
  assert (H : (ascii_lower (str ".docx") = str ".docx" /\
               @Returns exception _ [str "  "; str "ab"; []]
                 = Returns [str "  "; str "ab"; []]) \/
              (ascii_lower (str ".docx") = str ".pdf" /\
               @Returns exception (list pystr) [] = Returns [str "  "; str "ab"; []])).
  { left. split; reflexivity. }
  split; [exact H|].
  exact (document_import_skips_blank ascii_lower
           (fun (_ : FileManager.Path) (_ : string) => FileManager.UnicodeDecodeError)
           (fun _ => Returns [str "  "; str "ab"; []]) (fun _ => Returns [])
           (FileManager.mkPath (str "a.docx") (str "a.docx") (str ".docx"))
           [str "  "; str "ab"; []] H).
Defined.

(** An instance of X11: three images exported as [JPEG]. *)
Lemma image_export_names_pages_witness :
  let fails := fun _ : FileManager.effect nat => @None exception in
  let add_picture_error := fun _ : pystr => @None exception in
  let r := FileManager.export_images ascii_lower fails add_picture_error
             [7; 8; 9]%nat (str "out") (str "JPEG") 300 in
  str "JPEG" <> str "pdf" /\
  str_in (ascii_lower (str "JPEG")) [str "png"; str "jpg"; str "jpeg"] = true /\
  fst r = Returns [str "out_第1页.jpg"; str "out_第2页.jpg"; str "out_第3页.jpg"] /\
  NoDup [str "out_第1页.jpg"; str "out_第2页.jpg"; str "out_第3页.jpg"].
Proof.
  cbv zeta. split; [discriminate|]. split; [reflexivity|].
  split; [reflexivity|].
  exact (proj1 (proj2
    (image_export_names_pages ascii_lower (fun _ => None) (fun _ => None)
       [7; 8; 9]%nat (str "out") (str "JPEG") 300
       [str "out_第1页.jpg"; str "out_第2页.jpg"; str "out_第3页.jpg"]
       _ ltac:(discriminate) eq_refl eq_refl))).
Defined.

(** An instance of X12: the save of the second of three pages fails. *)
Lemma failed_image_export_keeps_pages_witness :
  let e' := mkException OtherException (str "disk full") in
  let fails := fun eff : FileManager.effect nat =>
    match eff with
    | FileManager.SaveImage _ 8%nat _ => Some e'
    | _ => None
    end in
  let add_picture_error := fun _ : pystr => @None exception in
  let e := mkException OtherException (str "导出图片失败: " ++ str "disk full") in
  let done := [FileManager.SaveImage (str "out_第1页.png") 7%nat (str "PNG")] in
  str "png" <> str "pdf" /\
  str_in (ascii_lower (str "png")) [str "png"; str "jpg"; str "jpeg"] = true /\
  FileManager.export_images ascii_lower fails add_picture_error
    [7; 8; 9]%nat (str "out") (str "png") 300 = (Raises e, done) /\
  exists k img e0,
    [7; 8; 9]%nat !! k = Some img /\
    fails (FileManager.SaveImage
             (FileManager.page_path (str "out") (str "png") (Z.of_nat k)) img (str "PNG"))
      = Some e0 /\
    e = mkException OtherException (str "导出图片失败: " ++ exc_str e0) /\
    done = FileManager.page_saves (str "out") (str "png") (str "PNG") 0
             (take k [7; 8; 9]%nat).
Proof.
  cbv zeta. split; [discriminate|]. split; [reflexivity|]. split; [reflexivity|].
  exact (failed_image_export_keeps_pages ascii_lower
           (fun eff : FileManager.effect nat =>
              match eff with
              | FileManager.SaveImage _ 8%nat _ =>
                  Some (mkException OtherException (str "disk full"))
              | _ => None
              end)
           (fun _ => None) [7; 8; 9]%nat (str "out") (str "png") 300
           (mkException OtherException (str "导出图片失败: " ++ str "disk full"))
           [FileManager.SaveImage (str "out_第1页.png") 7%nat (str "PNG")]
           ltac:(discriminate) eq_refl eq_refl).
Defined.

(** An instance of X13: the format [PDF]. *)
Lemma pdf_format_is_case_sensitive_witness :
  let fails := fun _ : FileManager.effect nat => @None exception in
  let add_picture_error := fun _ : pystr => @None exception in
  ascii_lower (str "PDF") = str "pdf" /\ str "PDF" <> str "pdf" /\
  FileManager.export_images ascii_lower fails add_picture_error
    [7; 8]%nat (str "out") (str "PDF") 300 =
  (Raises (mkException OtherException
             (str "导出图片失败: " ++ str "不支持的导出格式: " ++ str "PDF")), []).
Proof.
  cbv zeta. split; [reflexivity|]. split; [discriminate|].
  exact (pdf_format_is_case_sensitive ascii_lower (fun _ => None) (fun _ => None)
           [7; 8]%nat (str "out") (str "PDF") 300 eq_refl ltac:(discriminate)).
Defined.

(** An instance of X14: two images, the removal of the first temporary
    file fails. *)
Lemma word_export_separates_pages_witness :
  let fails := fun eff : FileManager.effect nat =>
    match eff with
    | FileManager.Remove path =>
        if str_eqb path (str "out_temp_0.png")
        then Some (mkException OtherException (str "busy"))
        else None
    | _ => None
    end in
  let add_picture_error := fun _ : pystr => @None exception in
  let doc := [FileManager.Picture (str "out_temp_0.png") 7%nat; FileManager.PageBreak;
              FileManager.Picture (str "out_temp_1.png") 8%nat] in
  let done := [FileManager.SaveImage (str "out_temp_0.png") 7%nat (str "PNG");
               FileManager.SaveImage (str "out_temp_1.png") 8%nat (str "PNG");
               FileManager.Remove (str "out_temp_1.png");
               FileManager.SaveDocument (str "out.docx") doc] in
  str "DOCX" <> str "pdf" /\ ascii_lower (str "DOCX") = str "docx" /\
  FileManager.export_images ascii_lower fails add_picture_error
    [7; 8]%nat (str "out") (str "DOCX") 300 = (Returns [str "out.docx"], done) /\
  [str "out.docx"] = [str "out" ++ str ".docx"] /\
  done = FileManager.temp_effects fails (str "out") 0 [7; 8]%nat ++
         [FileManager.SaveDocument (str "out" ++ str ".docx")
            (FileManager.document_of (str "out") 0 [7; 8]%nat)].
Proof.
  cbv zeta. split; [discriminate|]. split; [reflexivity|]. split; [reflexivity|].
  exact (word_export_separates_pages ascii_lower
           (fun eff : FileManager.effect nat =>
              match eff with
              | FileManager.Remove path =>
                  if str_eqb path (str "out_temp_0.png")
                  then Some (mkException OtherException (str "busy"))
                  else None
              | _ => None
              end)
           (fun _ => None) [7; 8]%nat (str "out") (str "DOCX") 300
           [str "out.docx"] _ ltac:(discriminate) eq_refl eq_refl).
Defined.

(** An instance of X16: seven characters in sections of three. *)
Lemma text_sections_split_the_text_witness :
  let text := str "abcdefg" in
  let parts := Batch.text_sections text 3 in
  0 < 3 /\
  parts = [str "abc"; str "def"; str "g"] /\
  concat parts = text /\
  len parts = Batch.sections text 3 /\
  Forall (fun part => 1 <= len part <= 3) parts /\
  (forall k part, parts !! k = Some part ->
     part = slice text (Z.of_nat k * 3) (Z.of_nat k * 3 + 3)).
Proof.
  cbv zeta. split; [lia|]. split; [reflexivity|].
  exact (text_sections_split_the_text (str "abcdefg") 3 ltac:(lia)).
Defined.

(** An instance of X17: a width of 1000 at the zoom level 125. *)
Lemma zoom_scales_by_floor_witness :
  0 <= 1000 /\ 0 <= 125 /\ 1000 * 125 < 2 ^ 53 /\
  PreviewZoom.scaled 1000 125 = Returns (1000 * 125 / 100) /\
  (125 = 100 -> PreviewZoom.scaled 1000 125 = Returns 1000).
Proof.
  split; [lia|]. split; [lia|]. split; [lia|].
  exact (zoom_scales_by_floor 1000 125 ltac:(lia) ltac:(lia) ltac:(lia)).
Defined.

(** An instance of X18: the font size 80 and a line spacing box at 100 in
    the range from 60 to 500. *)
Lemma font_size_slot_raises_line_spacing_witness :
  let sb := MainWindow.mkSpinbox 60 500 100 in
  let ui := MainWindow.mkWidgets {[ "行间距"%string := sb ]} [] in
  (MainWindow.margin_inputs ui !! "行间距"%string = Some sb) /\
  MainWindow.minimum sb <= MainWindow.maximum sb /\
  MainWindow.value sb <= MainWindow.maximum sb /\
  2 <= 80 < 2 ^ 51 /\
  exists ui' sb',
    Window.adjust_line_spacing 80 ui = Returns ui' /\
    (MainWindow.margin_inputs ui' !! "行间距"%string = Some sb') /\
    MainWindow.minimum sb' = MainWindow.minimum sb /\
    MainWindow.maximum sb' = MainWindow.maximum sb /\
    MainWindow.value sb <= MainWindow.value sb' /\
    (80 < MainWindow.value sb' <-> 80 < MainWindow.maximum sb).
Proof.
  cbv zeta. split; [reflexivity|]. split; [cbn; lia|]. split; [cbn; lia|].
  split; [lia|].
  exact (font_size_slot_raises_line_spacing 80
           (MainWindow.mkWidgets {[ "行间距"%string := MainWindow.mkSpinbox 60 500 100 ]} [])
           (MainWindow.mkSpinbox 60 500 100)
           eq_refl ltac:(cbn; lia) ltac:(cbn; lia) ltac:(lia)).
Defined.

(** An instance of X19: an image of 1000 by 1000 in a viewport of 820 by
    620. *)
Lemma fit_to_window_fits_witness :
  0 < 1000 < 2 ^ 31 /\ 820 < 2 ^ 31 /\ 620 < 2 ^ 31 /\
  PreviewZoom.fit_level 820 620 1000 1000 = Returns 60 /\ 10 <= 60 /\
  exists zoom_level width height,
    PreviewZoom.fit_to_window 820 620 1000 1000 = Returns zoom_level /\
    10 <= zoom_level <= 300 /\
    PreviewZoom.scaled 1000 zoom_level = Returns width /\
    PreviewZoom.scaled 1000 zoom_level = Returns height /\
    width <= 820 - 20 /\ height <= 620 - 20.
Proof.
  split; [lia|]. split; [lia|]. split; [lia|]. split; [vm_compute; reflexivity|].
  split; [lia|].
  exact (fit_to_window_fits 820 620 1000 1000 60
           ltac:(lia) ltac:(lia) ltac:(lia) ltac:(lia) eq_refl ltac:(lia)).
Defined.

(** An instance of X21: the font size 80 with the line spacing 60. *)
Lemma export_adjustment_settles_line_spacing_witness :
  let s := MainWindow.mkSettings (str "f") 80 {[ "行间距"%string := 60 ]} ∅ in
  let ui := MainWindow.mkWidgets {[ "行间距"%string := MainWindow.mkSpinbox 60 500 60 ]} [] in
  2 <= MainWindow.font_size s < 2 ^ 51 /\
  exists s' ui' shown,
    ExportImage.adjust_settings s ui = Returns (s', ui', shown) /\
    exists line_spacing,
      (MainWindow.margins s' !! "行间距"%string = Some line_spacing) /\
      MainWindow.font_size s' = MainWindow.font_size s /\
      MainWindow.font_size s < line_spacing /\
      MainWindow.adjust_line_spacing s' ui' = (Returns line_spacing, ui').
Proof.
  cbv zeta. split; [cbn; lia|]. eexists _, _, _.
  refine ((fun H => conj H
             (export_adjustment_settles_line_spacing
                (MainWindow.mkSettings (str "f") 80 {[ "行间距"%string := 60 ]} ∅)
                (MainWindow.mkWidgets
                   {[ "行间距"%string := MainWindow.mkSpinbox 60 500 60 ]} [])
                _ _ _ ltac:(cbn; lia) H)) _).
  reflexivity.
Defined.

(** An instance of X25: the font size 80 with the line spacing box at 60, so
    that the template gets the line spacing 120. *)
Lemma widget_settings_give_valid_template_witness :
  let box := MainWindow.mkSpinbox 0 500 50 in
  let sb := MainWindow.mkSpinbox 60 500 60 in
  let boxes : gmap string MainWindow.spinbox :=
    <["上边距"%string := box]> (<["下边距"%string := box]> (<["左边距"%string := box]>
    (<["右边距"%string := box]> (<["字间距"%string := box]>
    (<["行间距"%string := sb]> ∅))))) in
  let zero := S754_zero false in
  let i := CurrentSettings.mkInputs (str "f") (MainWindow.mkSpinbox 1 500 80) boxes
    (<["字间距扰动"%string := zero]> (<["行间距扰动"%string := zero]>
     (<["字体大小随机扰动"%string := zero]> (<["笔画横向偏移随机扰动"%string := zero]>
     (<["笔画纵向偏移随机扰动"%string := zero]>
     (<["笔画旋转偏移随机扰动"%string := zero]> ∅)))))) in
  let ui := MainWindow.mkWidgets boxes [] in
  (CurrentSettings.margin_inputs i !! "行间距"%string = Some sb) /\
  2 <= MainWindow.value sb /\
  exists s (T : MainWindow.Template unit),
    CurrentSettings.get_current_settings i = Returns s /\
    fst (MainWindow.create_template (Returns tt) (fun f => Returns f) (fun _ _ => None)
           s ui) = Returns T /\
    MainWindow.size (MainWindow.template_font T) =
      MainWindow.value (CurrentSettings.font_size_input i) /\
    MainWindow.size (MainWindow.template_font T) < MainWindow.line_spacing T.
Proof.
  intros box sb boxes zero i ui. split; [reflexivity|]. split; [cbn; lia|].
  eexists _, _. split; [reflexivity|]. split; [vm_compute; reflexivity|].
  eapply (widget_settings_give_valid_template (Returns tt) (fun f => Returns f)
            (fun _ _ => None) i ui sb).
  - reflexivity.
  - cbn. lia.
  - reflexivity.
  - vm_compute. reflexivity.
Defined.

(** An instance of C9: the font size 80 with the line spacing 60; the
    template is returned with the line spacing 120. *)
Lemma template_line_spacing_witness :
  let zero := S754_zero false in
  let s := MainWindow.mkSettings (str "f") 80
    (<["上边距"%string := 50]> (<["下边距"%string := 50]> (<["左边距"%string := 50]>
     (<["右边距"%string := 50]> (<["字间距"%string := 5]>
     (<["行间距"%string := 60]> ∅))))))
    (<["字间距扰动"%string := zero]> (<["行间距扰动"%string := zero]>
     (<["字体大小扰动"%string := zero]> (<["横向偏移扰动"%string := zero]>
     (<["纵向偏移扰动"%string := zero]> (<["旋转角度扰动"%string := zero]> ∅)))))) in
  let ui := MainWindow.mkWidgets
    {[ "行间距"%string := MainWindow.mkSpinbox 60 500 60 ]} [] in
  exists T : MainWindow.Template unit,
    fst (MainWindow.create_template (Returns tt) (fun f => Returns f) (fun _ _ => None)
           s ui) = Returns T /\
    MainWindow.background T = tt /\
    MainWindow.template_font T = MainWindow.mkFont (str "f") 80 /\
    MainWindow.line_spacing T = 120.
Proof.
  intros zero s ui.
  refine (proj1 (proj2 (proj2
            (template_line_spacing (Returns tt) (fun f => Returns f) (fun _ _ => None)
               s ui)))
            tt (str "f") 60 eq_refl eq_refl eq_refl eq_refl _ _ _).
  - repeat constructor; eexists; reflexivity.
  - repeat constructor; eexists; reflexivity.
  - intros _. cbn. lia.
Defined.

(** An instance of X24: the preview mode, an empty editor, the font size 80
    with the line spacing 100, and no worker yet; one worker is started on
    the sample text. *)
Lemma update_preview_starts_one_worker_witness :
  let box := MainWindow.mkSpinbox 0 500 50 in
  let boxes : gmap string MainWindow.spinbox :=
    <["上边距"%string := box]> (<["下边距"%string := box]> (<["左边距"%string := box]>
    (<["右边距"%string := box]> (<["字间距"%string := box]>
    (<["行间距"%string := MainWindow.mkSpinbox 60 500 100]> ∅))))) in
  let zero := S754_zero false in
  let st : UpdatePreview.state unit :=
    UpdatePreview.mkState true 0 [] (str "f") (MainWindow.mkSpinbox 1 500 80)
      (<["字间距扰动"%string := zero]> (<["行间距扰动"%string := zero]>
       (<["字体大小随机扰动"%string := zero]> (<["笔画横向偏移随机扰动"%string := zero]>
       (<["笔画纵向偏移随机扰动"%string := zero]>
       (<["笔画旋转偏移随机扰动"%string := zero]> ∅))))))
      (MainWindow.mkWidgets boxes []) [] Pipeline.init [] in
  let st' := UpdatePreview.update_preview (Returns tt) (fun f => Returns f)
               (fun _ _ => None) (fun st => st) false st in
  UpdatePreview.radio_preview st = true /\
  exists s T,
    CurrentSettings.get_current_settings (UpdatePreview.inputs_of st) = Returns s /\
    fst (MainWindow.create_template (Returns tt) (fun f => Returns f) (fun _ _ => None)
           s (UpdatePreview.ui st)) = Returns T /\
    MainWindow.line_spacing T = 100 /\
    UpdatePreview.preview st' = Pipeline.update_preview false (UpdatePreview.preview st) /\
    Pipeline.worker (UpdatePreview.preview st') = Some 0%nat /\
    length (Pipeline.threads (UpdatePreview.preview st')) = 1%nat /\
    UpdatePreview.worker_args st' = [(WorkerThread.placeholder, T)] /\
    UpdatePreview.warning_boxes st' = [] /\ UpdatePreview.stack_index st' = 1.
Proof.
  intros box boxes zero st st'. split; [reflexivity|]. eexists _, _.
  split; [reflexivity|]. split; [reflexivity|]. split; [reflexivity|].
  eapply (proj2 (proj2 (proj2 (proj2
            (update_preview_starts_one_worker (Returns tt) (fun f => Returns f)
               (fun _ _ => None) (fun st => st) false st))))).
  - reflexivity.
  - reflexivity.
  - reflexivity.
Defined.

(** An instance of X4: a second error is handled while the box of a first
    one is open; both are shown, and the error image is the one of the
    second, whose box is closed first. *)
Lemma cache_after_notifications_witness :
  let error_image := fun error_msg : pystr => error_msg in
  let first := str "a" in
  let second := str "b" in
  exists w,
    PreviewWidget.deliver_all error_image 1
      [PreviewWidget.Notify (errorOccurred first)
         [PreviewWidget.Notify (errorOccurred second) []]]
      PreviewWidget.init = Returns w /\
    PreviewWidget.warnings w = [first; second] /\
    PreviewManager.pages (PreviewWidget.preview_manager w) = [error_image second] /\
    PreviewManager.current_page (PreviewWidget.preview_manager w) = 0 /\
    PreviewWidget.page_spin w = MainWindow.mkSpinbox 1 99 1.
Proof.
  exact (cache_after_notifications (fun error_msg : pystr => error_msg) 0
           [PreviewWidget.Notify (errorOccurred (str "a"))
              [PreviewWidget.Notify (errorOccurred (str "b")) []]]).
Defined.
